(** * Schedule-Editor: a shallow embedding of the spreadsheet service and of
    the placement handlers, with the properties of its specification.

    The embedded code is [services/excelService.ts] (normalizeTime,
    normalizeDate, extractSquadFromA1, parseExcelFile, exportToExcel) and
    [App.tsx] (dynamicTimeSlots, visibleDates, onDropToTimetable,
    onDropToParking and the discard button of the staging list).

    JavaScript strings are modelled as [string] (the ASCII range of the
    spreadsheet conventions: digits, colons, AM/PM markers, ISO dates). *)

From Stdlib Require Import ZArith QArith Qround Qcanon Lqa Ascii String DecimalString.
From Stdlib Require DecimalPos.
From stdpp Require Import base option list sorting strings gmap.

(** ** JavaScript primitives used by the program *)

Module JS.

(** A JavaScript number is [NaN] or a finite value, kept as the rational it
    denotes; arithmetic is exact, which is what the engine computes on the
    integers and short binary fractions of a time table (0.5625 * 1440 = 810).
    The program never produces an infinity. *)
Inductive number :=
| NaN
| Num (q : Q).

Definition of_Z (z : Z) : number := Num (inject_Z z).

(** [a < b], [a >= b], [a > b] and [a === b]: every comparison with NaN is false. *)
Definition lt (a b : number) : bool :=
  match a, b with
  | Num x, Num y => negb (Qle_bool y x)
  | _, _ => false
  end.

Definition ge (a b : number) : bool :=
  match a, b with
  | Num x, Num y => Qle_bool y x
  | _, _ => false
  end.

Definition gt (a b : number) : bool := lt b a.

Definition strict_eq (a b : number) : bool :=
  match a, b with
  | Num x, Num y => Qeq_bool x y
  | _, _ => false
  end.

Definition add (a b : number) : number :=
  match a, b with
  | Num x, Num y => Num (Qred (x + y)%Q)
  | _, _ => NaN
  end.

Definition sub (a b : number) : number :=
  match a, b with
  | Num x, Num y => Num (Qred (x - y)%Q)
  | _, _ => NaN
  end.

(** [a * b], exact.  The engine rounds the product to binary64: the two are
    the same when the exact product is a binary64 number, as it is for the
    integers and the binary fractions of few digits. *)
Definition mul (a b : number) : number :=
  match a, b with
  | Num x, Num y => Num (Qred (x * y)%Q)
  | _, _ => NaN
  end.

(** [a / b]; the program only divides by the constant 60. *)
Definition div (a b : number) : number :=
  match a, b with
  | Num x, Num y => if Qeq_bool y 0 then NaN else Num (Qred (x / y)%Q)
  | _, _ => NaN
  end.

(** Truncation toward zero of a rational. *)
Definition Qtrunc (q : Q) : Z := Z.quot (Qnum q) (Zpos (Qden q)).

(** [a % b]: the remainder takes the sign of the dividend, NaN propagates and
    a zero divisor gives NaN. *)
Definition rem (a b : number) : number :=
  match a, b with
  | Num x, Num y =>
      if Qeq_bool y 0 then NaN
      else Num (Qred (x - y * inject_Z (Qtrunc (x / y)))%Q)
  | _, _ => NaN
  end.

Definition Math_floor (a : number) : number :=
  match a with
  | NaN => NaN
  | Num x => of_Z (Qfloor x)
  end.

(** [Math.round] rounds half-way cases up. *)
Definition Math_round (a : number) : number :=
  match a with
  | NaN => NaN
  | Num x => of_Z (Qfloor (x + (1 # 2))%Q)
  end.

(** *** Strings *)

Definition string_of_Z (z : Z) : string := NilZero.string_of_int (Z.to_int z).

Definition digit_char (d : Z) : ascii := ascii_of_nat (48 + Z.to_nat d).

(** Digits after the decimal point of [r / d] (with [0 <= r < d]), by long
    division, as long as the remainder is not zero. *)
Fixpoint frac_digits (fuel : nat) (r d : Z) : string :=
  match fuel with
  | O => ""
  | S fuel' =>
      if Z.eqb r 0 then ""
      else String (digit_char ((10 * r) / d)%Z) (frac_digits fuel' ((10 * r) mod d)%Z d)
  end.

(** [String(n)] for a number: the decimal digits of an integral value, the
    terminating decimal expansion otherwise ("1.5", "0.5625").  This is what
    the engine prints for magnitudes from 1e-6 up to 1e21, where it does not
    switch to the exponent form, when the expansion is the shortest decimal
    that reads back as the number, as for 1.5 and 0.5625; of a binary64
    number such as 8.3 the engine prints that shortest decimal, not the
    expansion. *)
Definition number_to_string (n : number) : string :=
  match n with
  | NaN => "NaN"
  | Num q =>
      let num := Qnum (Qred q) in
      let den := Zpos (Qden (Qred q)) in
      let ip := (Z.abs num / den)%Z in
      let fr := (Z.abs num mod den)%Z in
      (if Z.ltb num 0 then "-" else "") +:+ string_of_Z ip +:+
      (if Z.eqb fr 0 then "" else "." +:+ frac_digits 24 fr den)
  end.

Definition is_digit (c : ascii) : bool :=
  match Ascii.is_nat c with Some _ => true | None => false end.

Definition is_upper (c : ascii) : bool :=
  (Nat.leb 65 (nat_of_ascii c) && Nat.leb (nat_of_ascii c) 90)%bool.

Definition is_lower (c : ascii) : bool :=
  (Nat.leb 97 (nat_of_ascii c) && Nat.leb (nat_of_ascii c) 122)%bool.

Definition is_letter (c : ascii) : bool := (is_upper c || is_lower c)%bool.

Definition lower_char (c : ascii) : ascii :=
  if is_upper c then ascii_of_nat (nat_of_ascii c + 32) else c.

Fixpoint toLowerCase (s : string) : string :=
  match s with
  | "" => ""
  | String c s' => String (lower_char c) (toLowerCase s')
  end.

Fixpoint trimStart (s : string) : string :=
  match s with
  | "" => ""
  | String c s' => if Ascii.is_space c then trimStart s' else s
  end.

Definition trim (s : string) : string :=
  String.rev (trimStart (String.rev (trimStart s))).

(** [s.padStart(n, '0')]. *)
Fixpoint zeros (k : nat) : string :=
  match k with
  | O => ""
  | S k' => String "0"%char (zeros k')
  end.

Definition padStart0 (n : nat) (s : string) : string :=
  zeros (n - String.length s) +:+ s.

(** [s.slice(a, b)] for [0 <= a <= b]. *)
Definition slice (a b : nat) (s : string) : string := String.substring a (b - a) s.

(** [s.split(sep)] for a one-character separator: never empty. *)
Fixpoint split_go (sep : ascii) (cur s : string) : list string :=
  match s with
  | "" => [String.rev cur]
  | String c s' =>
      if Ascii.eqb c sep then String.rev cur :: split_go sep "" s'
      else split_go sep (String c cur) s'
  end.

Definition split (sep : ascii) (s : string) : list string := split_go sep "" s.

(** [s.includes(sub)]. *)
Fixpoint includes (sub s : string) : bool :=
  if String.prefix sub s then true
  else match s with
       | "" => false
       | String _ s' => includes sub s'
       end.

(** The value of a decimal digit string. *)
Fixpoint digits_value (acc : Z) (s : string) : Z :=
  match s with
  | "" => acc
  | String c s' =>
      match Ascii.is_nat c with
      | Some d => digits_value (10 * acc + Z.of_nat d)%Z s'
      | None => acc
      end
  end.

Definition starts_with_digit (s : string) : bool :=
  match s with
  | String c _ => is_digit c
  | "" => false
  end.

(** [parseInt(s, 10)]: leading white space is skipped, an optional sign is
    read, then the longest run of digits; NaN when there is no digit.  The
    value is exact, as the engine's is up to 2^53. *)
Definition parseInt (s : string) : number :=
  let t := trimStart s in
  match t with
  | String "-"%char r =>
      if starts_with_digit r then of_Z (- digits_value 0 r)%Z else NaN
  | String "+"%char r =>
      if starts_with_digit r then of_Z (digits_value 0 r) else NaN
  | _ => if starts_with_digit t then of_Z (digits_value 0 t) else NaN
  end.

(** [s.replace(/[a-z]/gi, '')]. *)
Fixpoint strip_letters (s : string) : string :=
  match s with
  | "" => ""
  | String c s' => if is_letter c then strip_letters s' else String c (strip_letters s')
  end.

(** [s.match(/(am|pm)/i)]: the first occurrence, as written in [s]. *)
Fixpoint match_ampm (s : string) : option string :=
  match s with
  | String a ((String b _) as s') =>
      if ((Ascii.eqb (lower_char a) "a" || Ascii.eqb (lower_char a) "p")
          && Ascii.eqb (lower_char b) "m")%bool%char
      then Some (String a (String b ""))
      else match_ampm s'
  | _ => None
  end.

(** [s.match(/\d+/)]: the first maximal run of digits. *)
Fixpoint take_digits (s : string) : string :=
  match s with
  | String c s' => if is_digit c then String c (take_digits s') else ""
  | "" => ""
  end.

Fixpoint match_digits (s : string) : option string :=
  match s with
  | "" => None
  | String c s' => if is_digit c then Some (take_digits s) else match_digits s'
  end.

(** [/^\d{4}-\d{2}-\d{2}$/.test(s)]. *)
Definition is_iso_date (s : string) : bool :=
  match s with
  | String y1 (String y2 (String y3 (String y4 (String h1
      (String m1 (String m2 (String h2 (String d1 (String d2 "")))))))))
    => (is_digit y1 && is_digit y2 && is_digit y3 && is_digit y4
        && Ascii.eqb h1 "-" && is_digit m1 && is_digit m2
        && Ascii.eqb h2 "-" && is_digit d1 && is_digit d2)%bool%char
  | _ => false
  end.

End JS.
Import JS.

(** ** Values, dates and exceptions *)

(** The observations the program makes of a valid [Date] object: local
    wall-clock fields (getFullYear, getMonth, getDate, getHours, getMinutes),
    the UTC fields printed by [toISOString], and the text of [String(d)]. *)
Record DateFields := {
  localFullYear : Z;
  localMonth : Z;       (* getMonth(): 0..11 *)
  localDate : Z;
  localHours : Z;
  localMinutes : Z;
  utcFullYear : Z;
  utcMonth : Z;         (* 1..12, as printed *)
  utcDate : Z;
  utcHours : Z;
  utcMinutes : Z;
  utcSeconds : Z;
  utcMilliseconds : Z;
  dateText : string
}.

(** A [Date] object holds a time value or NaN ("Invalid Date"). *)
Inductive Date :=
| InvalidDate
| ValidDate (f : DateFields).

(** Cell values as [XLSX.utils.sheet_to_json(.., { header: 1 })] yields them
    with [cellDates: true]; a hole in a row reads as [undefined]. *)
Inductive value :=
| VUndefined
| VNull
| VBool (b : bool)
| VNumber (n : number)
| VString (s : string)
| VDate (d : Date).

Inductive exn :=
| RangeError
| TypeError.

(** A computation that returns or throws. *)
Inductive result (A : Type) :=
| Ok (a : A)
| Throw (e : exn).
Arguments Ok {A} a.
Arguments Throw {A} e.

#[global] Instance result_ret : MRet result := fun A a => Ok a.
#[global] Instance result_bind : MBind result := fun A B f r =>
  match r with
  | Ok a => f a
  | Throw e => Throw e
  end.

Definition getHours (d : Date) : number :=
  match d with
  | InvalidDate => NaN
  | ValidDate f => of_Z (localHours f)
  end.

Definition getMinutes (d : Date) : number :=
  match d with
  | InvalidDate => NaN
  | ValidDate f => of_Z (localMinutes f)
  end.

Definition getFullYear (d : Date) : number :=
  match d with
  | InvalidDate => NaN
  | ValidDate f => of_Z (localFullYear f)
  end.

Definition getMonth (d : Date) : number :=
  match d with
  | InvalidDate => NaN
  | ValidDate f => of_Z (localMonth f)
  end.

Definition getDate (d : Date) : number :=
  match d with
  | InvalidDate => NaN
  | ValidDate f => of_Z (localDate f)
  end.

(** [isNaN(d.getTime())]. *)
Definition getTime_isNaN (d : Date) : bool :=
  match d with
  | InvalidDate => true
  | ValidDate _ => false
  end.

Definition pad_Z (n : nat) (z : Z) : string := padStart0 n (string_of_Z z).

(** The year of an ISO string: four digits, or a sign and six digits outside
    0..9999. *)
Definition iso_year (y : Z) : string :=
  if (0 <=? y)%Z && (y <=? 9999)%Z then pad_Z 4 y
  else (if (y <? 0)%Z then "-" else "+") +:+ pad_Z 6 (Z.abs y).

(** [d.toISOString()]: throws a RangeError on an invalid date. *)
Definition toISOString (d : Date) : result string :=
  match d with
  | InvalidDate => Throw RangeError
  | ValidDate f =>
      Ok (iso_year (utcFullYear f) +:+ "-" +:+ pad_Z 2 (utcMonth f) +:+ "-" +:+
          pad_Z 2 (utcDate f) +:+ "T" +:+ pad_Z 2 (utcHours f) +:+ ":" +:+
          pad_Z 2 (utcMinutes f) +:+ ":" +:+ pad_Z 2 (utcSeconds f) +:+ "." +:+
          pad_Z 3 (utcMilliseconds f) +:+ "Z")
  end.

(** [a[0]] of the array returned by [split]. *)
Definition first (l : list string) : string := default "" (head l).

(** [String(v)]. *)
Definition String_ (v : value) : string :=
  match v with
  | VUndefined => "undefined"
  | VNull => "null"
  | VBool true => "true"
  | VBool false => "false"
  | VNumber n => number_to_string n
  | VString s => s
  | VDate InvalidDate => "Invalid Date"
  | VDate (ValidDate f) => dateText f
  end.

(** Truthiness: [!v] is [negb (truthy v)]. *)
Definition truthy (v : value) : bool :=
  match v with
  | VUndefined | VNull => false
  | VBool b => b
  | VNumber NaN => false
  | VNumber (Num q) => negb (Qeq_bool q 0)
  | VString s => negb (String.eqb s "")
  | VDate _ => true
  end.

(** [a || b]. *)
Definition or_else (a b : value) : value := if truthy a then a else b.

(** The date record returned by [XLSX.SSF.parse_date_code]. *)
Module SSF.
Record date := { y : Z; m : Z; d : Z }.
End SSF.

(** What the program takes from its host: the engine's date parser and
    collation, the SheetJS date-serial decoder (which answers [null] outside
    its range), and the random identifiers. *)
Class Host := {
  (** [new Date(str)] *)
  Date_parse : string -> Date;
  (** [XLSX.SSF.parse_date_code(n)] *)
  parse_date_code : number -> option SSF.date;
  (** [a.localeCompare(b)] *)
  localeCompare : string -> string -> number;
  (** the k-th evaluation of [Math.random().toString(36).substr(2, 9)] *)
  random_id : nat -> string
}.

(** ** services/excelService.ts: the normalizers *)

Section Normalizers.
Context `{Host}.

(** Hours and minutes of a [HHmm] text left-padded to four characters. *)
Definition split_hhmm (s : string) : number * number :=
  let t := padStart0 4 s in
  (parseInt (slice 0 2 t), parseInt (slice 2 4 t)).

Definition time_of_number (val : number) : number * number :=
  if lt val (of_Z 1) && ge val (of_Z 0) then
    let totalMinutes := Math_round (mul val (of_Z 1440)) in
    (Math_floor (div totalMinutes (of_Z 60)), rem totalMinutes (of_Z 60))
  else split_hhmm (number_to_string val).

Definition time_parts (str : string) : list string :=
  filter (fun p => String.length p <> 0%nat) (trim <$> split ":" (strip_letters str)).

Definition apply_ampm (ampmMatch : option string) (hours : number) : number :=
  match ampmMatch with
  | Some m0 =>
      let isPM := String.eqb (toLowerCase m0) "pm" in
      let hours := if isPM && lt hours (of_Z 12) then add hours (of_Z 12) else hours in
      if negb isPM && strict_eq hours (of_Z 12) then of_Z 0 else hours
  | None => hours
  end.

Definition time_of_string (val : string) : number * number :=
  let str := trim val in
  let ampmMatch := match_ampm str in
  let '(hours, minutes) :=
    match time_parts str with
    | p0 :: p1 :: _ => (parseInt p0, parseInt p1)
    | [p0] => split_hhmm p0
    | [] => (of_Z 0, of_Z 0)
    end in
  (apply_ampm ampmMatch hours, minutes).

Definition format_time (hm : number * number) : string :=
  let hours := rem (fst hm) (of_Z 24) in
  let minutes := rem (snd hm) (of_Z 60) in
  padStart0 2 (number_to_string hours) +:+ padStart0 2 (number_to_string minutes).

Definition normalizeTime (val : value) : string :=
  match val with
  | VUndefined | VNull | VString "" => ""
  | VDate dt => format_time (getHours dt, getMinutes dt)
  | VNumber n => format_time (time_of_number n)
  | _ => format_time (time_of_string (String_ val))
  end.

Definition iso_day (dt : Date) : result string :=
  iso ← toISOString dt; mret (first (split "T" iso)).

Definition normalizeDate (val : value) : result string :=
  if negb (truthy val) then Ok "" else
  let generic :=
    let str := trim (String_ val) in
    if is_iso_date str then Ok str
    else
      let dt := Date_parse str in
      if negb (getTime_isNaN dt) then iso_day dt else Ok str in
  match val with
  | VNumber n =>
      if gt n (of_Z 30000) then
        match parse_date_code n with
        | None => Throw TypeError
        | Some date =>
            Ok (number_to_string (of_Z (SSF.y date)) +:+ "-" +:+
                padStart0 2 (number_to_string (of_Z (SSF.m date))) +:+ "-" +:+
                padStart0 2 (number_to_string (of_Z (SSF.d date))))
        end
      else generic
  | VDate dt => iso_day dt
  | _ => generic
  end.

Definition extractSquadFromA1 (val : value) : string :=
  match val with
  | VUndefined | VNull | VString "" => ""
  | _ =>
      let str := trim (String_ val) in
      match match_digits str with
      | Some m0 => m0
      | None => str
      end
  end.

End Normalizers.

(** ** types.ts *)

(** [squad_number: number | string], and the selected squad of the editor. *)
Inductive squad_id :=
| SquadNum (n : number)
| SquadStr (s : string).

Definition String_squad (q : squad_id) : string :=
  match q with
  | SquadNum n => number_to_string n
  | SquadStr s => s
  end.

Record Session := {
  id : string;
  squad_number : squad_id;
  date : string;
  from : string;
  to : string;
  course_id : string;
  lu_id : string;
  mentor_id : string
}.

(** ** services/excelService.ts: parseExcelFile *)

Section Importer.
Context `{Host}.

(** [row[i]]: reading past the end of a row gives [undefined]. *)
Definition cell (row : list value) (i : nat) : value := default VUndefined (row !! i).

Definition nonempty (s : string) : bool := negb (String.eqb s "").

(** The two [continue] guards: a short row, or a label in the first cell.
    A row is an array, so [!row] does not hold. *)
Definition skip_row (row : list value) : bool :=
  (length row <? 3)%nat ||
  (let col1Val := toLowerCase (String_ (or_else (cell row 0) (VString ""))) in
   includes "slot" col1Val || includes "date" col1Val || includes "squad" col1Val).

(** The object pushed for a row; [k] counts the identifiers drawn so far. *)
Definition new_session (squadForThisSheet : string) (k : nat) (sessionDate : string)
    (row : list value) : Session :=
  {| id := random_id k;
     squad_number := SquadStr squadForThisSheet;
     date := sessionDate;
     from := normalizeTime (cell row 2);
     to := normalizeTime (cell row 3);
     course_id := String_ (or_else (cell row 4) (VString "Untitled Course"));
     lu_id := if truthy (cell row 5) then String_ (cell row 5) else "";
     mentor_id := String_ (or_else (cell row 6) (VString "Unassigned")) |}.

(** One iteration of the row loop, on the pair of [allSessions] and
    [lastDateInSheet].  [continue] leaves the pair as it is. *)
Definition import_row (squadForThisSheet : string)
    (st : list Session * string) (row : list value) : result (list Session * string) :=
  let '(allSessions, lastDateInSheet) := st in
  if skip_row row then Ok st else
  normalized ← normalizeDate (cell row 1);
  let sessionDate := if nonempty normalized then normalized else lastDateInSheet in
  let fromTime := normalizeTime (cell row 2) in
  if nonempty fromTime && nonempty sessionDate then
    Ok (allSessions ++
          [new_session squadForThisSheet (length allSessions) sessionDate row],
        sessionDate)
  else Ok st.

(** [for (let i = 1; i < rawData.length; i++)]. *)
Fixpoint import_rows (squadForThisSheet : string)
    (st : list Session * string) (rows : list (list value)) : result (list Session * string) :=
  match rows with
  | [] => Ok st
  | row :: rest =>
      st' ← import_row squadForThisSheet st row;
      import_rows squadForThisSheet st' rest
  end.

(** The body of [workbook.SheetNames.forEach]. *)
Definition import_sheet (allSessions : list Session) (rawData : list (list value))
    : result (list Session) :=
  match rawData with
  | [] => Ok allSessions
  | row0 :: rows =>
      let squadForThisSheet := extractSquadFromA1 (cell row0 0) in
      if nonempty squadForThisSheet then
        st ← import_rows squadForThisSheet (allSessions, "") rows;
        Ok (fst st)
      else Ok allSessions
  end.

Fixpoint import_sheets (allSessions : list Session) (sheets : list (list (list value)))
    : result (list Session) :=
  match sheets with
  | [] => Ok allSessions
  | rawData :: rest =>
      allSessions' ← import_sheet allSessions rawData;
      import_sheets allSessions' rest
  end.

(** [parseExcelFile] from the workbook on: the promise resolves with the
    sessions ([Ok]) or rejects with what was thrown. *)
Definition parseExcelFile (workbook : list (list (list value))) : result (list Session) :=
  import_sheets [] workbook.

End Importer.

(** ** Array.prototype.sort with a comparator *)

(** The sort is stable, and a comparator result that is NaN counts as 0.  For
    a consistent comparator the result is the one stable arrangement, which
    this insertion sort computes: an element moves past the elements it
    compares greater than and stays before the ones it ties with.  For an
    inconsistent comparator the language leaves the order to the engine; the
    result is a rearrangement of the array in every engine, as it is here. *)
Section Sort.
Context {A : Type} (cmp : A -> A -> number).

Fixpoint insert_sorted (x : A) (l : list A) : list A :=
  match l with
  | [] => [x]
  | y0 :: l' => if gt (cmp x y0) (of_Z 0) then y0 :: insert_sorted x l' else x :: l
  end.

Definition sort_with (l : list A) : list A := foldr insert_sorted [] l.

End Sort.

(** ** App.tsx: slots, visible dates and the drop handlers *)

Module Slot.
Record SlotDefinition := { from : string; to : string }.
End Slot.
Abbreviation SlotDefinition := Slot.SlotDefinition.

Record AppState := {
  sessions : list Session;
  parkingLot : list Session;
  selectedSquad : squad_id
}.

Definition defaultSlots : list SlotDefinition :=
  [ {| Slot.from := "0830"; Slot.to := "1030" |};
    {| Slot.from := "1030"; Slot.to := "1230" |};
    {| Slot.from := "1330"; Slot.to := "1530" |};
    {| Slot.from := "1530"; Slot.to := "1730" |} ].

(** A [Map<string, string>] keeps its keys in insertion order; [set] on a
    present key replaces the value where the key stands. *)
Fixpoint map_set (k v : string) (mp : list (string * string)) : list (string * string) :=
  match mp with
  | [] => [(k, v)]
  | (k', v') :: rest =>
      if String.eqb k' k then (k, v) :: rest else (k', v') :: map_set k v rest
  end.

Fixpoint map_get (k : string) (mp : list (string * string)) : option string :=
  match mp with
  | [] => None
  | (k', v') :: rest => if String.eqb k' k then Some v' else map_get k rest
  end.

Definition map_keys (mp : list (string * string)) : list string := fst <$> mp.

(** [sessions.forEach(s => { if (s.from && s.to) slotMap.set(s.from, s.to) })]. *)
Definition slotMap_of (ss : list Session) : list (string * string) :=
  foldl (fun mp s => if nonempty (from s) && nonempty (to s)
                     then map_set (from s) (to s) mp else mp) [] ss.

Definition compare_from (a b : string) : number := sub (parseInt a) (parseInt b).

Definition dynamicTimeSlots (ss : list Session) : list SlotDefinition :=
  let slotMap := slotMap_of ss in
  if (length slotMap =? 0)%nat then defaultSlots
  else
    let sortedFromTimes := sort_with compare_from (map_keys slotMap) in
    (fun f => {| Slot.from := f;
                 Slot.to := match map_get f slotMap with
                            | Some t => if nonempty t then t else ""
                            | None => ""
                            end |}) <$> sortedFromTimes.

Definition same_squad (q : squad_id) (s : Session) : Prop :=
  String_squad (squad_number s) = String_squad q.

#[global] Instance same_squad_dec q s : Decision (same_squad q s).
Proof. unfold same_squad. apply _. Defined.

Definition currentSquadSessions (st : AppState) : list Session :=
  filter (same_squad (selectedSquad st)) (sessions st).

(** [Array.from(new Set(l))]: first occurrences, in order. *)
Fixpoint dedupe (seen l : list string) : list string :=
  match l with
  | [] => []
  | x :: l' => if decide (x ∈ seen) then dedupe seen l' else x :: dedupe (x :: seen) l'
  end.

(** The comparator of the default [sort()]: code-unit order of strings. *)
Definition compare_strings (a b : string) : number :=
  match String.compare a b with
  | Lt => of_Z (-1)
  | Eq => of_Z 0
  | Gt => of_Z 1
  end.

(** [visibleDates]; [now] is the [new Date()] of the fallback. *)
Definition visibleDates (now : DateFields) (st : AppState) : list string :=
  let sessionDates := sort_with compare_strings (dedupe [] (date <$> currentSquadSessions st)) in
  if (length sessionDates =? 0)%nat
  then match iso_day (ValidDate now) with
       | Ok today => [today]
       | Throw _ => []
       end
  else sessionDates.

(** The session a grid cell shows:
    [currentSquadSessions.find(s => s.date === dateStr && s.from === slot.from)]. *)
Definition cell_session (st : AppState) (dateStr : string) (slot : SlotDefinition)
    : option Session :=
  List.find (fun s => String.eqb (date s) dateStr && String.eqb (from s) (Slot.from slot))
            (currentSquadSessions st).

(** The [source] string of a drag. *)
Inductive source :=
| timetable
| parking.

(** [{ ...draggedSession, squad_number, date, from, to }]. *)
Definition updatedSession (st : AppState) (draggedSession : Session)
    (targetDate : string) (targetSlot : SlotDefinition) : Session :=
  {| id := id draggedSession;
     squad_number := SquadStr (String_squad (selectedSquad st));
     date := targetDate;
     from := Slot.from targetSlot;
     to := Slot.to targetSlot;
     course_id := course_id draggedSession;
     lu_id := lu_id draggedSession;
     mentor_id := mentor_id draggedSession |}.

Definition onDropToTimetable (st : AppState) (draggedSession : Session) (src : source)
    (targetDate : string) (targetSlot : SlotDefinition) : AppState :=
  let updated := updatedSession st draggedSession targetDate targetSlot in
  match src with
  | parking =>
      {| sessions := sessions st ++ [updated];
         parkingLot := filter (fun s => id s <> id draggedSession) (parkingLot st);
         selectedSquad := selectedSquad st |}
  | timetable =>
      {| sessions := (fun s => if decide (id s = id draggedSession) then updated else s)
                       <$> sessions st;
         parkingLot := parkingLot st;
         selectedSquad := selectedSquad st |}
  end.

Definition onDropToParking (st : AppState) (draggedSession : Session) (src : source)
    : AppState :=
  match src with
  | timetable =>
      {| sessions := filter (fun s => id s <> id draggedSession) (sessions st);
         parkingLot := parkingLot st ++ [draggedSession];
         selectedSquad := selectedSquad st |}
  | parking => st
  end.

(** The trash button of a staged card. *)
Definition discard (st : AppState) (session : Session) : AppState :=
  {| sessions := sessions st;
     parkingLot := filter (fun s => id s <> id session) (parkingLot st);
     selectedSquad := selectedSquad st |}.

Definition setSelectedSquad (st : AppState) (q : squad_id) : AppState :=
  {| sessions := sessions st; parkingLot := parkingLot st; selectedSquad := q |}.

(** The state [handleFileUpload] sets after an import with data: the
    sessions, an empty staging list and the squad of the first session.
    With no data the state stays the initial one (no session, squad 1). *)
Definition loaded (data : list Session) : AppState :=
  {| sessions := data;
     parkingLot := [];
     selectedSquad := match data with
                      | s :: _ => squad_number s
                      | [] => SquadNum (of_Z 1)
                      end |}.

(** *** The squads of the arrows *)

(** What the squad list takes from the engine: [Number(text)] on the squad
    label of a session.  On the labels an import gives (a run of digits, or a
    text without a digit) it is a finite number or NaN, but for the text
    Infinity, which the numbers of this development do not hold. *)
Class Engine := {
  Number_text : string -> number
}.

(** [Number(s.squad_number)]. *)
Definition Number_squad `{Engine} (q : squad_id) : number :=
  match q with
  | SquadNum n => n
  | SquadStr s => Number_text s
  end.

(** The equality of the members of a [Set]: NaN equals NaN. *)
Definition same_value_zero (a b : number) : bool :=
  match a, b with
  | NaN, NaN => true
  | Num x, Num y0 => Qeq_bool x y0
  | _, _ => false
  end.

(** [Array.from(new Set(l))] on numbers: first occurrences, in order. *)
Fixpoint dedupe_numbers (seen l : list number) : list number :=
  match l with
  | [] => []
  | x :: l' =>
      if existsb (same_value_zero x) seen then dedupe_numbers seen l'
      else x :: dedupe_numbers (x :: seen) l'
  end.

Definition isNaN (n : number) : bool :=
  match n with
  | NaN => true
  | Num _ => false
  end.

Definition baseSquads : list number := of_Z <$> [1; 2; 3; 4; 5; 6]%Z.

Definition squads `{Engine} (st : AppState) : list number :=
  let foundSquadIDs :=
    filter (fun n => isNaN n = false)
      (dedupe_numbers [] ((fun s => Number_squad (squad_number s)) <$> sessions st)) in
  sort_with sub (dedupe_numbers [] (baseSquads ++ foundSquadIDs)).

(** [l.indexOf(x)], counting from [i]: strict equality, -1 when absent. *)
Fixpoint indexOf_from (i : Z) (l : list number) (x : number) : Z :=
  match l with
  | [] => (-1)%Z
  | y0 :: l' => if strict_eq y0 x then i else indexOf_from (i + 1) l' x
  end.

Definition indexOf (l : list number) (x : number) : Z := indexOf_from 0 l x.

(** [navigateSquad(direction)], for the integers the arrows pass (1 and -1)
    and any other; [None] stands for a selected squad that is [undefined],
    when [squads[nextIndex]] reads outside the list. *)
Definition navigateSquad `{Engine} (st : AppState) (direction : Z) : option AppState :=
  let currentIndex := indexOf (squads st) (Number_squad (selectedSquad st)) in
  let nextIndex := (currentIndex + direction)%Z in
  let nextIndex :=
    if (nextIndex <? 0)%Z then (Z.of_nat (length (squads st)) - 1)%Z else nextIndex in
  let nextIndex :=
    if (nextIndex >=? Z.of_nat (length (squads st)))%Z then 0%Z else nextIndex in
  if (nextIndex <? 0)%Z then None
  else n ← squads st !! Z.to_nat nextIndex; Some (setSelectedSquad st (SquadNum n)).

(** *** The gestures of the editor *)

(** The handlers run on drag-and-drop gestures.  [onDragStart] is attached to
    the card of a grid cell, which shows a session found in [sessions]
    (source 'timetable'), and to the cards of the staging list, which shows
    [parkingLot] (source 'parking'); it puts the session and the source in
    the drag data, and the drop handlers read them back (the session through
    JSON, which gives an equal record).  A grid cell is rendered for each
    visible date and each derived slot, and its [onDrop] calls
    [onDropToTimetable] with that date and slot; the [onDrop] of the staging
    list is [onDropToParking]; the trash button of a staged card discards it.
    [Select] stands for [setSelectedSquad]: any squad id is allowed, which
    covers the ids the squad arrows can reach. *)
Inductive gesture :=
| Place (s : Session) (src : source) (now : DateFields) (targetDate : string)
        (targetSlot : SlotDefinition)
| Stage (s : Session) (src : source)
| Discard (s : Session)
| Select (q : squad_id).

(** The card of [s] is on screen in the place [src] names. *)
Definition shown (st : AppState) (s : Session) (src : source) : Prop :=
  match src with
  | timetable => s ∈ sessions st
  | parking => s ∈ parkingLot st
  end.

(** The gestures the screen of [st] offers. *)
Definition enabled (st : AppState) (g : gesture) : Prop :=
  match g with
  | Place s src now targetDate targetSlot =>
      shown st s src /\ targetDate ∈ visibleDates now st
      /\ targetSlot ∈ dynamicTimeSlots (sessions st)
  | Stage s src => shown st s src
  | Discard s => s ∈ parkingLot st
  | Select _ => True
  end.

(** The handler a gesture runs. *)
Definition perform (st : AppState) (g : gesture) : AppState :=
  match g with
  | Place s src _ targetDate targetSlot => onDropToTimetable st s src targetDate targetSlot
  | Stage s src => onDropToParking st s src
  | Discard s => discard st s
  | Select q => setSelectedSquad st q
  end.

(** The states the editor reaches from [init] by gestures it offers. *)
Inductive reachable (init : AppState) : AppState -> Prop :=
| reach_init : reachable init init
| reach_step st g : reachable init st -> enabled st g -> reachable init (perform st g).

(** ** services/excelService.ts: exportToExcel *)

(** What [XLSX.writeFile] receives: the file name and the rows of the one
    sheet, named "Schedule". *)
Record workbook_file := {
  fileName : string;
  sheetName : string;
  aoa : list (list value)
}.

Definition value_of_squad (q : squad_id) : value :=
  match q with
  | SquadNum n => VNumber n
  | SquadStr s => VString s
  end.

Definition columnHeaders : list value :=
  VString <$> ["slot_number"; "date"; "from"; "to"; "course_id"; "lu_id"; "mentor_id"].

Definition squad_matches (squadId : squad_id) (s : Session) : Prop :=
  toLowerCase (String_squad (squad_number s)) = toLowerCase (String_squad squadId).

#[global] Instance squad_matches_dec q s : Decision (squad_matches q s).
Proof. unfold squad_matches. apply _. Defined.

Definition data_row (daySlotCounter : Z) (s : Session) : list value :=
  [ VNumber (of_Z daySlotCounter); VString (date s); VString (from s); VString (to s);
    VString (course_id s); VString (lu_id s); VString (mentor_id s) ].

(** The callback of [sortedSessions.map], with the two variables it updates. *)
Fixpoint dataRows (currentDate : string) (daySlotCounter : Z) (l : list Session)
    : list (list value) :=
  match l with
  | [] => []
  | s :: l' =>
      let '(currentDate', daySlotCounter') :=
        if decide (date s <> currentDate) then (date s, 1%Z)
        else (currentDate, (daySlotCounter + 1)%Z) in
      data_row daySlotCounter' s :: dataRows currentDate' daySlotCounter' l'
  end.

Definition export_fileName (squadId : squad_id) (now : Date) : string :=
  let dateStr :=
    number_to_string (getFullYear now) +:+ "-" +:+
    padStart0 2 (number_to_string (add (getMonth now) (of_Z 1))) +:+ "-" +:+
    padStart0 2 (number_to_string (getDate now)) in
  let timeStr :=
    padStart0 2 (number_to_string (getHours now)) +:+
    padStart0 2 (number_to_string (getMinutes now)) in
  toLowerCase (String_squad squadId +:+ "_updated_on_" +:+ dateStr +:+ "_" +:+ timeStr
               +:+ ".xlsx").

Section Exporter.
Context `{Host}.

Definition compare_sessions (a b : Session) : number :=
  if decide (date a <> date b) then localeCompare (date a) (date b)
  else sub (parseInt (from a)) (parseInt (from b)).

(** [[...filtered].sort(..)] on the values of the array. *)
Definition sortedSessions (ss : list Session) (squadId : squad_id) : list Session :=
  sort_with compare_sessions (filter (squad_matches squadId) ss).

Definition export_rows (ss : list Session) (squadId : squad_id) : list (list value) :=
  dataRows "" 0 (sortedSessions ss squadId).

(** The file written for the sessions [ss]. *)
Definition export_file (ss : list Session) (squadId : squad_id) (now : Date)
    : workbook_file :=
  {| fileName := export_fileName squadId now;
     sheetName := "Schedule";
     aoa := [value_of_squad squadId] :: columnHeaders :: export_rows ss squadId |}.

(** *** The same function on the heap *)

(** Session objects and arrays of them live in the heap; an array holds the
    addresses of its elements, so two arrays can share their sessions. *)
Record heap := {
  objects : gmap positive Session;
  arrays : gmap positive (list positive)
}.

Definition array_alloc (elems : list positive) (h : heap) : positive * heap :=
  let a := fresh (dom (arrays h)) in
  (a, {| objects := objects h; arrays := <[a := elems]> (arrays h) |}).

Definition array_store (a : positive) (elems : list positive) (h : heap) : heap :=
  {| objects := objects h; arrays := <[a := elems]> (arrays h) |}.

(** The session object at an address, with the address. *)
Definition deref (h : heap) (l : positive) : option (positive * Session) :=
  s ← objects h !! l; Some (l, s).

(** The elements of the array at [a], each with the object it points to. *)
Definition array_load (a : positive) (h : heap) : option (list (positive * Session)) :=
  elems ← arrays h !! a;
  mapM (deref h) elems.

(** [exportToExcel(sessions, squadId)]: [filter] builds a new array, the
    spread copies it, [sort] rearranges the copy in place, [map] reads it.
    The result is the file handed to [XLSX.writeFile] and the heap left. *)
Definition exportToExcel (sessions_arr : positive) (squadId : squad_id) (now : Date)
    (h : heap) : option (workbook_file * heap) :=
  elems ← array_load sessions_arr h;
  let '(filtered, h1) :=
    array_alloc (fst <$> filter (fun e => squad_matches squadId (snd e)) elems) h in
  elems_f ← array_load filtered h1;
  let '(copy, h2) := array_alloc (fst <$> elems_f) h1 in
  elems_c ← array_load copy h2;
  let sorted := sort_with (fun a b => compare_sessions (snd a) (snd b)) elems_c in
  let h3 := array_store copy (fst <$> sorted) h2 in
  elems_s ← array_load copy h3;
  Some ({| fileName := export_fileName squadId now;
           sheetName := "Schedule";
           aoa := [value_of_squad squadId] :: columnHeaders
                    :: dataRows "" 0 (snd <$> elems_s) |},
        h3).

End Exporter.

(** ** Vocabulary of the properties *)

(** The shape the documentation of normalizeTime promises: empty, or four
    digits HHmm with HH in 00..23 and mm in 00..59. *)
Definition is_railway_time (s : string) : bool :=
  match s with
  | "" => true
  | String h1 (String h2 (String m1 (String m2 ""))) =>
      is_digit h1 && is_digit h2 && is_digit m1 && is_digit m2
      && (Z.ltb (digits_value 0 (String h1 (String h2 ""))) 24)
      && (Z.ltb (digits_value 0 (String m1 (String m2 ""))) 60)
  | _ => false
  end.

(** A session as the collection may hold it: neither [from] nor [date] is
    empty. *)
Definition persisted (s : Session) : Prop := from s <> "" /\ date s <> "".

(** The date the tracker of a sheet holds after the sessions [new] were
    pushed for it: the date of the last one. *)
Definition tracked_date (new : list Session) : string :=
  default "" (date <$> last new).

(** Membership of a session id in the placed set ([sessions]) and in the
    staged set ([parkingLot]). *)
Definition placed (st : AppState) (i : string) : Prop := i ∈ id <$> sessions st.
Definition staged (st : AppState) (i : string) : Prop := i ∈ id <$> parkingLot st.

(** No id is in both sets. *)
Definition exclusive (st : AppState) : Prop := forall i, ~ (placed st i /\ staged st i).

(** The id a gesture destroys. *)
Definition destroys (g : gesture) (i : string) : Prop :=
  match g with
  | Discard s => i = id s
  | _ => False
  end.

(** The membership transition of each gesture. *)
Definition transition (st : AppState) (g : gesture) (st' : AppState) : Prop :=
  match g with
  | Place s parking _ targetDate targetSlot =>
      ~ staged st' (id s) /\ placed st' (id s)
      /\ sessions st' = sessions st ++ [updatedSession st s targetDate targetSlot]
  | Place s timetable _ targetDate targetSlot =>
      parkingLot st' = parkingLot st
      /\ id <$> sessions st' = id <$> sessions st
      /\ updatedSession st s targetDate targetSlot ∈ sessions st'
      /\ (forall x, x ∈ sessions st' -> id x = id s ->
                    x = updatedSession st s targetDate targetSlot)
  | Stage s timetable =>
      ~ placed st' (id s) /\ staged st' (id s)
      /\ parkingLot st' = parkingLot st ++ [s]
  | Stage s parking => st' = st
  | Discard s =>
      ~ staged st' (id s) /\ ~ placed st' (id s) /\ sessions st' = sessions st
  | Select q => sessions st' = sessions st /\ parkingLot st' = parkingLot st
  end.

(** The sessions that reach the slot map: both [from] and [to] are set. *)
Definition timed (s : Session) : Prop := from s <> "" /\ to s <> "".

#[global] Instance timed_dec s : Decision (timed s).
Proof. unfold timed. apply _. Defined.

(** The slot map after [set(s.from, s.to)] for each session of [l] in turn. *)
Definition slot_entries (l : list Session) : list (string * string) :=
  foldl (fun mp s => map_set (from s) (to s) mp) [] l.

(** [a] stands before [b] in ascending order of the integers they read as. *)
Definition int_le (a b : string) : Prop :=
  exists x y : Z, parseInt a = of_Z x /\ parseInt b = of_Z y /\ (x <= y)%Z.

Definition reads_int (a : string) : Prop := exists x : Z, parseInt a = of_Z x.

(** Both lists of the editor hold persisted sessions only. *)
Definition all_persisted (st : AppState) : Prop :=
  Forall persisted (sessions st) /\ Forall persisted (parkingLot st).

(** The order of the claim: the date in code-unit order, then the integer the
    from reads as. *)
Definition session_le (a b : Session) : Prop :=
  String.compare (date a) (date b) = Lt
  \/ (date a = date b /\ int_le (from a) (from b)).

(** The collation of the host orders two texts as their code units do. *)
Definition collates_as_code_units `{Host} (x y : string) : Prop :=
  (lt (localeCompare x y) (of_Z 0) = true <-> String.compare x y = Lt)
  /\ (gt (localeCompare x y) (of_Z 0) = true <-> String.compare x y = Gt).

(** The slot numbers of consecutive rows: 1 on the first row and on a change
    of date, one more than the row before otherwise. *)
Definition numbered (l : list Session) (ns : list Z) : Prop :=
  length ns = length l
  /\ (forall n, ns !! 0%nat = Some n -> n = 1%Z)
  /\ (forall j p s m n,
        l !! j = Some p -> l !! S j = Some s ->
        ns !! j = Some m -> ns !! S j = Some n ->
        n = if decide (date s = date p) then (m + 1)%Z else 1%Z).

(** Every character of a text satisfies [P]. *)
Fixpoint all_chars (P : ascii -> bool) (s : string) : bool :=
  match s with
  | "" => true
  | String c s' => P c && all_chars P s'
  end.

(** A text does not start with white space. *)
Definition head_ok (s : string) : bool :=
  match s with
  | "" => true
  | String c _ => negb (Ascii.is_space c)
  end.

(** The two-digit print of an hour or a minute, and the railway time of an
    hour and a minute. *)
Definition two_digits (n : Z) : string := pad_Z 2 n.
Definition railway (h mi : Z) : string := two_digits h +:+ two_digits mi.

(** A session in the forms an export of the editor writes: the date as
    YYYY-MM-DD, the from as a railway time, the to as a railway time or
    empty. *)
Definition exportable (s : Session) : Prop :=
  is_iso_date (date s) = true /\ from s <> "" /\ is_railway_time (from s) = true
  /\ is_railway_time (to s) = true.

(** The session read back from the exported row of [s]: the k-th identifier
    drawn, the squad of the sheet, and the place holders for an empty course
    or mentor. *)
Definition reimported `{Host} (squad : string) (k : nat) (s : Session) : Session :=
  {| id := random_id k;
     squad_number := SquadStr squad;
     date := date s;
     from := from s;
     to := to s;
     course_id := if nonempty (course_id s) then course_id s else "Untitled Course";
     lu_id := lu_id s;
     mentor_id := if nonempty (mentor_id s) then mentor_id s else "Unassigned" |}.

(** A date cell on which normalizeDate returns: not an invalid date object,
    and not a number above 30000 that the serial decoder rejects. *)
Definition safe_date_cell `{Host} (v : value) : Prop :=
  v <> VDate InvalidDate
  /\ forall n, v = VNumber n -> gt n (of_Z 30000) = true -> parse_date_code n <> None.

(** [{ ...s, id: i }], and the sessions [l] with the identifiers drawn from
    the k-th on. *)
Definition with_id (i : string) (s : Session) : Session :=
  {| id := i; squad_number := squad_number s; date := date s; from := from s;
     to := to s; course_id := course_id s; lu_id := lu_id s; mentor_id := mentor_id s |}.

Definition renumbered `{Host} (k : nat) (l : list Session) : list Session :=
  imap (fun j => with_id (random_id (k + j))) l.

(** The squad labels of the sheets of a workbook that have one. *)
Definition sheet_squads `{Host} (workbook : list (list (list value))) : list string :=
  filter (fun q => q <> "")
    ((fun rawData => match rawData with
                     | row0 :: _ => extractSquadFromA1 (cell row0 0)
                     | [] => ""
                     end) <$> workbook).

(** The rows of a sheet that the row loop reads: the rows after the first
    that it does not skip, when the sheet has a squad label. *)
Definition rows_read `{Host} (rawData : list (list value)) : list (list value) :=
  match rawData with
  | row0 :: rows =>
      if nonempty (extractSquadFromA1 (cell row0 0))
      then filter (fun row => skip_row row = false) rows
      else []
  | [] => []
  end.

(** The identifiers of the sessions the editor holds, placed then staged. *)
Definition held_ids (st : AppState) : list string :=
  id <$> (sessions st ++ parkingLot st).

(** The identifier of the session a gesture drags or discards. *)
Definition touches (g : gesture) (i : string) : Prop :=
  match g with
  | Place s _ _ _ _ | Stage s _ | Discard s => i = id s
  | Select _ => False
  end.

(** What a session teaches: the fields no handler writes. *)
Definition same_payload (x y : Session) : Prop :=
  id x = id y /\ course_id x = course_id y /\ lu_id x = lu_id y
  /\ mentor_id x = mentor_id y.

(** Two sessions have the same sort key in an export: the same date and from
    values that read as the same integer. *)
Definition same_key (a b : Session) : Prop :=
  date a = date b /\ parseInt (from a) = parseInt (from b).

(** The clock of a gesture shows a date whose UTC fields print as a
    canonical date. *)
Definition clock_in_range (g : gesture) : Prop :=
  match g with
  | Place _ _ now _ _ =>
      (0 <= utcFullYear now <= 9999)%Z /\ (1 <= utcMonth now <= 12)%Z
      /\ (1 <= utcDate now <= 31)%Z
  | _ => True
  end.

(** The value of a number, where two numbers that a [Set] or [===] equates
    have the same one. *)
Definition number_key (n : number) : option Q :=
  match n with
  | NaN => None
  | Num q => Some (Qred q)
  end.

(** Ascending order of numbers. *)
Definition number_le (a b : number) : Prop :=
  exists x y0, a = Num x /\ b = Num y0 /\ (x <= y0)%Q.

(** The day fractions on which the product [val * 1440], rounded to binary64
    as the engine computes it, gives the minute that the exact product gives:
    the fractions n / 2^k with 45 n below 2^53, whose product is a binary64
    number; and the fractions whose product stands 2^-42 or more away from
    every half minute, which is more than the rounding moves it (2^-43 at
    most, the product being below 2048). *)
Definition rounds_as_exact (q : Q) : Prop :=
  (exists (n : Z) (k : nat),
     (0 <= 45 * n < 2 ^ 53)%Z /\ (q == inject_Z n / inject_Z (2 ^ Z.of_nat k))%Q)
  \/ ((inject_Z (Qfloor (q * 1440 + (1 # 2))) - (1 # 2) + Qmake 1 (2 ^ 42) <= q * 1440)%Q
      /\ (q * 1440 <= inject_Z (Qfloor (q * 1440 + (1 # 2))) + (1 # 2) - Qmake 1 (2 ^ 42))%Q).

(** ** Sample data *)

(** Tuesday 2 January 2024, 13:30 local time, in a UTC time zone. *)
Definition tuesday_1330 : DateFields :=
  {| localFullYear := 2024; localMonth := 0; localDate := 2;
     localHours := 13; localMinutes := 30;
     utcFullYear := 2024; utcMonth := 1; utcDate := 2;
     utcHours := 13; utcMinutes := 30; utcSeconds := 0; utcMilliseconds := 0;
     dateText := "Tue Jan 02 2024 13:30:00 GMT+0000 (Coordinated Universal Time)" |}.

(** A host whose date parser accepts nothing, whose serial decoder answers
    null, whose collation is the code-unit order, and whose k-th identifier
    is "id" followed by k. *)
Definition sample_host : Host :=
  {| Date_parse := fun _ => InvalidDate;
     parse_date_code := fun _ => None;
     localeCompare := compare_strings;
     random_id := fun k => "id" +:+ string_of_Z (Z.of_nat k) |}.

(** The sheet of the specification: a header, a label row, a dated row and
    a row that continues the day. *)
Definition sheet_two_rows : list (list value) :=
  [ [VString "Squad 4"];
    [VString "slot"; VString "date"; VString "from"; VString "to"];
    [VString ""; VString "2024-01-01"; VString "0830"; VString "1030"; VString "Intro"];
    [VString ""; VString ""; VString "1030"; VString "1230"; VString "Advanced"] ].

(** A sheet with a dated row that has no time between a session and a row
    with a blank date. *)
Definition row_monday : list value :=
  [VUndefined; VString "2024-01-01"; VString "0830"; VString "1030"; VString "Intro"].
Definition row_holiday : list value :=
  [VUndefined; VString "2024-01-02"; VUndefined; VUndefined; VString "Holiday"].
Definition row_blank_date : list value :=
  [VUndefined; VUndefined; VString "1030"; VString "1230"; VString "Advanced"].
Definition sheet_holiday : list (list value) :=
  [ [VString "Squad 4"]; row_monday; row_holiday; row_blank_date ].

(** Sessions for the editor: two of squad 4 on one day, and one whose end
    time is unknown. *)
Definition session_at (i sq dt f t course : string) : Session :=
  {| id := i; squad_number := SquadStr sq; date := dt; from := f; to := t;
     course_id := course; lu_id := ""; mentor_id := "Unassigned" |}.

Definition intro_0830 : Session := session_at "id0" "4" "2024-01-01" "0830" "1030" "Intro".
Definition advanced_1030 : Session :=
  session_at "id1" "4" "2024-01-01" "1030" "1230" "Advanced".

(** The export of the specification: three sessions of squad 4 on 2 January
    and one on 1 January, and a session of another squad. *)
Definition export_sample : list Session :=
  [ session_at "a" "4" "2024-01-02" "1330" "1530" "Lab";
    session_at "b" "4" "2024-01-02" "0830" "1030" "Intro";
    session_at "c" "4" "2024-01-01" "1330" "1530" "Kickoff";
    session_at "d" "5" "2024-01-02" "0900" "1030" "Other";
    session_at "e" "4" "2024-01-02" "1030" "1230" "Advanced" ].

(** A heap with the sessions of [export_sample] at addresses 1 to 5 and the
    array of them at address 10. *)
Definition export_heap : heap :=
  {| objects := list_to_map (zip [1; 2; 3; 4; 5]%positive export_sample);
     arrays := {[ 10%positive := [1; 2; 3; 4; 5]%positive ]} |}.

(** The sample host with a serial decoder that answers 2 January 2024. *)
Definition decoding_host : Host :=
  {| Date_parse := fun _ => InvalidDate;
     parse_date_code := fun _ => Some {| SSF.y := 2024; SSF.m := 1; SSF.d := 2 |};
     localeCompare := compare_strings;
     random_id := fun k => "id" +:+ string_of_Z (Z.of_nat k) |}.

(** A sample engine: a run of digits reads as its value, the empty text as
    0 and any other text as NaN. *)
Definition sample_engine : Engine :=
  {| Number_text := fun s =>
       if all_chars is_digit s then of_Z (digits_value 0 s) else NaN |}.

(** The editor after the import of the two sample sessions, and after the
    second was moved to the staging list. *)
Definition two_placed : AppState := loaded [intro_0830; advanced_1030].
Definition one_staged : AppState := onDropToParking two_placed advanced_1030 timetable.

Definition slot_0830 : SlotDefinition := {| Slot.from := "0830"; Slot.to := "1030" |}.
Definition slot_1030 : SlotDefinition := {| Slot.from := "1030"; Slot.to := "1230" |}.

(** A host with the default collation of the engines on letters: two texts
    are compared without regard to case first, so that "tbc" stands before
    "TBD", and a small letter stands before its capital.  Its date parser
    accepts nothing. *)
Definition collating_host : Host :=
  {| Date_parse := fun _ => InvalidDate;
     parse_date_code := fun _ => None;
     localeCompare := fun a b =>
       match String.compare (toLowerCase a) (toLowerCase b) with
       | Lt => of_Z (-1)
       | Gt => of_Z 1
       | Eq => compare_strings b a
       end;
     random_id := fun k => "id" +:+ string_of_Z (Z.of_nat k) |}.

(** A sheet whose date cells hold texts that are not dates. *)
Definition sheet_undated : list (list value) :=
  [ [VString "Squad 4"];
    [VUndefined; VString "TBD"; VString "0830"; VString "1030"; VString "Intro"];
    [VUndefined; VString "tbc"; VString "1030"; VString "1230"; VString "Advanced"] ].

(** * Properties *)

Lemma nonempty_true (s : string) : nonempty s = true <-> s <> "".
Proof.
  unfold nonempty. rewrite negb_true_iff.
  destruct (String.eqb_spec s ""); split; congruence.
Qed.

Lemma nonempty_false (s : string) : nonempty s = false <-> s = "".
Proof.
  unfold nonempty. rewrite negb_false_iff.
  destruct (String.eqb_spec s ""); split; congruence.
Qed.

(** ** normalizeTime *)

(** C1: every input that denotes the wall-clock time 13:30 (a date-time whose
    local hour is 13 and local minute is 30, the strings "1:30 PM" and "13:30",
    the number 1330 and the day fraction 0.5625) is normalized to "1330". *)
Theorem normalizeTime_1330 :
  (forall f : DateFields,
      localHours f = 13%Z -> localMinutes f = 30%Z ->
      normalizeTime (VDate (ValidDate f)) = "1330")
  /\ normalizeTime (VString "1:30 PM") = "1330"
  /\ normalizeTime (VString "13:30") = "1330"
  /\ normalizeTime (VNumber (of_Z 1330)) = "1330"
  /\ normalizeTime (VNumber (Num (5625 # 10000))) = "1330".
Proof.
  split.
  - intros f Hh Hm. unfold normalizeTime, getHours, getMinutes.
    rewrite Hh, Hm. vm_compute. reflexivity.
  - split; [|split; [|split]]; vm_compute; reflexivity.
Qed.

Lemma normalizeTime_1330_witness :
  normalizeTime (VDate (ValidDate tuesday_1330)) = "1330".
Proof. exact (proj1 normalizeTime_1330 tuesday_1330 eq_refl eq_refl). Defined.

(** normalizeTime gives the empty string for undefined, null and the
    empty string. *)
Lemma normalizeTime_empty :
  normalizeTime VUndefined = "" /\ normalizeTime VNull = ""
  /\ normalizeTime (VString "") = "".
Proof. split; [|split]; reflexivity. Qed.

(** Hours below 24 and minutes below 60 are printed as a railway time. *)
Lemma format_time_in_range (h mi : nat) :
  (h < 24)%nat -> (mi < 60)%nat ->
  is_railway_time (format_time (of_Z (Z.of_nat h), of_Z (Z.of_nat mi))) = true
  /\ format_time (of_Z (Z.of_nat h), of_Z (Z.of_nat mi)) <> "".
Proof.
  intros Hh Hm.
  assert (forallb (fun i => forallb (fun j =>
            is_railway_time (format_time (of_Z (Z.of_nat i), of_Z (Z.of_nat j)))
            && nonempty (format_time (of_Z (Z.of_nat i), of_Z (Z.of_nat j))))
            (seq 0 60)) (seq 0 24) = true) as Hall by (vm_compute; reflexivity).
  assert (In h (seq 0 24)) as Hin_h by (apply in_seq; lia).
  assert (In mi (seq 0 60)) as Hin_m by (apply in_seq; lia).
  pose proof (proj1 (forallb_forall _ _) Hall h Hin_h) as Hrow.
  pose proof (proj1 (forallb_forall _ _) Hrow mi Hin_m) as Hcell.
  apply andb_true_iff in Hcell as [Hr Hne].
  split; [done|]. by apply nonempty_true.
Qed.

(** X1: a valid date whose local hour is in 0..23 and local minute in 0..59
    is normalized to a railway time, which is not empty. *)
Theorem normalizeTime_valid_Date (f : DateFields) :
  (0 <= localHours f < 24)%Z -> (0 <= localMinutes f < 60)%Z ->
  is_railway_time (normalizeTime (VDate (ValidDate f))) = true
  /\ normalizeTime (VDate (ValidDate f)) <> "".
Proof.
  intros Hh Hm. unfold normalizeTime, getHours, getMinutes.
  rewrite <- (Z2Nat.id (localHours f)), <- (Z2Nat.id (localMinutes f)) by lia.
  apply format_time_in_range; lia.
Qed.

Lemma normalizeTime_valid_Date_witness :
  is_railway_time (normalizeTime (VDate (ValidDate tuesday_1330))) = true.
Proof.
  refine (proj1 (normalizeTime_valid_Date tuesday_1330 _ _)); cbn; lia.
Defined.

(** C5, at inputs where it fails: a dotted time text, a negative text, a
    number with a fraction and an invalid date give results that are not
    railway times.  The minutes of "08.30" are read from ".3", which parseInt
    turns into NaN, and [NaN % 60] is NaN; [-5 % 60] is -5. *)
Theorem normalizeTime_not_railway :
  normalizeTime (VString "08.30") = "08NaN"
  /\ normalizeTime (VString "-5") = "00-5"
  /\ normalizeTime (VNumber (Num (3 # 2))) = "01NaN"
  /\ normalizeTime (VDate InvalidDate) = "NaNNaN"
  /\ is_railway_time (normalizeTime (VString "08.30")) = false
  /\ is_railway_time (normalizeTime (VString "-5")) = false.
Proof. do 5 (split; [vm_compute; reflexivity|]). vm_compute; reflexivity. Qed.

(** ** normalizeDate *)

(** C9, at the input where it fails: a Date object holding an invalid date
    makes [toISOString] throw, and normalizeDate calls it unguarded on a Date
    (the same call on a parsed string is guarded by [isNaN(d.getTime())]). *)
Theorem normalizeDate_invalid_Date_throws `{Host} :
  normalizeDate (VDate InvalidDate) = Throw RangeError.
Proof. reflexivity. Qed.

Lemma number_gt_truthy (n : number) (k : Z) :
  (0 <= k)%Z -> gt n (of_Z k) = true -> truthy (VNumber n) = true.
Proof.
  intros Hk Hgt. destruct n as [|q]; [discriminate Hgt|].
  unfold gt, lt, of_Z in Hgt. apply negb_true_iff in Hgt.
  unfold truthy. destruct (Qeq_bool q 0) eqn:E; [|reflexivity].
  apply Qeq_bool_eq in E.
  assert (Qle_bool q (inject_Z k) = true) as Hle; [|congruence].
  apply Qle_bool_iff. rewrite E. unfold Qle. simpl. lia.
Qed.

(** A serial number that the decoder rejects makes the property read
    throw. *)
Lemma normalizeDate_serial_null `{Host} (n : number) :
  gt n (of_Z 30000) = true -> parse_date_code n = None ->
  normalizeDate (VNumber n) = Throw TypeError.
Proof.
  intros Hgt Hnull. unfold normalizeDate.
  rewrite (number_gt_truthy n 30000) by (done || lia).
  cbv beta iota zeta delta [negb]. rewrite Hgt, Hnull. reflexivity.
Qed.

(** Empty input gives the empty string. *)
Lemma normalizeDate_empty `{Host} :
  normalizeDate VUndefined = Ok "" /\ normalizeDate VNull = Ok ""
  /\ normalizeDate (VString "") = Ok "".
Proof. split; [|split]; reflexivity. Qed.

(** A text never makes normalizeDate throw: a canonical date is returned as
    it is, a text the engine parses gives the UTC day of the parsed date, and
    any other text is returned trimmed. *)
Lemma normalizeDate_of_text `{Host} (s : string) :
  normalizeDate (VString s) =
    Ok (if String.eqb s "" then ""
        else if is_iso_date (trim s) then trim s
        else match Date_parse (trim s) with
             | InvalidDate => trim s
             | ValidDate f =>
                 first (split "T"
                   (iso_year (utcFullYear f) +:+ "-" +:+ pad_Z 2 (utcMonth f) +:+ "-" +:+
                    pad_Z 2 (utcDate f) +:+ "T" +:+ pad_Z 2 (utcHours f) +:+ ":" +:+
                    pad_Z 2 (utcMinutes f) +:+ ":" +:+ pad_Z 2 (utcSeconds f) +:+ "." +:+
                    pad_Z 3 (utcMilliseconds f) +:+ "Z"))
             end).
Proof.
  unfold normalizeDate, truthy, String_.
  destruct (String.eqb s "") eqn:E; cbv beta iota zeta delta [negb]; [reflexivity|].
  destruct (is_iso_date (trim s)); [reflexivity|].
  destruct (Date_parse (trim s)); reflexivity.
Qed.

(** On a text normalizeDate returns, whatever the text and the host. *)
Lemma normalizeDate_text_returns `{Host} (s : string) :
  exists r, normalizeDate (VString s) = Ok r.
Proof. rewrite normalizeDate_of_text. by eexists. Qed.

(** A canonical date is returned as it is. *)
Lemma normalizeDate_canonical `{Host} :
  normalizeDate (VString "2024-03-05") = Ok "2024-03-05".
Proof. rewrite normalizeDate_of_text. vm_compute. reflexivity. Qed.

(** The fallback: a text that is not canonical and that the engine does
    not parse comes back trimmed, verbatim. *)
Lemma normalizeDate_fallback `{Host} (s : string) :
  s <> "" -> is_iso_date (trim s) = false -> Date_parse (trim s) = InvalidDate ->
  normalizeDate (VString s) = Ok (trim s).
Proof.
  intros Hs Hiso Hparse. rewrite normalizeDate_of_text, Hiso, Hparse.
  destruct (String.eqb_spec s ""); [contradiction|reflexivity].
Qed.

Lemma normalizeDate_fallback_witness :
  normalizeDate (H := sample_host) (VString " to be announced ") = Ok "to be announced".
Proof.
  refine (normalizeDate_fallback (H := sample_host) " to be announced " _ _ _);
    [discriminate|vm_compute; reflexivity|reflexivity].
Defined.

Lemma normalizeDate_serial_null_witness :
  normalizeDate (H := sample_host) (VNumber (of_Z 3000000)) = Throw TypeError.
Proof.
  refine (normalizeDate_serial_null (H := sample_host) (of_Z 3000000) _ _);
    [vm_compute; reflexivity|reflexivity].
Defined.

(** ** parseExcelFile *)

(** The tracked date after a session was pushed does not depend on what was
    tracked before. *)
Lemma tracked_after_push (s : Session) (new : list Session) (t t' : string) :
  default t (date <$> last (s :: new)) = default t' (date <$> last (s :: new)).
Proof.
  revert s. induction new as [|s' new IH]; intros s; [reflexivity|].
  cbn [last]. apply IH.
Qed.

Section ImportProps.
Context `{Host}.

(** What one iteration does, when normalizeDate returns. *)
Lemma import_row_eq squad all tracker row normalized :
  normalizeDate (cell row 1) = Ok normalized ->
  import_row squad (all, tracker) row =
    let sessionDate := if nonempty normalized then normalized else tracker in
    if negb (skip_row row) && nonempty (normalizeTime (cell row 2)) && nonempty sessionDate
    then Ok (all ++ [new_session squad (length all) sessionDate row], sessionDate)
    else Ok (all, tracker).
Proof.
  intros Hd. unfold import_row. destruct (skip_row row); [reflexivity|].
  rewrite Hd. reflexivity.
Qed.

(** An iteration keeps the sessions pushed so far; it pushes at most one
    session, which is persisted, and then tracks its date. *)
Lemma import_row_inv squad all tracker row all' tracker' :
  import_row squad (all, tracker) row = Ok (all', tracker') ->
  (all' = all /\ tracker' = tracker)
  \/ (exists s, all' = all ++ [s] /\ tracker' = date s /\ persisted s).
Proof.
  unfold import_row. destruct (skip_row row); [intros [= <- <-]; by left|].
  destruct (normalizeDate (cell row 1)) as [normalized|e]; [|discriminate].
  cbn [mbind result_bind].
  destruct (nonempty (normalizeTime (cell row 2))) eqn:Hfrom; cbn [andb];
    [|intros [= <- <-]; by left].
  destruct (nonempty (if nonempty normalized then normalized else tracker)) eqn:Hdate;
    intros [= <- <-]; [right|by left].
  eexists; split; [reflexivity|]. split; [reflexivity|].
  split; cbn [from date new_session]; by apply nonempty_true.
Qed.

Lemma import_rows_inv squad rows : forall all tracker all' tracker',
  import_rows squad (all, tracker) rows = Ok (all', tracker') ->
  exists new, all' = all ++ new /\ Forall persisted new
              /\ tracker' = default tracker (date <$> last new).
Proof.
  induction rows as [|row rows IH]; intros all tracker all' tracker'.
  - intros [= <- <-]. exists []. by rewrite app_nil_r.
  - cbn [import_rows]. destruct (import_row squad (all, tracker) row) as [[all1 t1]|e] eqn:Hrow;
      [|discriminate].
    cbn [mbind result_bind]. intros Hrest.
    apply IH in Hrest as (new & -> & Hnew & ->).
    apply import_row_inv in Hrow as [[-> ->]|(s & -> & -> & Hs)].
    + by exists new.
    + exists (s :: new). rewrite <- app_assoc. split; [done|]. split; [by constructor|].
      destruct new as [|s' new']; [reflexivity|].
      change (last (s :: s' :: new')) with (last (s' :: new')).
      apply tracked_after_push.
Qed.

Lemma import_sheet_persisted all rawData all' :
  import_sheet all rawData = Ok all' -> Forall persisted all -> Forall persisted all'.
Proof.
  unfold import_sheet. destruct rawData as [|row0 rows]; [by intros [= <-]|].
  destruct (nonempty (extractSquadFromA1 (cell row0 0))); [|by intros [= <-]].
  destruct (import_rows _ (all, "") rows) as [[all1 t1]|e] eqn:Hrows; [|discriminate].
  cbn [mbind result_bind fst]. intros [= <-] Hall.
  apply import_rows_inv in Hrows as (new & -> & Hnew & _). by apply Forall_app.
Qed.

Lemma import_sheets_persisted sheets : forall all all',
  import_sheets all sheets = Ok all' -> Forall persisted all -> Forall persisted all'.
Proof.
  induction sheets as [|rawData sheets IH]; intros all all'; [by intros [= <-]|].
  cbn [import_sheets]. destruct (import_sheet all rawData) as [all1|e] eqn:Hsheet;
    [|discriminate].
  cbn [mbind result_bind]. eauto using import_sheet_persisted.
Qed.

Lemma parseExcelFile_persisted workbook data :
  parseExcelFile workbook = Ok data -> Forall persisted data.
Proof. intros Himp. by apply (import_sheets_persisted _ _ _ Himp). Qed.

(** A sheet with no row, or whose first cell is missing or empty, adds
    nothing to the sessions. *)
Lemma import_sheet_without_squad (all : list Session) (rest : list value)
    (rows : list (list value)) :
  import_sheet all [] = Ok all
  /\ import_sheet all ([] :: rows) = Ok all
  /\ import_sheet all ((VUndefined :: rest) :: rows) = Ok all
  /\ import_sheet all ((VNull :: rest) :: rows) = Ok all
  /\ import_sheet all ((VString "" :: rest) :: rows) = Ok all.
Proof. repeat split. Qed.

(** The sheet of the specification gives two sessions of squad "4",
    both dated 2024-01-01: the second row takes the date of the first. *)
Lemma parseExcelFile_continuation_row :
  parseExcelFile [sheet_two_rows]
  = Ok [ {| id := random_id 0; squad_number := SquadStr "4"; date := "2024-01-01";
            from := "0830"; to := "1030"; course_id := "Intro"; lu_id := "";
            mentor_id := "Unassigned" |};
         {| id := random_id 1; squad_number := SquadStr "4"; date := "2024-01-01";
            from := "1030"; to := "1230"; course_id := "Advanced"; lu_id := "";
            mentor_id := "Unassigned" |} ].
Proof. vm_compute. reflexivity. Qed.

(** C2, as the code has it: within a sheet the tracker holds the date of the
    last row that produced a session (it starts empty, and a row that is
    dropped leaves it alone); a data row whose date cell normalizes to the
    empty string resolves to the tracked date, and the session pushed for
    it, if any, carries that date. *)
Theorem blank_date_takes_tracked_date squad all pre row all1 tracker :
  import_rows squad (all, "") pre = Ok (all1, tracker) ->
  normalizeDate (cell row 1) = Ok "" ->
  (exists new, all1 = all ++ new /\ tracker = tracked_date new)
  /\ import_row squad (all1, tracker) row =
       (if negb (skip_row row) && nonempty (normalizeTime (cell row 2)) && nonempty tracker
        then Ok (all1 ++ [new_session squad (length all1) tracker row], tracker)
        else Ok (all1, tracker))
  /\ date (new_session squad (length all1) tracker row) = tracker.
Proof.
  intros Hpre Hblank. split; [|split; [|reflexivity]].
  - apply import_rows_inv in Hpre as (new & -> & _ & ->). by exists new.
  - by rewrite (import_row_eq _ _ _ _ _ Hblank).
Qed.

End ImportProps.

Lemma blank_date_takes_tracked_date_witness :
  import_row (H := sample_host) "4"
    ([new_session (H := sample_host) "4" 0 "2024-01-01" row_monday], "2024-01-01")
    row_blank_date
  = Ok ([new_session (H := sample_host) "4" 0 "2024-01-01" row_monday;
         new_session (H := sample_host) "4" 1 "2024-01-01" row_blank_date],
        "2024-01-01").
Proof.
  exact (proj1 (proj2 (blank_date_takes_tracked_date (H := sample_host) "4" []
    [row_monday; row_holiday] row_blank_date
    [new_session (H := sample_host) "4" 0 "2024-01-01" row_monday] "2024-01-01"
    eq_refl eq_refl))).
Defined.

(** C2 as stated fails: the holiday row resolves the date 2024-01-02 but has
    no time, so it is dropped and the tracker keeps 2024-01-01; the row with
    the blank date after it gets 2024-01-01, not the most recently resolved
    date. *)
Lemma blank_date_skips_dropped_row :
  normalizeDate (H := sample_host) (cell row_holiday 1) = Ok "2024-01-02"
  /\ normalizeDate (H := sample_host) (cell row_blank_date 1) = Ok ""
  /\ import_rows (H := sample_host) "4" ([], "") [row_monday; row_holiday]
      = Ok ([new_session (H := sample_host) "4" 0 "2024-01-01" row_monday], "2024-01-01")
  /\ parseExcelFile (H := sample_host) [sheet_holiday]
      = Ok [new_session (H := sample_host) "4" 0 "2024-01-01" row_monday;
            new_session (H := sample_host) "4" 1 "2024-01-01" row_blank_date]
  /\ date (new_session (H := sample_host) "4" 1 "2024-01-01" row_blank_date)
     <> "2024-01-02".
Proof.
  split; [|split; [|split; [|split]]]; try (vm_compute; reflexivity).
  cbn [date new_session]. discriminate.
Qed.

(** ** The sort *)

Section SortProps.
Context {A : Type} (cmp : A -> A -> number).

Lemma insert_sorted_perm (x : A) (l : list A) : insert_sorted cmp x l ≡ₚ x :: l.
Proof.
  induction l as [|y0 l IH]; [reflexivity|]. cbn [insert_sorted].
  destruct (gt (cmp x y0) (of_Z 0)); [|reflexivity].
  rewrite IH. apply Permutation_swap.
Qed.

(** The sort rearranges: nothing is added, dropped or repeated. *)
Lemma sort_with_perm (l : list A) : sort_with cmp l ≡ₚ l.
Proof.
  induction l as [|x l IH]; [reflexivity|].
  unfold sort_with in *. cbn [foldr]. rewrite insert_sorted_perm. by f_equiv.
Qed.

Lemma sort_with_elem (x : A) (l : list A) : x ∈ sort_with cmp l <-> x ∈ l.
Proof. by rewrite sort_with_perm. Qed.

Lemma sort_with_length (l : list A) : length (sort_with cmp l) = length l.
Proof. by rewrite sort_with_perm. Qed.

(** When, on the elements sorted (those satisfying [dom]), the comparator
    decides a transitive order [le], the result is ordered by [le]. *)
Context (le : A -> A -> Prop) (dom : A -> Prop).
Hypothesis le_trans : forall x y z, dom x -> dom y -> dom z -> le x y -> le y z -> le x z.
Hypothesis cmp_le : forall x y, dom x -> dom y ->
  if gt (cmp x y) (of_Z 0) then le y x else le x y.

Lemma insert_sorted_sorted (x : A) (l : list A) :
  dom x -> Forall dom l -> StronglySorted le l -> StronglySorted le (insert_sorted cmp x l).
Proof.
  intros Hx Hl Hs. induction Hs as [|y0 l Hs IH Hy]; cbn [insert_sorted].
  - repeat constructor.
  - apply Forall_cons in Hl as [Hy0 Hl].
    pose proof (cmp_le x y0 Hx Hy0) as Hc.
    destruct (gt (cmp x y0) (of_Z 0)).
    + constructor; [by apply IH|].
      rewrite insert_sorted_perm. by constructor.
    + constructor; [by constructor|]. constructor; [done|].
      rewrite Forall_forall in Hy, Hl |- *. intros z Hz.
      apply (le_trans x y0 z); auto.
Qed.

Lemma sort_with_sorted (l : list A) : Forall dom l -> StronglySorted le (sort_with cmp l).
Proof.
  induction 1 as [|x l Hx Hl IH]; [constructor|].
  unfold sort_with in *. cbn [foldr]. apply insert_sorted_sorted; [done| |done].
  by rewrite (sort_with_perm l).
Qed.

End SortProps.

(** Sorting pairs by their second component sorts the second components. *)
Lemma sort_with_snd {A B : Type} (cmp : B -> B -> number) (l : list (A * B)) :
  snd <$> sort_with (fun a b => cmp (snd a) (snd b)) l = sort_with cmp (snd <$> l).
Proof.
  induction l as [|x l IH]; [reflexivity|].
  unfold sort_with in *. cbn [foldr fmap list_fmap]. rewrite <- IH.
  generalize (foldr (insert_sorted (fun a b => cmp (snd a) (snd b))) [] l).
  intros sorted. induction sorted as [|y0 sorted IHs]; [reflexivity|].
  cbn [insert_sorted fmap list_fmap].
  destruct (gt (cmp (snd x) (snd y0)) (of_Z 0)); cbn [fmap list_fmap]; [|reflexivity].
  f_equal. apply IHs.
Qed.

(** ** The placement handlers *)

Lemma ids_filter_out (j : string) (l : list Session) (i : string) :
  i ∈ id <$> filter (fun s => id s <> j) l <-> i ∈ id <$> l /\ i <> j.
Proof.
  rewrite !list_elem_of_fmap. split.
  - intros (s & -> & [Hne Hin]%list_elem_of_filter). eauto.
  - intros [(s & -> & Hin) Hne]. exists s. split; [done|].
    by apply list_elem_of_filter.
Qed.

Lemma ids_replace (u : Session) (l : list Session) :
  id <$> ((fun s => if decide (id s = id u) then u else s) <$> l) = id <$> l.
Proof.
  rewrite <- list_fmap_compose. apply list_fmap_ext. intros _ s _.
  unfold compose. by destruct (decide (id s = id u)) as [->|].
Qed.

Lemma replace_elem (u s : Session) (l : list Session) :
  s ∈ l -> id u = id s ->
  u ∈ (fun x => if decide (id x = id s) then u else x) <$> l.
Proof.
  intros Hin Hid. apply list_elem_of_fmap. exists s. split; [|done].
  by rewrite decide_True.
Qed.

Lemma replace_unique (u s x : Session) (l : list Session) :
  x ∈ (fun x => if decide (id x = id s) then u else x) <$> l ->
  id u = id s -> id x = id s -> x = u.
Proof.
  intros (x0 & -> & _)%list_elem_of_fmap Hu Hx.
  destruct (decide (id x0 = id s)); [done|contradiction].
Qed.

Lemma shown_id (st : AppState) (s : Session) (src : source) :
  shown st s src ->
  match src with
  | timetable => placed st (id s)
  | parking => staged st (id s)
  end.
Proof. destruct src; cbn; intros Hin; by apply list_elem_of_fmap_2. Qed.

(** What each gesture does to the two sets. *)
Lemma perform_ids (st : AppState) (g : gesture) (i : string) :
  exclusive st -> enabled st g ->
  (placed (perform st g) i \/ staged (perform st g) i
   <-> (placed st i \/ staged st i) /\ ~ destroys g i)
  /\ ~ (placed (perform st g) i /\ staged (perform st g) i).
Proof.
  intros Hex Hen. pose proof (Hex i) as Hi.
  destruct g as [s [] now targetDate targetSlot|s []|s|q];
    unfold placed, staged in *; cbn [perform enabled destroys] in *.
  - (* place, from the grid *)
    destruct Hen as (Hs & _ & _). unfold onDropToTimetable. cbn [sessions parkingLot].
    change (id s) with (id (updatedSession st s targetDate targetSlot)).
    rewrite ids_replace. tauto.
  - (* place, from staging *)
    destruct Hen as (Hs%(shown_id st s parking) & _ & _).
    unfold onDropToTimetable. cbn [sessions parkingLot] in *.
    rewrite fmap_app, elem_of_app, ids_filter_out. cbn [fmap list_fmap updatedSession id].
    rewrite list_elem_of_singleton. unfold staged in Hs.
    destruct (decide (i = id s)) as [->|Hne]; [|tauto].
    pose proof (Hex (id s)). tauto.
  - (* stage, from the grid *)
    apply (shown_id st s timetable) in Hen. unfold placed in Hen.
    unfold onDropToParking. cbn [sessions parkingLot].
    rewrite fmap_app, elem_of_app, ids_filter_out. cbn [fmap list_fmap].
    rewrite list_elem_of_singleton.
    destruct (decide (i = id s)) as [->|Hne]; tauto.
  - (* a staged card dropped on staging *)
    unfold onDropToParking. tauto.
  - (* discard *)
    unfold discard. cbn [sessions parkingLot]. rewrite ids_filter_out.
    apply (list_elem_of_fmap_2 id) in Hen.
    destruct (decide (i = id s)) as [->|Hne]; [|tauto].
    pose proof (Hex (id s)). tauto.
  - (* another squad is shown *)
    unfold setSelectedSquad. cbn [sessions parkingLot]. tauto.
Qed.

Lemma perform_exclusive (st : AppState) (g : gesture) :
  exclusive st -> enabled st g -> exclusive (perform st g).
Proof. intros Hex Hen i. by apply perform_ids. Qed.

Lemma loaded_exclusive (data : list Session) : exclusive (loaded data).
Proof. intros i [_ Hst]. unfold staged, loaded in Hst. cbn in Hst. by apply elem_of_nil in Hst. Qed.

Lemma reachable_exclusive (init st : AppState) :
  exclusive init -> reachable init st -> exclusive st.
Proof. intros Hinit. induction 1; auto using perform_exclusive. Qed.

Lemma perform_transition (st : AppState) (g : gesture) :
  exclusive st -> enabled st g -> transition st g (perform st g).
Proof.
  intros Hex Hen.
  destruct g as [s [] now targetDate targetSlot|s []|s|q];
    unfold transition, placed, staged; cbn [perform enabled] in *.
  - destruct Hen as (Hs & _ & _). unfold onDropToTimetable. cbn [sessions parkingLot].
    split; [done|]. split.
    { change (id s) with (id (updatedSession st s targetDate targetSlot)).
      apply ids_replace. }
    split; [by apply replace_elem|]. intros x Hx Hid.
    by apply (replace_unique _ s x (sessions st)).
  - unfold onDropToTimetable. cbn [sessions parkingLot].
    rewrite ids_filter_out, fmap_app, elem_of_app. cbn [fmap list_fmap updatedSession id].
    rewrite list_elem_of_singleton. tauto.
  - unfold onDropToParking. cbn [sessions parkingLot].
    rewrite ids_filter_out, fmap_app, elem_of_app. cbn [fmap list_fmap].
    rewrite list_elem_of_singleton. tauto.
  - reflexivity.
  - unfold discard. cbn [sessions parkingLot]. rewrite ids_filter_out.
    apply (list_elem_of_fmap_2 id) in Hen. pose proof (Hex (id s)).
    unfold placed, staged in *. tauto.
  - done.
Qed.

(** C7: in every state reached from an import by the gestures of the editor,
    no session id is in both the placed and the staged set, and a gesture
    keeps it so; the ids present after a gesture are those present before it,
    minus the one a discard destroys (none appears in neither set); and each
    gesture moves its session as said: placing from staging takes the id out
    of the staged set and appends the updated record to the placed set,
    placing a placed session replaces its record in the placed set, staging
    takes the id out of the placed set and appends the record to the staged
    set, and discarding removes it from the staged set. *)
Theorem placement_sets_exclusive (data : list Session) (st : AppState) (g : gesture) :
  reachable (loaded data) st -> enabled st g ->
  exclusive st
  /\ exclusive (perform st g)
  /\ (forall i, placed (perform st g) i \/ staged (perform st g) i
                <-> (placed st i \/ staged st i) /\ ~ destroys g i)
  /\ transition st g (perform st g).
Proof.
  intros Hreach Hen.
  pose proof (reachable_exclusive _ _ (loaded_exclusive data) Hreach) as Hex.
  split; [done|]. split; [by apply perform_exclusive|].
  split; [|by apply perform_transition].
  intros i. by apply perform_ids.
Qed.

Lemma placement_sets_exclusive_witness :
  exclusive (perform (loaded [intro_0830; advanced_1030]) (Stage intro_0830 timetable)).
Proof.
  refine (proj1 (proj2 (placement_sets_exclusive [intro_0830; advanced_1030]
    (loaded [intro_0830; advanced_1030]) (Stage intro_0830 timetable)
    (reach_init _) _))).
  cbn. constructor.
Defined.

(** C8: from a state the editor reaches, placing a session whose card is on
    screen on any date and slot, and then staging the record that results,
    leaves that record in the staged set and its id out of the placed set;
    the staged record has the id of the session placed and the date, from
    and to of the placement, and it is the only staged record with that id
    (the values the session had before the placement are not restored). *)
Theorem place_then_stage (data : list Session) (st : AppState) (s : Session)
    (src : source) (targetDate : string) (targetSlot : SlotDefinition) :
  reachable (loaded data) st ->
  shown st s src ->
  let st1 := onDropToTimetable st s src targetDate targetSlot in
  let u := updatedSession st s targetDate targetSlot in
  let st2 := onDropToParking st1 u timetable in
  shown st1 u timetable
  /\ u ∈ parkingLot st2
  /\ ~ placed st2 (id s)
  /\ (forall x, x ∈ parkingLot st2 -> id x = id s -> x = u)
  /\ id u = id s /\ date u = targetDate
  /\ from u = Slot.from targetSlot /\ to u = Slot.to targetSlot.
Proof.
  intros Hreach Hs st1 u st2.
  pose proof (reachable_exclusive _ _ (loaded_exclusive data) Hreach) as Hex.
  assert (parkingLot st2 = parkingLot st1 ++ [u]) as Hlot by reflexivity.
  split.
  { subst st1. destruct src; cbn [shown onDropToTimetable sessions] in *.
    - by apply replace_elem.
    - apply elem_of_app. right. by apply list_elem_of_singleton. }
  split.
  { rewrite Hlot. apply elem_of_app. right. by apply list_elem_of_singleton. }
  split.
  { unfold placed. subst st2. cbn [onDropToParking sessions].
    rewrite ids_filter_out. by intros [_ Hne]. }
  split; [|done].
  intros x Hx Hid. rewrite Hlot in Hx. apply elem_of_app in Hx as [Hx|Hx];
    [|by apply list_elem_of_singleton in Hx].
  exfalso. apply (list_elem_of_fmap_2 id) in Hx. rewrite Hid in Hx.
  subst st1. destruct src; cbn [shown onDropToTimetable parkingLot] in *.
  - apply (Hex (id s)). split; [|done]. by apply list_elem_of_fmap_2.
  - apply ids_filter_out in Hx as [_ Hne]. done.
Qed.

Lemma place_then_stage_witness :
  updatedSession (loaded [intro_0830; advanced_1030]) intro_0830 "2024-01-03"
    {| Slot.from := "1030"; Slot.to := "1230" |}
  ∈ parkingLot
      (onDropToParking
         (onDropToTimetable (loaded [intro_0830; advanced_1030]) intro_0830 timetable
            "2024-01-03" {| Slot.from := "1030"; Slot.to := "1230" |})
         (updatedSession (loaded [intro_0830; advanced_1030]) intro_0830 "2024-01-03"
            {| Slot.from := "1030"; Slot.to := "1230" |})
         timetable).
Proof.
  refine (proj1 (proj2 (place_then_stage [intro_0830; advanced_1030]
    (loaded [intro_0830; advanced_1030]) intro_0830 timetable "2024-01-03"
    {| Slot.from := "1030"; Slot.to := "1230" |} (reach_init _) _))).
  cbn. constructor.
Defined.

(** ** dynamicTimeSlots *)

Lemma map_get_set (k v k' : string) (mp : list (string * string)) :
  map_get k' (map_set k v mp) = if String.eqb k k' then Some v else map_get k' mp.
Proof.
  induction mp as [|[k0 v0] mp IH]; cbn [map_set map_get]; [reflexivity|].
  destruct (String.eqb_spec k0 k) as [->|Hne]; cbn [map_get].
  - by destruct (String.eqb k k').
  - rewrite IH. destruct (String.eqb_spec k0 k') as [->|]; [|reflexivity].
    by destruct (String.eqb_spec k k') as [->|].
Qed.

Lemma map_keys_set (k v : string) (mp : list (string * string)) :
  map_keys (map_set k v mp) =
    if decide (k ∈ map_keys mp) then map_keys mp else map_keys mp ++ [k].
Proof.
  unfold map_keys. induction mp as [|[k0 v0] mp IH]; cbn [map_set fmap list_fmap fst].
  - rewrite decide_False; [reflexivity|]. by intros ?%elem_of_nil.
  - destruct (String.eqb_spec k0 k) as [->|Hne]; cbn [fmap list_fmap fst].
    + rewrite decide_True; [reflexivity|]. by left.
    + rewrite IH. destruct (decide (k ∈ fst <$> mp)) as [Hin|Hout].
      * rewrite decide_True; [reflexivity|]. by right.
      * rewrite decide_False; [reflexivity|].
        intros [?|?]%elem_of_cons; congruence.
Qed.

Lemma map_get_is_key (k : string) (mp : list (string * string)) :
  k ∈ map_keys mp -> is_Some (map_get k mp).
Proof.
  unfold map_keys. induction mp as [|[k0 v0] mp IH]; cbn [fmap list_fmap fst map_get].
  - by intros ?%elem_of_nil.
  - destruct (String.eqb_spec k0 k) as [->|Hne]; [by eexists|].
    intros [?|?]%elem_of_cons; [congruence|auto].
Qed.

Lemma slot_entries_snoc (l : list Session) (s : Session) :
  slot_entries (l ++ [s]) = map_set (from s) (to s) (slot_entries l).
Proof. unfold slot_entries. by rewrite foldl_snoc. Qed.

Lemma slotMap_of_timed (ss : list Session) : slotMap_of ss = slot_entries (filter timed ss).
Proof.
  unfold slotMap_of, slot_entries. generalize (@nil (string * string)).
  induction ss as [|s ss IH]; intros mp; [reflexivity|].
  cbn [foldl]. rewrite IH, filter_cons.
  destruct (decide (timed s)) as [[Hf Ht]|Hno].
  - apply nonempty_true in Hf, Ht. by rewrite Hf, Ht.
  - destruct (nonempty (from s)) eqn:Hf; cbn [andb]; [|reflexivity].
    destruct (nonempty (to s)) eqn:Ht; [|reflexivity].
    apply nonempty_true in Hf, Ht. by destruct Hno.
Qed.

(** The keys of the slot map are the [from] values of the sessions, once each. *)
Lemma slot_entries_keys (l : list Session) :
  NoDup (map_keys (slot_entries l))
  /\ forall k, k ∈ map_keys (slot_entries l) <-> exists s, s ∈ l /\ from s = k.
Proof.
  induction l as [|s l [IHnd IHin]] using rev_ind.
  - split; [constructor|]. intros k. split; [by intros ?%elem_of_nil|].
    by intros (s & ?%elem_of_nil & _).
  - rewrite slot_entries_snoc, map_keys_set.
    destruct (decide (from s ∈ map_keys (slot_entries l))) as [Hin|Hout].
    + split; [done|]. intros k. rewrite IHin. split.
      * intros (s' & Hs' & <-). exists s'. split; [|done]. apply elem_of_app. by left.
      * intros (s' & [Hs'| ->%list_elem_of_singleton]%elem_of_app & <-); [eauto|].
        by apply IHin.
    + split.
      * apply NoDup_app. split; [done|]. split; [|apply NoDup_singleton].
        by intros k Hk ->%list_elem_of_singleton.
      * intros k. rewrite elem_of_app, IHin, list_elem_of_singleton. split.
        -- intros [(s' & Hs' & <-)| ->].
           ++ exists s'. split; [|done]. apply elem_of_app. by left.
           ++ exists s. split; [|done]. apply elem_of_app. right.
              by apply list_elem_of_singleton.
        -- intros (s' & [Hs'| ->%list_elem_of_singleton]%elem_of_app & <-); eauto.
Qed.

(** The value under a key is the [to] of the last session with that [from]. *)
Lemma slot_entries_last (l : list Session) (k t : string) :
  map_get k (slot_entries l) = Some t ->
  exists pre s post, l = pre ++ s :: post /\ from s = k /\ to s = t
                     /\ forall s', s' ∈ post -> from s' <> k.
Proof.
  induction l as [|x l IH] using rev_ind; [discriminate|].
  rewrite slot_entries_snoc, map_get_set.
  destruct (String.eqb_spec (from x) k) as [<-|Hne].
  - intros [= <-]. exists l, x, []. split; [done|]. split; [done|]. split; [done|].
    by intros s' ?%elem_of_nil.
  - intros (pre & s & post & -> & <- & <- & Hpost)%IH.
    exists pre, s, (post ++ [x]). rewrite <- app_assoc. split; [done|].
    split; [done|]. split; [done|].
    intros s' [?| ->%list_elem_of_singleton]%elem_of_app; auto.
Qed.

Lemma slot_entries_nil (l : list Session) : slot_entries l = [] <-> l = [].
Proof.
  split; [|by intros ->]. destruct l as [|x l _] using rev_ind; [done|].
  rewrite slot_entries_snoc. by destruct (slot_entries l) as [|[k0 v0] mp]; cbn;
    [|destruct (String.eqb k0 (from x))].
Qed.

Lemma Qle_bool_sub (x y : Z) :
  Qle_bool (Qred (inject_Z x - inject_Z y)) (inject_Z 0) = (x <=? y)%Z.
Proof.
  destruct (Z.leb_spec x y) as [Hle|Hlt].
  - apply Qle_bool_iff. rewrite Qred_correct. unfold Qle. cbn. lia.
  - apply not_true_is_false. rewrite Qle_bool_iff, Qred_correct. unfold Qle. cbn. lia.
Qed.

(** On texts that read as integers the comparator of the slot sort is
    positive exactly when the first integer is the larger. *)
Lemma compare_from_gt (a b : string) (x y : Z) :
  parseInt a = of_Z x -> parseInt b = of_Z y ->
  gt (compare_from a b) (of_Z 0) = (y <? x)%Z.
Proof.
  intros Ha Hb. unfold compare_from, gt, lt, sub, of_Z. rewrite Ha, Hb. unfold of_Z.
  rewrite Qle_bool_sub. by rewrite Z.ltb_antisym.
Qed.

Lemma of_Z_inj (x y : Z) : of_Z x = of_Z y -> x = y.
Proof. by intros [= ->]. Qed.


Lemma slot_from_fmap (mp : list (string * string)) (fs : list string) :
  Slot.from <$> ((fun f => {| Slot.from := f;
                              Slot.to := match map_get f mp with
                                         | Some t => if nonempty t then t else ""
                                         | None => ""
                                         end |}) <$> fs) = fs.
Proof. induction fs as [|f fs IH]; [reflexivity|]. cbn [fmap list_fmap] in *. by rewrite IH. Qed.

(** With no session the slots are the default four; from values met in
    the order 1330, 0830 give the slots in the order 0830, 1330. *)
Lemma dynamicTimeSlots_examples :
  dynamicTimeSlots [] = defaultSlots
  /\ Slot.from <$> dynamicTimeSlots
        [ session_at "a" "4" "2024-01-01" "1330" "1530" "Lab";
          session_at "b" "4" "2024-01-01" "0830" "1030" "Intro" ]
     = ["0830"; "1330"].
Proof. split; vm_compute; reflexivity. Qed.




(** ** The session collection holds persisted sessions only *)

Lemma dynamicTimeSlots_from_nonempty (ss : list Session) (sl : SlotDefinition) :
  sl ∈ dynamicTimeSlots ss -> Slot.from sl <> "".
Proof.
  unfold dynamicTimeSlots. rewrite slotMap_of_timed.
  destruct (length (slot_entries (filter timed ss)) =? 0)%nat.
  - unfold defaultSlots. intros Hsl.
    repeat (apply elem_of_cons in Hsl as [-> |Hsl]; [discriminate|]).
    by apply elem_of_nil in Hsl.
  - intros (f & -> & Hf%sort_with_elem)%list_elem_of_fmap. cbn [Slot.from].
    apply (proj2 (slot_entries_keys _)) in Hf
      as (s & [[Hfrom _] _]%list_elem_of_filter & <-).
    done.
Qed.

Lemma rev_app_length (s1 s2 : string) :
  String.length (String.rev_app s1 s2) = (String.length s1 + String.length s2)%nat.
Proof.
  revert s2. induction s1 as [|c s1 IH]; intros s2; [reflexivity|].
  cbn [String.rev_app String.length]. rewrite IH. cbn [String.length]. lia.
Qed.

(** The first piece of a split is at least as long as what was read of it. *)
Lemma split_go_first_length (sep : ascii) (s cur : string) :
  (String.length cur <= String.length (first (split_go sep cur s)))%nat.
Proof.
  revert cur. induction s as [|c s IH]; intros cur; cbn [split_go].
  - unfold first, String.rev. cbn. rewrite rev_app_length. cbn. lia.
  - destruct (Ascii.eqb c sep).
    + unfold first, String.rev. cbn. rewrite rev_app_length. cbn. lia.
    + etrans; [|apply IH]. cbn. lia.
Qed.

Lemma split_first_nonempty (sep c : ascii) (s : string) :
  c <> sep -> first (split sep (String c s)) <> "".
Proof.
  intros Hc Hempty. unfold split in Hempty. cbn [split_go] in Hempty.
  apply Ascii.eqb_neq in Hc. rewrite Hc in Hempty.
  pose proof (split_go_first_length sep s (String c "")) as Hlen.
  rewrite Hempty in Hlen. cbn in Hlen. lia.
Qed.

(** A decimal numeral starts with a digit or a minus sign. *)
Lemma string_of_Z_head (z : Z) :
  exists c rest, string_of_Z z = String c rest /\ c <> "T"%char.
Proof.
  unfold string_of_Z. destruct (Z.to_int z) as [u|u].
  - destruct u; cbn; eexists _, _; split; try reflexivity; discriminate.
  - cbn. eexists _, _. split; [reflexivity|discriminate].
Qed.

Lemma pad_Z_head (n : nat) (z : Z) :
  exists c rest, pad_Z n z = String c rest /\ c <> "T"%char.
Proof.
  unfold pad_Z, padStart0. destruct (string_of_Z_head z) as (c & rest & -> & Hc).
  destruct (n - String.length (String c rest))%nat; cbn; eexists _, _; split;
    try reflexivity; done.
Qed.

Lemma iso_year_head (y0 : Z) :
  exists c rest, iso_year y0 = String c rest /\ c <> "T"%char.
Proof.
  unfold iso_year. destruct ((0 <=? y0)%Z && (y0 <=? 9999)%Z); [apply pad_Z_head|].
  destruct (y0 <? 0)%Z; cbn; eexists _, _; split; try reflexivity; discriminate.
Qed.

(** The day of a valid date is not empty. *)
Lemma iso_day_nonempty (now : DateFields) (today : string) :
  iso_day (ValidDate now) = Ok today -> today <> "".
Proof.
  unfold iso_day, toISOString. cbn [mbind result_bind mret result_ret].
  destruct (iso_year_head (utcFullYear now)) as (c & rest & -> & Hc).
  intros [= <-]. cbn [String.append]. by apply split_first_nonempty.
Qed.

Lemma dedupe_elem (x : string) (l : list string) : forall seen,
  x ∈ dedupe seen l -> x ∈ l.
Proof.
  induction l as [|y0 l IH]; intros seen; cbn [dedupe]; [done|].
  destruct (decide (y0 ∈ seen)).
  - intros ?%IH. by right.
  - intros [-> |?%IH]%elem_of_cons; [by left|by right].
Qed.

Lemma visibleDates_nonempty (now : DateFields) (st : AppState) (dt : string) :
  Forall persisted (sessions st) -> dt ∈ visibleDates now st -> dt <> "".
Proof.
  intros Hall. unfold visibleDates.
  destruct (length _ =? 0)%nat.
  - destruct (iso_day (ValidDate now)) as [today|e] eqn:Hday.
    + intros ->%list_elem_of_singleton. by apply (iso_day_nonempty now).
    + by intros ?%elem_of_nil.
  - intros (s & -> & [_ Hs]%list_elem_of_filter)%sort_with_elem%dedupe_elem%list_elem_of_fmap.
    rewrite Forall_forall in Hall. by apply Hall.
Qed.

Lemma Forall_filter_keep {A : Type} (P Q : A -> Prop) `{!forall x, Decision (Q x)}
    (l : list A) :
  Forall P l -> Forall P (filter Q l).
Proof.
  rewrite !Forall_forall. intros Hall x [_ Hx]%list_elem_of_filter. auto.
Qed.

Lemma perform_persisted (st : AppState) (g : gesture) :
  all_persisted st -> enabled st g -> all_persisted (perform st g).
Proof.
  intros [Hs Hp] Hen. unfold all_persisted.
  destruct g as [s src now targetDate targetSlot|s []|s|q]; cbn [perform enabled] in *.
  - destruct Hen as (_ & Hdate & Hslot).
    assert (persisted (updatedSession st s targetDate targetSlot)) as Hu.
    { split; cbn [from date updatedSession].
      - by apply (dynamicTimeSlots_from_nonempty (sessions st)).
      - by apply (visibleDates_nonempty now st). }
    destruct src; unfold onDropToTimetable; cbn [sessions parkingLot].
    + split; [|done]. apply Forall_fmap. eapply Forall_impl; [exact Hs|].
      intros x Hx. cbn. by destruct (decide (id x = id s)).
    + split; [apply Forall_app; split; [done|by constructor]|].
      by apply Forall_filter_keep.
  - unfold onDropToParking. cbn [sessions parkingLot shown] in *.
    split; [by apply Forall_filter_keep|].
    apply Forall_app. split; [done|]. constructor; [|constructor].
    rewrite Forall_forall in Hs. by apply Hs.
  - done.
  - unfold discard. cbn [sessions parkingLot]. split; [done|by apply Forall_filter_keep].
  - done.
Qed.

Lemma reachable_persisted (init st : AppState) :
  all_persisted init -> reachable init st -> all_persisted st.
Proof. intros Hinit. induction 1; auto using perform_persisted. Qed.

(** C6: a row whose resolved from or resolved date is empty pushes nothing;
    every session that an import resolves with has a non-empty from and a
    non-empty date; and the gestures of the editor keep it so: in every state
    reached from the import, the sessions of the grid and of the staging
    list have a non-empty from and a non-empty date. *)
Theorem collection_persisted `{Host} (workbook : list (list (list value)))
    (data : list Session) (st : AppState) :
  parseExcelFile workbook = Ok data ->
  Forall persisted data
  /\ (reachable (loaded data) st ->
      Forall persisted (sessions st) /\ Forall persisted (parkingLot st))
  /\ (forall squad all tracker row normalized,
        normalizeDate (cell row 1) = Ok normalized ->
        normalizeTime (cell row 2) = ""
        \/ (if nonempty normalized then normalized else tracker) = "" ->
        import_row squad (all, tracker) row = Ok (all, tracker)).
Proof.
  intros Himp. pose proof (parseExcelFile_persisted _ _ Himp) as Hdata.
  split; [done|]. split.
  - apply reachable_persisted. split; [done|constructor].
  - intros squad all tracker row normalized Hdate Hempty.
    rewrite (import_row_eq _ _ _ _ _ Hdate). cbv zeta.
    destruct Hempty as [Hempty|Hempty]; apply nonempty_false in Hempty;
      rewrite Hempty; by rewrite ?andb_false_r.
Qed.

Lemma parseExcelFile_two_rows :
  parseExcelFile (H := sample_host) [sheet_two_rows] = Ok [intro_0830; advanced_1030].
Proof. vm_compute. reflexivity. Qed.

Lemma collection_persisted_witness : Forall persisted [intro_0830; advanced_1030].
Proof.
  exact (proj1 (collection_persisted (H := sample_host) [sheet_two_rows] _
    (loaded []) parseExcelFile_two_rows)).
Defined.

(** ** exportToExcel *)

Lemma compare_Lt_trans (a b c : string) :
  String.compare a b = Lt -> String.compare b c = Lt -> String.compare a c = Lt.
Proof.
  intros Hab Hbc.
  assert (String.le a c) as Hac.
  { trans b; unfold String.le, String.leb; [by rewrite Hab|by rewrite Hbc]. }
  unfold String.le, String.leb in Hac.
  destruct (String.compare a c) eqn:Hc; [|done|done].
  apply String.compare_eq_iff in Hc as ->.
  rewrite String.compare_antisym, Hab in Hbc. discriminate.
Qed.

Lemma int_le_trans (a b c : string) : int_le a b -> int_le b c -> int_le a c.
Proof.
  intros (x & y & Ha & Hb & Hxy) (y' & z & Hb' & Hc & Hyz).
  rewrite Hb in Hb'. apply of_Z_inj in Hb' as <-.
  exists x, z. split; [done|]. split; [done|]. lia.
Qed.

Lemma session_le_trans (a b c : Session) :
  session_le a b -> session_le b c -> session_le a c.
Proof.
  intros [Hab|[Hab Hfab]] [Hbc|[Hbc Hfbc]].
  - left. by apply (compare_Lt_trans _ (date b)).
  - left. by rewrite <- Hbc.
  - left. by rewrite Hab.
  - right. split; [congruence|]. by apply (int_le_trans _ (from b)).
Qed.

(** The numbers the callback of [map] hands out, from its two variables. *)
Lemma dataRows_numbers (l : list Session) : forall (currentDate : string) (counter : Z),
  exists ns,
    dataRows currentDate counter l = zip_with data_row ns l
    /\ length ns = length l
    /\ (forall n s, ns !! 0%nat = Some n -> l !! 0%nat = Some s ->
          n = if decide (date s = currentDate) then (counter + 1)%Z else 1%Z)
    /\ (forall j p s m n,
          l !! j = Some p -> l !! S j = Some s ->
          ns !! j = Some m -> ns !! S j = Some n ->
          n = if decide (date s = date p) then (m + 1)%Z else 1%Z).
Proof.
  induction l as [|s0 l IH]; intros currentDate counter.
  - exists []. repeat split; intros; discriminate.
  - cbn [dataRows].
    destruct (decide (date s0 <> currentDate)) as [Hne|Heq%dec_stable].
    + destruct (IH (date s0) 1%Z) as (ns & Hrows & Hlen & Hfirst & Hnext).
      exists (1%Z :: ns). split; [cbn; by rewrite Hrows|]. split; [cbn; by rewrite Hlen|].
      split.
      * intros n s [= <-] [= <-]. by rewrite decide_False.
      * intros [|j] p s m n; cbn; [|by apply Hnext].
        intros [= <-] Hs [= <-] Hn. by rewrite (Hfirst n s Hn Hs).
    + destruct (IH currentDate (counter + 1)%Z) as (ns & Hrows & Hlen & Hfirst & Hnext).
      exists ((counter + 1)%Z :: ns). split; [cbn; by rewrite Hrows|].
      split; [cbn; by rewrite Hlen|]. split.
      * intros n s [= <-] [= <-]. by rewrite decide_True.
      * intros [|j] p s m n; cbn; [|by apply Hnext].
        intros [= <-] Hs [= <-] Hn. rewrite Heq. by rewrite (Hfirst n s Hn Hs).
Qed.

Section ExportProps.
Context `{Host}.

Lemma compare_sessions_decides (a b : Session) :
  reads_int (from a) -> reads_int (from b) ->
  collates_as_code_units (date a) (date b) ->
  if gt (compare_sessions a b) (of_Z 0) then session_le b a else session_le a b.
Proof.
  intros [x Ha] [z Hb] [Hlt Hgt]. unfold compare_sessions.
  destruct (decide (date a <> date b)) as [Hne|Heq%dec_stable].
  - destruct (gt (localeCompare (date a) (date b)) (of_Z 0)) eqn:Hc; left.
    + rewrite String.compare_antisym. by rewrite (proj1 Hgt eq_refl).
    + destruct (String.compare (date a) (date b)) eqn:Hcmp; [|done|].
      * by apply String.compare_eq_iff in Hcmp.
      * discriminate (proj2 Hgt eq_refl).
  - fold (compare_from (from a) (from b)). rewrite (compare_from_gt _ _ x z Ha Hb).
    destruct (Z.ltb_spec z x); right; (split; [done|]).
    + exists z, x. split; [done|]. split; [done|]. lia.
    + exists x, z. split; [done|]. split; [done|]. lia.
Qed.

(** C3, as the code has it: the rows of an export stand one for one for the
    sessions whose squad number, as a lower-cased string, equals the
    lower-cased squad id, each row holding the slot number and the date, from,
    to, course, learning unit and mentor of its session; the slot number is 1
    on the first row and on every row whose date differs from the date of the
    row before, and one more than the slot number of the row before otherwise;
    and, when the from values of those sessions read as integers and the host
    collates their dates as their code units (as it does for YYYY-MM-DD
    dates), the rows are in ascending order of date by code units, then of
    the integer value of from. *)
Theorem export_rows_spec (ss : list Session) (squadId : squad_id) :
  sortedSessions ss squadId
    ≡ₚ filter (fun s => toLowerCase (String_squad (squad_number s))
                        = toLowerCase (String_squad squadId)) ss
  /\ (exists ns,
        export_rows ss squadId
        = zip_with (fun n s => [ VNumber (of_Z n); VString (date s); VString (from s);
                                 VString (to s); VString (course_id s);
                                 VString (lu_id s); VString (mentor_id s) ])
                   ns (sortedSessions ss squadId)
        /\ numbered (sortedSessions ss squadId) ns)
  /\ ((forall s, s ∈ ss -> squad_matches squadId s -> reads_int (from s)) ->
      (forall a b, a ∈ ss -> b ∈ ss ->
                   squad_matches squadId a -> squad_matches squadId b ->
                   collates_as_code_units (date a) (date b)) ->
      StronglySorted session_le (sortedSessions ss squadId)).
Proof.
  split; [exact (sort_with_perm compare_sessions (filter (squad_matches squadId) ss))|].
  split.
  - unfold export_rows.
    destruct (dataRows_numbers (sortedSessions ss squadId) "" 0%Z)
      as (ns & Hrows & Hlen & Hfirst & Hnext).
    exists ns. split; [exact Hrows|]. split; [done|]. split; [|done].
    intros n Hn. destruct (sortedSessions ss squadId) as [|s l] eqn:Hsorted.
    + destruct ns; [discriminate|discriminate].
    + rewrite (Hfirst n s Hn eq_refl). by destruct (decide (date s = "")).
  - intros Hread Hloc.
    apply (sort_with_sorted compare_sessions session_le
             (fun s => s ∈ ss /\ squad_matches squadId s)).
    + intros a b c _ _ _. apply session_le_trans.
    + intros a b [Ha Hma] [Hb Hmb]. apply compare_sessions_decides; auto.
    + apply Forall_forall. intros s [Hm Hs]%list_elem_of_filter. done.
Qed.

End ExportProps.

Lemma sample_host_collates (x y0 : string) :
  collates_as_code_units (H := sample_host) x y0.
Proof.
  unfold collates_as_code_units. cbn [localeCompare sample_host]. unfold compare_strings.
  destruct (String.compare x y0); split; split; (done || discriminate).
Qed.

Lemma export_sample_reads_int (s : Session) : s ∈ export_sample -> reads_int (from s).
Proof.
  unfold export_sample. intros Hs.
  repeat (apply elem_of_cons in Hs as [-> |Hs]);
    [by exists 1330%Z|by exists 830%Z|by exists 1330%Z|by exists 900%Z|by exists 1030%Z|].
  by apply elem_of_nil in Hs.
Qed.

Lemma export_rows_spec_witness :
  StronglySorted session_le
    (sortedSessions (H := sample_host) export_sample (SquadNum (of_Z 4))).
Proof.
  apply (export_rows_spec (H := sample_host) export_sample (SquadNum (of_Z 4))).
  - intros s Hs _. by apply export_sample_reads_int.
  - intros a b _ _ _ _. apply sample_host_collates.
Defined.

(** C3 as stated fails: the sort compares the dates with localeCompare, which
    is the order of the code units on YYYY-MM-DD dates and not on every text
    an import keeps as a date.  The sheet with the date cells "TBD" and "tbc"
    is imported with these two dates; by code units "TBD" stands before "tbc",
    and the export puts the row of "tbc" first. *)
Lemma export_rows_not_lexicographic :
  parseExcelFile (H := collating_host) [sheet_undated]
  = Ok [ session_at "id0" "4" "TBD" "0830" "1030" "Intro";
         session_at "id1" "4" "tbc" "1030" "1230" "Advanced" ]
  /\ String.compare "TBD" "tbc" = Lt
  /\ localeCompare (Host := collating_host) "TBD" "tbc" = of_Z 1
  /\ export_rows (H := collating_host)
       [ session_at "id0" "4" "TBD" "0830" "1030" "Intro";
         session_at "id1" "4" "tbc" "1030" "1230" "Advanced" ] (SquadStr "4")
     = [ [ VNumber (of_Z 1); VString "tbc"; VString "1030"; VString "1230";
           VString "Advanced"; VString ""; VString "Unassigned" ];
         [ VNumber (of_Z 1); VString "TBD"; VString "0830"; VString "1030";
           VString "Intro"; VString ""; VString "Unassigned" ] ].
Proof. split; [|split; [|split]]; vm_compute; reflexivity. Qed.

(** The export of the specification: the session of 1 January gets
    slot 1, the three of 2 January get 1, 2, 3 in ascending time, whether the
    squad is asked for as the number 4 or as the text "4". *)
Lemma export_rows_sample :
  export_rows (H := sample_host) export_sample (SquadNum (of_Z 4))
  = [ data_row 1 (session_at "c" "4" "2024-01-01" "1330" "1530" "Kickoff");
      data_row 1 (session_at "b" "4" "2024-01-02" "0830" "1030" "Intro");
      data_row 2 (session_at "e" "4" "2024-01-02" "1030" "1230" "Advanced");
      data_row 3 (session_at "a" "4" "2024-01-02" "1330" "1530" "Lab") ]
  /\ export_rows (H := sample_host) export_sample (SquadStr "4")
     = export_rows (H := sample_host) export_sample (SquadNum (of_Z 4)).
Proof. split; vm_compute; reflexivity. Qed.

(** *** The heap *)

Lemma filter_snd_fmap {A B : Type} (P : B -> Prop) `{!forall x, Decision (P x)}
    (l : list (A * B)) :
  snd <$> filter (fun e => P (snd e)) l = filter P (snd <$> l).
Proof.
  induction l as [|e l IH]; [reflexivity|].
  cbn [fmap list_fmap]. rewrite !filter_cons.
  destruct (decide (P (snd e))); cbn [fmap list_fmap]; by rewrite IH.
Qed.

Lemma deref_Some (h : heap) (l : positive) (e : positive * Session) :
  deref h l = Some e <-> l = fst e /\ objects h !! fst e = Some (snd e).
Proof.
  unfold deref. destruct e as [l' s]. cbn [fst snd]. split.
  - destruct (objects h !! l) as [s'|] eqn:Hl; cbn; [|discriminate].
    intros [= <- <-]. done.
  - intros [-> ->]. done.
Qed.

(** An array loads as [elems] exactly when it holds their addresses and each
    address holds its object. *)
Lemma array_load_Some (a : positive) (h : heap) (elems : list (positive * Session)) :
  array_load a h = Some elems
  <-> arrays h !! a = Some (fst <$> elems)
      /\ Forall (fun e => objects h !! fst e = Some (snd e)) elems.
Proof.
  unfold array_load. split.
  - destruct (arrays h !! a) as [locs|]; cbn; [|discriminate].
    intros HM%mapM_Some_1. induction HM as [|l e locs elems He _ [IH1 IH2]].
    + split; [done|constructor].
    + apply deref_Some in He as [-> He]. injection IH1 as ->.
      split; [done|by constructor].
  - intros [-> Hall]. cbn. apply mapM_fmap_Forall_Some.
    eapply Forall_impl; [exact Hall|]. intros e He. by apply deref_Some.
Qed.

Section HeapProps.
Context `{Host}.

(** C10: an export leaves the heap it was given as it found it.  When the
    array of sessions loads (it stands in the heap, and so do its elements),
    the export returns; every session object is as before, no object is
    added, every array of the heap before holds the same addresses after,
    and the file written is the one computed from the values of the sessions.
    The only arrays written are the two the export makes itself. *)
Theorem exportToExcel_frame (sessions_arr : positive) (squadId : squad_id) (now : Date)
    (h : heap) (elems : list (positive * Session)) :
  array_load sessions_arr h = Some elems ->
  exists h',
    exportToExcel sessions_arr squadId now h
      = Some (export_file (snd <$> elems) squadId now, h')
    /\ objects h' = objects h
    /\ (forall a arr, arrays h !! a = Some arr -> arrays h' !! a = Some arr)
    /\ array_load sessions_arr h' = Some elems.
Proof.
  intros Hload. unfold exportToExcel. rewrite Hload. cbn [mbind option_bind].
  apply array_load_Some in Hload as [Harr Hobj].
  set (kept := filter (fun e => squad_matches squadId (snd e)) elems).
  assert (Forall (fun e => objects h !! fst e = Some (snd e)) kept) as Hkept.
  { by apply Forall_filter_keep. }
  unfold array_alloc at 1.
  set (filtered := fresh (dom (arrays h))).
  set (h1 := {| objects := objects h; arrays := <[filtered := fst <$> kept]> (arrays h) |}).
  assert (array_load filtered h1 = Some kept) as ->.
  { apply array_load_Some. split; [apply lookup_insert_eq|done]. }
  cbn [mbind option_bind]. unfold array_alloc.
  set (copy := fresh (dom (arrays h1))).
  set (h2 := {| objects := objects h1; arrays := <[copy := fst <$> kept]> (arrays h1) |}).
  assert (array_load copy h2 = Some kept) as ->.
  { apply array_load_Some. split; [apply lookup_insert_eq|done]. }
  cbn [mbind option_bind].
  set (sorted := sort_with (fun a b => compare_sessions (snd a) (snd b)) kept).
  assert (Forall (fun e => objects h !! fst e = Some (snd e)) sorted) as Hsorted.
  { unfold sorted. by rewrite sort_with_perm. }
  assert (array_load copy (array_store copy (fst <$> sorted) h2) = Some sorted) as ->.
  { apply array_load_Some. split; [apply lookup_insert_eq|done]. }
  cbn [mbind option_bind]. eexists. split.
  { f_equal. f_equal. unfold export_file, export_rows, sortedSessions. f_equal. f_equal.
    f_equal. f_equal. unfold sorted, kept. by rewrite sort_with_snd, filter_snd_fmap. }
  assert (forall a arr, arrays h !! a = Some arr ->
            arrays (array_store copy (fst <$> sorted) h2) !! a = Some arr) as Hframe.
  { intros a arr Ha. cbn [array_store arrays h2 h1].
    assert (a <> filtered) as Hf.
    { intros ->. apply (is_fresh (dom (arrays h))). fold filtered. by apply elem_of_dom. }
    assert (a <> copy) as Hc.
    { intros ->. apply (is_fresh (dom (arrays h1))). fold copy. apply elem_of_dom.
      cbn [arrays h1]. rewrite lookup_insert_ne by done. by eexists. }
    by rewrite !lookup_insert_ne. }
  split; [done|]. split; [done|].
  apply array_load_Some. split; [by apply Hframe|done].
Qed.

End HeapProps.

Lemma exportToExcel_frame_witness :
  exists h',
    exportToExcel (H := sample_host) 10 (SquadNum (of_Z 4)) (ValidDate tuesday_1330)
      export_heap
    = Some (export_file (H := sample_host) export_sample (SquadNum (of_Z 4))
              (ValidDate tuesday_1330), h')
    /\ objects h' = objects export_heap.
Proof.
  destruct (exportToExcel_frame (H := sample_host) 10 (SquadNum (of_Z 4))
              (ValidDate tuesday_1330) export_heap
              (zip [1; 2; 3; 4; 5]%positive export_sample) eq_refl)
    as (h' & Hrun & Hobj & _).
  exists h'. split; [exact Hrun|exact Hobj].
Defined.

(** ** Texts *)

Lemma forallb_below (P : nat -> bool) (a : nat) :
  forallb P (seq 0 a) = true -> forall i, (i < a)%nat -> P i = true.
Proof.
  intros Hall i Hi. apply (proj1 (forallb_forall _ _) Hall). apply in_seq. lia.
Qed.

Lemma forallb_below2 (P : nat -> nat -> bool) (a b : nat) :
  forallb (fun i => forallb (P i) (seq 0 b)) (seq 0 a) = true ->
  forall i j, (i < a)%nat -> (j < b)%nat -> P i j = true.
Proof.
  intros Hall i j Hi Hj.
  apply (forallb_below (P i) b); [|done]. by apply (forallb_below _ a Hall).
Qed.

(** A digit is one of the ten characters from "0". *)
Lemma is_digit_cases (c : ascii) :
  is_digit c = true -> exists k, (k < 10)%nat /\ c = ascii_of_nat (48 + k).
Proof.
  destruct c as [[] [] [] [] [] [] [] []]; try discriminate; intros _;
    first [ exists 0%nat; split; [lia|reflexivity] | exists 1%nat; split; [lia|reflexivity]
          | exists 2%nat; split; [lia|reflexivity] | exists 3%nat; split; [lia|reflexivity]
          | exists 4%nat; split; [lia|reflexivity] | exists 5%nat; split; [lia|reflexivity]
          | exists 6%nat; split; [lia|reflexivity] | exists 7%nat; split; [lia|reflexivity]
          | exists 8%nat; split; [lia|reflexivity] | exists 9%nat; split; [lia|reflexivity] ].
Qed.

Lemma digit_not_space (c : ascii) : is_digit c = true -> Ascii.is_space c = false.
Proof. intros (k & Hk & ->)%is_digit_cases. do 10 (destruct k as [|k]; [done|]). lia. Qed.

Lemma digit_not_letter (c : ascii) : is_digit c = true -> is_letter c = false.
Proof. intros (k & Hk & ->)%is_digit_cases. do 10 (destruct k as [|k]; [done|]). lia. Qed.

Lemma digit_lower (c : ascii) : is_digit c = true -> lower_char c = c.
Proof. intros (k & Hk & ->)%is_digit_cases. do 10 (destruct k as [|k]; [done|]). lia. Qed.

Lemma append_cons (c : ascii) (s1 s2 : string) :
  String c s1 +:+ s2 = String c (s1 +:+ s2).
Proof. reflexivity. Qed.

Lemma append_empty_r (s : string) : s +:+ "" = s.
Proof. induction s as [|c s IH]; [reflexivity|]. by rewrite append_cons, IH. Qed.

Lemma append_assoc (s1 s2 s3 : string) : (s1 +:+ s2) +:+ s3 = s1 +:+ (s2 +:+ s3).
Proof. induction s1 as [|c s1 IH]; [reflexivity|]. by rewrite !append_cons, IH. Qed.

Lemma all_chars_app (P : ascii -> bool) (s1 s2 : string) :
  all_chars P (s1 +:+ s2) = all_chars P s1 && all_chars P s2.
Proof.
  induction s1 as [|c s1 IH]; [reflexivity|].
  rewrite append_cons. cbn [all_chars]. rewrite IH. by rewrite andb_assoc.
Qed.

Lemma all_chars_impl (P Q : ascii -> bool) (s : string) :
  (forall c, P c = true -> Q c = true) -> all_chars P s = true -> all_chars Q s = true.
Proof.
  intros HPQ. induction s as [|c s IH]; [done|]. cbn [all_chars].
  intros [Hc Hs]%andb_true_iff. by rewrite (HPQ c Hc), IH.
Qed.

Lemma rev_app_app (s a b : string) :
  String.rev_app (String.rev_app s a) b = String.rev_app a (s +:+ b).
Proof.
  revert a. induction s as [|c s IH]; intros a; [reflexivity|].
  cbn [String.rev_app]. rewrite IH. reflexivity.
Qed.

Lemma rev_rev (s : string) : String.rev (String.rev s) = s.
Proof. unfold String.rev. rewrite rev_app_app. apply append_empty_r. Qed.

Lemma rev_app_append (s a : string) : String.rev_app s a = String.rev s +:+ a.
Proof.
  unfold String.rev. revert a. induction s as [|c s IH]; intros a; [reflexivity|].
  cbn [String.rev_app]. rewrite IH, (IH (String c "")).
  rewrite append_assoc. reflexivity.
Qed.

Lemma rev_append (s1 s2 : string) :
  String.rev (s1 +:+ s2) = String.rev s2 +:+ String.rev s1.
Proof.
  induction s1 as [|c s1 IH]; [by rewrite append_empty_r|].
  rewrite append_cons. unfold String.rev in *. cbn [String.rev_app].
  rewrite (rev_app_append (s1 +:+ s2)), (rev_app_append s1). unfold String.rev.
  rewrite IH. by rewrite append_assoc.
Qed.

Lemma all_chars_rev (P : ascii -> bool) (s : string) :
  all_chars P (String.rev s) = all_chars P s.
Proof.
  induction s as [|c s IH]; [reflexivity|].
  change (String c s) with (String c "" +:+ s).
  rewrite rev_append, !all_chars_app, IH. cbn. by rewrite andb_true_r, andb_comm.
Qed.

Lemma trimStart_fixed (s : string) : head_ok s = true -> trimStart s = s.
Proof. destruct s as [|c s]; [done|]. cbn. by intros ->%negb_true_iff. Qed.

Lemma trimStart_head (s : string) : head_ok (trimStart s) = true.
Proof.
  induction s as [|c s IH]; [done|]. cbn [trimStart].
  destruct (Ascii.is_space c) eqn:Hc; [done|]. cbn. by rewrite Hc.
Qed.

Lemma trimStart_suffix (s : string) : exists sp, s = sp +:+ trimStart s.
Proof.
  induction s as [|c s [sp IH]]; [by exists ""|]. cbn [trimStart].
  destruct (Ascii.is_space c); [|by exists ""].
  exists (String c sp). by rewrite append_cons, <- IH.
Qed.

Lemma trim_head (s : string) : head_ok (trim s) = true.
Proof.
  unfold trim. set (a := trimStart s).
  destruct (trimStart_suffix (String.rev a)) as [sp Hsp].
  pose proof (trimStart_head s) as Ha. fold a in Ha.
  apply (f_equal String.rev) in Hsp. rewrite rev_rev, rev_append in Hsp.
  destruct (String.rev (trimStart (String.rev a))) as [|c r]; [done|].
  rewrite append_cons in Hsp. by rewrite Hsp in Ha.
Qed.

Lemma trim_tail (s : string) : head_ok (String.rev (trim s)) = true.
Proof. unfold trim. rewrite rev_rev. apply trimStart_head. Qed.

Lemma trim_fixed (s : string) :
  head_ok s = true -> head_ok (String.rev s) = true -> trim s = s.
Proof.
  intros Hh Ht. unfold trim. rewrite (trimStart_fixed s Hh), (trimStart_fixed _ Ht).
  apply rev_rev.
Qed.

(** Trimming twice is trimming once. *)
Lemma trim_trim (s : string) : trim (trim s) = trim s.
Proof. apply trim_fixed; [apply trim_head|apply trim_tail]. Qed.

Lemma all_chars_head_ok (s : string) : all_chars is_digit s = true -> head_ok s = true.
Proof.
  destruct s as [|c s]; [done|]. cbn. intros [Hc _]%andb_true_iff.
  by rewrite (digit_not_space c Hc).
Qed.

(** A text of digits has nothing to trim. *)
Lemma trim_digits (s : string) : all_chars is_digit s = true -> trim s = s.
Proof.
  intros Hs. apply trim_fixed; apply all_chars_head_ok; [done|].
  by rewrite all_chars_rev.
Qed.

(** ** More on normalizeTime *)

(** The text of four given digits. *)
Lemma four_digits (s : string) :
  String.length s = 4%nat -> all_chars is_digit s = true ->
  exists a b c e, (a < 10)%nat /\ (b < 10)%nat /\ (c < 10)%nat /\ (e < 10)%nat
    /\ s = String (ascii_of_nat (48 + a)) (String (ascii_of_nat (48 + b))
            (String (ascii_of_nat (48 + c)) (String (ascii_of_nat (48 + e)) ""))).
Proof.
  destruct s as [|c1 [|c2 [|c3 [|c4 [|]]]]]; try discriminate. intros _. cbn [all_chars].
  rewrite !andb_true_iff.
  intros ((a & Ha & ->)%is_digit_cases & (b & Hb & ->)%is_digit_cases
          & (c & Hc & ->)%is_digit_cases & (e & He & ->)%is_digit_cases & _).
  by exists a, b, c, e.
Qed.

Lemma railway_time_digits (s : string) :
  is_railway_time s = true -> s <> "" ->
  String.length s = 4%nat /\ all_chars is_digit s = true.
Proof.
  destruct s as [|c1 [|c2 [|c3 [|c4 [|]]]]]; try discriminate; [done|].
  cbn [is_railway_time all_chars]. rewrite !andb_true_iff.
  intros [[[[[H1 H2] H3] H4] _] _] _. by rewrite H1, H2, H3, H4.
Qed.

(** A railway time is a fixed point of normalizeTime. *)
Lemma railway_text_normalized (s : string) :
  is_railway_time s = true -> normalizeTime (VString s) = s.
Proof.
  intros Hs. destruct (decide (s = "")) as [->|Hne]; [reflexivity|].
  destruct (railway_time_digits s Hs Hne) as [Hlen Hdig].
  destruct (four_digits s Hlen Hdig) as (a & b & c & e & Ha & Hb & Hc & He & ->).
  assert (forallb (fun a => forallb (fun b => forallb (fun c => forallb (fun e =>
            let t := String (ascii_of_nat (48 + a)) (String (ascii_of_nat (48 + b))
                       (String (ascii_of_nat (48 + c)) (String (ascii_of_nat (48 + e)) ""))) in
            implb (is_railway_time t) (String.eqb (normalizeTime (VString t)) t))
            (seq 0 10)) (seq 0 10)) (seq 0 10)) (seq 0 10) = true) as Hall
    by (vm_compute; reflexivity).
  pose proof (forallb_below _ _ Hall a Ha) as H1. cbv beta in H1.
  pose proof (forallb_below _ _ H1 b Hb) as H2. cbv beta in H2.
  pose proof (forallb_below _ _ H2 c Hc) as H3. cbv beta in H3.
  pose proof (forallb_below _ _ H3 e He) as H4. cbv beta zeta in H4.
  rewrite Hs in H4. by apply String.eqb_eq in H4.
Qed.

(** White space around a time text is not read. *)
Lemma normalizeTime_trimmed (s : string) :
  s <> "" -> trim s <> "" -> normalizeTime (VString s) = normalizeTime (VString (trim s)).
Proof.
  intros Hs Ht. destruct s as [|c s]; [done|].
  destruct (trim (String c s)) as [|c' s'] eqn:E; [done|].
  cbn [normalizeTime String_]. rewrite <- E. unfold time_of_string.
  by rewrite trim_trim.
Qed.

(** X2: a railway time is a fixed point of normalizeTime, and the white
    space around it is dropped: the text of a time that normalizeTime gave,
    or that an export wrote, is read back as it is. *)
Theorem normalizeTime_railway_fixed (s : string) :
  is_railway_time (trim s) = true -> trim s <> "" ->
  normalizeTime (VString s) = trim s /\ normalizeTime (VString (trim s)) = trim s.
Proof.
  intros Hr Ht. pose proof (railway_text_normalized _ Hr) as Hfix.
  split; [|exact Hfix]. rewrite normalizeTime_trimmed; [exact Hfix| |exact Ht].
  intros ->. by apply Ht.
Qed.

Lemma normalizeTime_railway_fixed_witness : normalizeTime (VString " 2359 ") = "2359".
Proof.
  refine (proj1 (normalizeTime_railway_fixed " 2359 " _ _));
    [vm_compute; reflexivity|vm_compute; discriminate].
Defined.

(** X3: a text of white space only is not empty, so it is read as a time:
    the result is midnight, "0000", not the empty string. *)
Theorem normalizeTime_blank_text (s : string) :
  s <> "" -> trim s = "" -> normalizeTime (VString s) = "0000".
Proof.
  intros Hs Ht. destruct s as [|c s]; [done|].
  cbn [normalizeTime String_]. unfold time_of_string. rewrite Ht.
  vm_compute. reflexivity.
Qed.

Lemma normalizeTime_blank_text_witness : normalizeTime (VString "   ") = "0000".
Proof.
  refine (normalizeTime_blank_text "   " _ _); [discriminate|vm_compute; reflexivity].
Defined.

(** The print of an hour below 24 and a minute below 60 is a railway time,
    and it is what the last step of normalizeTime prints for them. *)
Lemma railway_in_range (h mi : Z) :
  (0 <= h < 24)%Z -> (0 <= mi < 60)%Z ->
  is_railway_time (railway h mi) = true /\ railway h mi <> ""
  /\ format_time (of_Z h, of_Z mi) = railway h mi.
Proof.
  intros Hh Hm.
  assert (forallb (fun i => forallb (fun j =>
            is_railway_time (railway (Z.of_nat i) (Z.of_nat j))
            && nonempty (railway (Z.of_nat i) (Z.of_nat j))
            && String.eqb (format_time (of_Z (Z.of_nat i), of_Z (Z.of_nat j)))
                          (railway (Z.of_nat i) (Z.of_nat j)))
            (seq 0 60)) (seq 0 24) = true) as Hall by (vm_compute; reflexivity).
  pose proof (forallb_below2 _ _ _ Hall (Z.to_nat h) (Z.to_nat mi)) as Hcell.
  specialize (Hcell ltac:(lia) ltac:(lia)).
  cbv beta in Hcell. rewrite !Z2Nat.id in Hcell by lia.
  rewrite !andb_true_iff in Hcell. destruct Hcell as [[Hr Hne] Heq].
  apply String.eqb_eq in Heq.
  split; [done|]. split; [by apply nonempty_true|done].
Qed.

(** X4: the 24-hour forms of a time are normalized to its railway time: the
    text HH:mm, the text H:mm with the hour as written, the text HHmm and the
    number 100 * hour + minute. *)
Theorem normalizeTime_24h (h mi : Z) :
  (0 <= h < 24)%Z -> (0 <= mi < 60)%Z ->
  normalizeTime (VString (two_digits h +:+ ":" +:+ two_digits mi)) = railway h mi
  /\ normalizeTime (VString (string_of_Z h +:+ ":" +:+ two_digits mi)) = railway h mi
  /\ normalizeTime (VString (railway h mi)) = railway h mi
  /\ normalizeTime (VNumber (of_Z (100 * h + mi))) = railway h mi.
Proof.
  intros Hh Hm.
  assert (forallb (fun i => forallb (fun j =>
            let h := Z.of_nat i in let mi := Z.of_nat j in
            String.eqb (normalizeTime (VString (two_digits h +:+ ":" +:+ two_digits mi)))
                       (railway h mi)
            && String.eqb (normalizeTime (VString (string_of_Z h +:+ ":" +:+ two_digits mi)))
                          (railway h mi)
            && String.eqb (normalizeTime (VString (railway h mi))) (railway h mi)
            && String.eqb (normalizeTime (VNumber (of_Z (100 * h + mi)))) (railway h mi))
            (seq 0 60)) (seq 0 24) = true) as Hall by (vm_compute; reflexivity).
  pose proof (forallb_below2 _ _ _ Hall (Z.to_nat h) (Z.to_nat mi)) as Hcell.
  specialize (Hcell ltac:(lia) ltac:(lia)).
  cbv beta zeta in Hcell. rewrite !Z2Nat.id in Hcell by lia.
  rewrite !andb_true_iff, !String.eqb_eq in Hcell. tauto.
Qed.

Lemma normalizeTime_24h_witness : normalizeTime (VNumber (of_Z 830)) = "0830".
Proof.
  refine (proj2 (proj2 (proj2 (normalizeTime_24h 8 30 _ _)))); lia.
Defined.

(** X5: the 12-hour forms: for an hour from 1 to 12, the marker AM or PM, in
    either case and with or without a space before it, gives the hour modulo
    12 for AM (12 AM is 00) and twelve more for PM (12 PM is 12). *)
Theorem normalizeTime_12h (h mi : Z) :
  (1 <= h <= 12)%Z -> (0 <= mi < 60)%Z ->
  let clock := string_of_Z h +:+ ":" +:+ two_digits mi in
  (forall marker, marker ∈ [" AM"; " am"; "AM"; "am"] ->
     normalizeTime (VString (clock +:+ marker)) = railway (h mod 12) mi)
  /\ (forall marker, marker ∈ [" PM"; " pm"; "PM"; "pm"] ->
     normalizeTime (VString (clock +:+ marker)) = railway (h mod 12 + 12) mi).
Proof.
  intros Hh Hm clock. subst clock.
  assert (forallb (fun i => forallb (fun j =>
            let h := Z.of_nat i in let mi := Z.of_nat j in
            let clock := string_of_Z h +:+ ":" +:+ two_digits mi in
            implb (Nat.leb 1 i)
              (forallb (fun marker =>
                 String.eqb (normalizeTime (VString (clock +:+ marker)))
                            (railway (h mod 12) mi)) [" AM"; " am"; "AM"; "am"]
               && forallb (fun marker =>
                 String.eqb (normalizeTime (VString (clock +:+ marker)))
                            (railway (h mod 12 + 12) mi)) [" PM"; " pm"; "PM"; "pm"]))
            (seq 0 60)) (seq 0 13) = true) as Hall by (vm_compute; reflexivity).
  pose proof (forallb_below2 _ _ _ Hall (Z.to_nat h) (Z.to_nat mi)) as Hcell.
  specialize (Hcell ltac:(lia) ltac:(lia)).
  cbv beta zeta in Hcell.
  assert (Nat.leb 1 (Z.to_nat h) = true) as Hpos by (apply Nat.leb_le; lia).
  rewrite Hpos in Hcell. cbn [implb] in Hcell. rewrite !Z2Nat.id in Hcell by lia.
  apply andb_true_iff in Hcell as [Ham Hpm].
  split; intros marker Hmarker%list_elem_of_In.
  - apply String.eqb_eq. by apply (proj1 (forallb_forall _ _) Ham).
  - apply String.eqb_eq. by apply (proj1 (forallb_forall _ _) Hpm).
Qed.

Lemma normalizeTime_12h_witness : normalizeTime (VString "12:05 AM") = "0005".
Proof.
  refine (proj1 (normalizeTime_12h 12 5 _ _) " AM" _); [lia|lia|].
  constructor.
Defined.

Lemma day_minutes_bounds (q : Q) :
  (0 <= q)%Q -> (q < 1)%Q -> (0 <= Qfloor (q * 1440 + (1 # 2)) <= 1440)%Z.
Proof.
  intros H0 H1. split.
  - apply (Z.le_trans _ (Qfloor 0)); [vm_compute; discriminate|].
    apply Qfloor_resp_le. lra.
  - apply (Z.le_trans _ (Qfloor (1440 + (1 # 2)))); [|vm_compute; discriminate].
    apply Qfloor_resp_le. lra.
Qed.

(** X6: a number from 0 up to 1 is read as a fraction of the day: it is
    rounded to the nearest minute of the 1440, and the railway time of that
    minute is returned (the last half minute of the day rounds to 0000).
    This is stated of the fractions whose product by 1440 is a binary64
    number or stands away from the half minutes: on the others the engine
    rounds the product before the minute is taken, and the minute can be the
    next one. *)
Theorem normalizeTime_day_fraction (q : Q) :
  (0 <= q)%Q -> (q < 1)%Q -> rounds_as_exact q ->
  let t := Qfloor (q * 1440 + (1 # 2)) in
  normalizeTime (VNumber (Num q)) = railway ((t / 60) mod 24) (t mod 60)
  /\ is_railway_time (normalizeTime (VNumber (Num q))) = true
  /\ normalizeTime (VNumber (Num q)) <> "".
Proof.
  intros H0 H1 _ t. pose proof (day_minutes_bounds q H0 H1) as Ht. fold t in Ht.
  assert (normalizeTime (VNumber (Num q))
          = format_time (Math_floor (div (of_Z t) (of_Z 60)), rem (of_Z t) (of_Z 60)))
    as ->.
  { unfold normalizeTime, time_of_number, lt, ge, of_Z.
    assert (Qle_bool (inject_Z 1) q = false) as ->.
    { apply not_true_is_false. rewrite Qle_bool_iff. intros Hle.
      apply (Qlt_not_le _ _ H1). exact Hle. }
    assert (Qle_bool (inject_Z 0) q = true) as -> by (by apply Qle_bool_iff).
    cbn [negb andb]. unfold Math_round, mul, of_Z.
    assert (Qfloor (Qred (q * inject_Z 1440) + (1 # 2)) = t) as ->; [|reflexivity].
    apply Qfloor_comp. by rewrite Qred_correct. }
  assert (forallb (fun i =>
            let t := Z.of_nat i in
            String.eqb
              (format_time (Math_floor (div (of_Z t) (of_Z 60)), rem (of_Z t) (of_Z 60)))
              (railway ((t / 60) mod 24) (t mod 60))
            && is_railway_time (railway ((t / 60) mod 24) (t mod 60))
            && nonempty (railway ((t / 60) mod 24) (t mod 60)))
            (seq 0 1441) = true) as Hall by (vm_compute; reflexivity).
  pose proof (forallb_below _ _ Hall (Z.to_nat t) ltac:(lia)) as Hcell.
  cbv beta zeta in Hcell. rewrite !Z2Nat.id in Hcell by lia.
  rewrite !andb_true_iff, String.eqb_eq, nonempty_true in Hcell.
  destruct Hcell as [[-> Hr] Hne]. split; [reflexivity|split; assumption].
Qed.

Lemma normalizeTime_day_fraction_witness : normalizeTime (VNumber (Num (1 # 2))) = "1200".
Proof.
  refine (proj1 (normalizeTime_day_fraction (1 # 2) _ _ _));
    [unfold Qle; cbn; lia|unfold Qlt; cbn; lia|].
  left. exists 1%Z, 1%nat. split; [lia|reflexivity].
Defined.

(** ** More on normalizeDate *)

Lemma iso_date_shape (s : string) :
  is_iso_date s = true ->
  s <> "" /\ head_ok s = true /\ head_ok (String.rev s) = true.
Proof.
  destruct s as [|y1 [|y2 [|y3 [|y4 [|h1 [|m1 [|m2 [|h2 [|d1 [|d2 [|]]]]]]]]]]];
    try discriminate.
  cbn [is_iso_date]. rewrite !andb_true_iff.
  intros [[[[[[[[[Hy1 _] _] _] _] _] _] _] _] Hd2].
  split; [discriminate|]. cbn. by rewrite (digit_not_space _ Hy1), (digit_not_space _ Hd2).
Qed.

(** A canonical date is a fixed point of normalizeDate. *)
Lemma canonical_text_normalized `{Host} (s : string) :
  is_iso_date s = true -> normalizeDate (VString s) = Ok s.
Proof.
  intros Hs. destruct (iso_date_shape s Hs) as (Hne & Hh & Ht).
  rewrite normalizeDate_of_text, (trim_fixed s Hh Ht), Hs.
  by destruct (String.eqb_spec s "").
Qed.

(** X7: a canonical date YYYY-MM-DD is a fixed point of normalizeDate, on
    every host, and the white space around it is dropped: the date of a
    session is read back as it is. *)
Theorem normalizeDate_canonical_fixed `{Host} (s : string) :
  is_iso_date (trim s) = true ->
  normalizeDate (VString s) = Ok (trim s)
  /\ normalizeDate (VString (trim s)) = Ok (trim s).
Proof.
  intros Hs. split; [|by apply canonical_text_normalized].
  rewrite normalizeDate_of_text, Hs.
  destruct (String.eqb_spec s "") as [->|]; [discriminate Hs|reflexivity].
Qed.

Lemma normalizeDate_canonical_fixed_witness :
  normalizeDate (H := sample_host) (VString " 2024-03-05 ") = Ok "2024-03-05".
Proof.
  refine (proj1 (normalizeDate_canonical_fixed (H := sample_host) " 2024-03-05 " _)).
  vm_compute. reflexivity.
Defined.

(** The first piece of a split is the text before the first separator. *)
Lemma split_go_prefix (sep : ascii) (p rest cur : string) :
  all_chars (fun c => negb (Ascii.eqb c sep)) p = true ->
  first (split_go sep cur (p +:+ String sep rest)) = String.rev (String.rev_app p cur).
Proof.
  revert cur. induction p as [|c p IH]; intros cur.
  - intros _. change ("" +:+ String sep rest) with (String sep rest).
    cbn [split_go]. by rewrite Ascii.eqb_refl.
  - cbn [all_chars]. intros [Hc Hp]%andb_true_iff. rewrite append_cons.
    cbn [split_go]. apply negb_true_iff in Hc. rewrite Hc. by rewrite IH.
Qed.

Lemma split_first_prefix (sep : ascii) (p rest : string) :
  all_chars (fun c => negb (Ascii.eqb c sep)) p = true ->
  first (split sep (p +:+ String sep rest)) = p.
Proof.
  intros Hp. unfold split. rewrite split_go_prefix by done. apply rev_rev.
Qed.

(** A text of [n] digits. *)
Lemma digits_no_T (s : string) :
  all_chars is_digit s = true ->
  all_chars (fun c => negb (Ascii.eqb c "T")) s = true.
Proof.
  apply all_chars_impl. intros c (k & Hk & ->)%is_digit_cases.
  do 10 (destruct k as [|k]; [done|]). lia.
Qed.

Lemma append_empty_l (s : string) : "" +:+ s = s.
Proof. reflexivity. Qed.

Lemma iso_date_of_digits (ys ms ds : string) :
  String.length ys = 4%nat -> String.length ms = 2%nat -> String.length ds = 2%nat ->
  all_chars is_digit ys = true -> all_chars is_digit ms = true ->
  all_chars is_digit ds = true ->
  is_iso_date (ys +:+ "-" +:+ ms +:+ "-" +:+ ds) = true
  /\ all_chars (fun c => negb (Ascii.eqb c "T")) (ys +:+ "-" +:+ ms +:+ "-" +:+ ds) = true.
Proof.
  intros Hly Hlm Hld Hy Hm Hd. split.
  - destruct ys as [|y1 [|y2 [|y3 [|y4 [|]]]]]; try discriminate.
    destruct ms as [|m1 [|m2 [|]]]; try discriminate.
    destruct ds as [|d1 [|d2 [|]]]; try discriminate.
    cbn [all_chars] in Hy, Hm, Hd.
    rewrite !andb_true_iff in Hy. rewrite !andb_true_iff in Hm.
    rewrite !andb_true_iff in Hd.
    destruct Hy as (H1 & H2 & H3 & H4 & _), Hm as (H5 & H6 & _), Hd as (H7 & H8 & _).
    rewrite !append_cons, !append_empty_l. cbn [is_iso_date].
    by rewrite H1, H2, H3, H4, H5, H6, H7, H8.
  - rewrite !all_chars_app.
    rewrite (digits_no_T ys Hy), (digits_no_T ms Hm), (digits_no_T ds Hd). reflexivity.
Qed.

(** The print of a number that is a natural number is its decimal digits. *)
Lemma number_to_string_of_Z (z : Z) :
  (0 <= z)%Z -> number_to_string (of_Z z) = string_of_Z z.
Proof.
  intros Hz. unfold number_to_string, of_Z.
  rewrite Qred_identity by (cbn; apply Z.gcd_1_r).
  cbn [Qnum Qden inject_Z]. rewrite Z.abs_eq, Z.div_1_r, Z.mod_1_r by done.
  destruct (Z.ltb_spec z 0) as [|_]; [lia|].
  cbn [Z.eqb]. by rewrite append_empty_r.
Qed.

Lemma uint_digits (u : Decimal.uint) :
  all_chars is_digit (NilEmpty.string_of_uint u) = true.
Proof. induction u; cbn [NilEmpty.string_of_uint all_chars]; [done|by rewrite IHu..]. Qed.

Lemma string_of_Z_digits (z : Z) :
  (0 <= z)%Z -> all_chars is_digit (string_of_Z z) = true /\ string_of_Z z <> "".
Proof.
  intros Hz. unfold string_of_Z. destruct z as [|p|p]; [done| |lia].
  cbn [Z.to_int NilZero.string_of_int]. unfold NilZero.string_of_uint.
  pose proof (uint_digits (Pos.to_uint p)) as Hd.
  pose proof (DecimalPos.Unsigned.to_uint_nonnil p) as Hnil.
  destruct (Pos.to_uint p) eqn:E; [done|split; [exact Hd|discriminate]..].
Qed.

Lemma zeros_digits (k : nat) : all_chars is_digit (zeros k) = true.
Proof. induction k as [|k IH]; [done|]. cbn [zeros all_chars]. by rewrite IH. Qed.

Lemma pad_Z_digits (n : nat) (z : Z) :
  (0 <= z)%Z -> all_chars is_digit (pad_Z n z) = true.
Proof.
  intros Hz. unfold pad_Z, padStart0.
  by rewrite all_chars_app, zeros_digits, (proj1 (string_of_Z_digits z Hz)).
Qed.

(** A property of the numbers below 10000, checked digit by digit. *)
Lemma below_10000 (P : Z -> bool) (z : Z) :
  forallb (fun a => forallb (fun b => forallb (fun c => forallb (fun e =>
    P (1000 * Z.of_nat a + 100 * Z.of_nat b + 10 * Z.of_nat c + Z.of_nat e)%Z)
    (seq 0 10)) (seq 0 10)) (seq 0 10)) (seq 0 10) = true ->
  (0 <= z <= 9999)%Z -> P z = true.
Proof.
  intros Hall Hz.
  pose proof (forallb_below _ _ Hall (Z.to_nat (z / 1000))
                ltac:(Z.to_euclidean_division_equations; lia)) as H1. cbv beta in H1.
  pose proof (forallb_below _ _ H1 (Z.to_nat ((z / 100) mod 10))
                ltac:(Z.to_euclidean_division_equations; lia)) as H2. cbv beta in H2.
  pose proof (forallb_below _ _ H2 (Z.to_nat ((z / 10) mod 10))
                ltac:(Z.to_euclidean_division_equations; lia)) as H3. cbv beta in H3.
  pose proof (forallb_below _ _ H3 (Z.to_nat (z mod 10))
                ltac:(Z.to_euclidean_division_equations; lia)) as H4. cbv beta in H4.
  replace (1000 * Z.of_nat (Z.to_nat (z / 1000))
           + 100 * Z.of_nat (Z.to_nat ((z / 100) mod 10))
           + 10 * Z.of_nat (Z.to_nat ((z / 10) mod 10))
           + Z.of_nat (Z.to_nat (z mod 10)))%Z with z in H4; [done|].
  rewrite !Z2Nat.id by (Z.to_euclidean_division_equations; lia).
  Z.to_euclidean_division_equations; lia.
Qed.

(** A year up to 9999 is padded to four characters, and takes four from
    1000 on. *)
Lemma year_length (z : Z) :
  (0 <= z <= 9999)%Z ->
  String.length (pad_Z 4 z) = 4%nat
  /\ ((1000 <= z)%Z -> String.length (string_of_Z z) = 4%nat).
Proof.
  intros Hz.
  pose proof (below_10000
    (fun z => (String.length (pad_Z 4 z) =? 4)%nat
              && ((z <? 1000)%Z || (String.length (string_of_Z z) =? 4)%nat)) z
    ltac:(vm_compute; reflexivity) Hz) as Hcell.
  cbv beta in Hcell. apply andb_true_iff in Hcell as [Hpad Hlen].
  apply Nat.eqb_eq in Hpad. split; [done|]. intros Hbig.
  apply orb_true_iff in Hlen as [Hlt|Hlen]; [apply Z.ltb_lt in Hlt; lia|].
  by apply Nat.eqb_eq in Hlen.
Qed.

Lemma year_digits (z : Z) :
  (0 <= z <= 9999)%Z ->
  String.length (pad_Z 4 z) = 4%nat /\ all_chars is_digit (pad_Z 4 z) = true.
Proof.
  intros Hz. split; [apply (year_length z Hz)|apply pad_Z_digits; lia].
Qed.

Lemma pad_digits (n : nat) (hi z : Z) :
  forallb (fun i => (String.length (pad_Z n (Z.of_nat i)) =? n)%nat)
          (seq 0 (Z.to_nat hi)) = true ->
  (0 <= z < hi)%Z ->
  String.length (pad_Z n z) = n /\ all_chars is_digit (pad_Z n z) = true.
Proof.
  intros Hall Hz. split; [|apply pad_Z_digits; lia].
  pose proof (forallb_below _ _ Hall (Z.to_nat z) ltac:(lia)) as Hcell.
  cbv beta in Hcell. rewrite Z2Nat.id in Hcell by lia. by apply Nat.eqb_eq in Hcell.
Qed.

Lemma month_day_digits (z : Z) :
  (0 <= z <= 99)%Z ->
  String.length (pad_Z 2 z) = 2%nat /\ all_chars is_digit (pad_Z 2 z) = true.
Proof.
  intros Hz. apply (pad_digits 2 100); [vm_compute; reflexivity|lia].
Qed.

(** The UTC day of a date-time whose UTC year is from 0 to 9999. *)
Lemma iso_day_fields (f : DateFields) :
  (0 <= utcFullYear f <= 9999)%Z -> (1 <= utcMonth f <= 12)%Z ->
  (1 <= utcDate f <= 31)%Z ->
  iso_day (ValidDate f)
  = Ok (pad_Z 4 (utcFullYear f) +:+ "-" +:+ pad_Z 2 (utcMonth f) +:+ "-" +:+
        pad_Z 2 (utcDate f))
  /\ is_iso_date (pad_Z 4 (utcFullYear f) +:+ "-" +:+ pad_Z 2 (utcMonth f) +:+ "-" +:+
                  pad_Z 2 (utcDate f)) = true.
Proof.
  intros Hy Hm Hd.
  destruct (year_digits _ Hy) as [Hly Hdy].
  destruct (month_day_digits (utcMonth f) ltac:(lia)) as [Hlm Hdm].
  destruct (month_day_digits (utcDate f) ltac:(lia)) as [Hld Hdd].
  destruct (iso_date_of_digits _ _ _ Hly Hlm Hld Hdy Hdm Hdd) as [Hiso HnoT].
  split; [|exact Hiso].
  unfold iso_day, toISOString, iso_year.
  cbv beta iota zeta delta [negb mbind result_bind mret result_ret].
  assert ((0 <=? utcFullYear f)%Z && (utcFullYear f <=? 9999)%Z = true) as ->.
  { apply andb_true_iff. split; apply Z.leb_le; lia. }
  f_equal.
  etransitivity; [|exact (split_first_prefix "T" _
    (pad_Z 2 (utcHours f) +:+ ":" +:+ pad_Z 2 (utcMinutes f) +:+ ":" +:+
     pad_Z 2 (utcSeconds f) +:+ "." +:+ pad_Z 3 (utcMilliseconds f) +:+ "Z") HnoT)].
  f_equal. f_equal. by rewrite !append_assoc.
Qed.

(** X8: a valid date-time whose UTC year is from 0 to 9999 is normalized to
    its UTC day, written YYYY-MM-DD with the fields padded: a canonical date. *)
Theorem normalizeDate_valid_Date `{Host} (f : DateFields) :
  (0 <= utcFullYear f <= 9999)%Z -> (1 <= utcMonth f <= 12)%Z ->
  (1 <= utcDate f <= 31)%Z ->
  normalizeDate (VDate (ValidDate f))
  = Ok (pad_Z 4 (utcFullYear f) +:+ "-" +:+ pad_Z 2 (utcMonth f) +:+ "-" +:+
        pad_Z 2 (utcDate f))
  /\ is_iso_date (pad_Z 4 (utcFullYear f) +:+ "-" +:+ pad_Z 2 (utcMonth f) +:+ "-" +:+
                  pad_Z 2 (utcDate f)) = true.
Proof. intros Hy Hm Hd. exact (iso_day_fields f Hy Hm Hd). Qed.

Lemma normalizeDate_valid_Date_witness :
  normalizeDate (H := sample_host) (VDate (ValidDate tuesday_1330)) = Ok "2024-01-02".
Proof.
  refine (proj1 (normalizeDate_valid_Date (H := sample_host) tuesday_1330 _ _ _));
    cbn; lia.
Defined.

Lemma serial_year_text (z : Z) :
  (1000 <= z <= 9999)%Z -> number_to_string (of_Z z) = pad_Z 4 z.
Proof.
  intros Hz. rewrite number_to_string_of_Z by lia.
  destruct (year_length z ltac:(lia)) as [_ Hlen]. unfold pad_Z, padStart0.
  by rewrite Hlen by lia.
Qed.

Lemma serial_field_text (z : Z) :
  (0 <= z <= 99)%Z -> padStart0 2 (number_to_string (of_Z z)) = pad_Z 2 z.
Proof. intros Hz. by rewrite number_to_string_of_Z by lia. Qed.

(** X9: a serial number above 30000 that the decoder resolves to a day of a
    four-digit year is normalized to that day, written YYYY-MM-DD with the
    month and the day padded: a canonical date. *)
Theorem normalizeDate_serial_canonical `{Host} (n : number) (dt : SSF.date) :
  gt n (of_Z 30000) = true -> parse_date_code n = Some dt ->
  (1000 <= SSF.y dt <= 9999)%Z -> (1 <= SSF.m dt <= 12)%Z -> (1 <= SSF.d dt <= 31)%Z ->
  normalizeDate (VNumber n)
  = Ok (pad_Z 4 (SSF.y dt) +:+ "-" +:+ pad_Z 2 (SSF.m dt) +:+ "-" +:+ pad_Z 2 (SSF.d dt))
  /\ is_iso_date (pad_Z 4 (SSF.y dt) +:+ "-" +:+ pad_Z 2 (SSF.m dt) +:+ "-" +:+
                  pad_Z 2 (SSF.d dt)) = true.
Proof.
  intros Hgt Hdec Hy Hm Hd.
  destruct (year_digits (SSF.y dt) ltac:(lia)) as [Hly Hdy].
  destruct (month_day_digits (SSF.m dt) ltac:(lia)) as [Hlm Hdm].
  destruct (month_day_digits (SSF.d dt) ltac:(lia)) as [Hld Hdd].
  split; [|exact (proj1 (iso_date_of_digits _ _ _ Hly Hlm Hld Hdy Hdm Hdd))].
  unfold normalizeDate.
  rewrite (number_gt_truthy n 30000) by (done || lia).
  cbv beta iota zeta delta [negb]. rewrite Hgt, Hdec.
  by rewrite serial_year_text, !serial_field_text by lia.
Qed.

Lemma normalizeDate_serial_canonical_witness :
  normalizeDate (H := decoding_host) (VNumber (of_Z 45293)) = Ok "2024-01-02".
Proof.
  refine (proj1 (normalizeDate_serial_canonical (H := decoding_host) (of_Z 45293)
                   {| SSF.y := 2024; SSF.m := 1; SSF.d := 2 |} _ _ _ _ _));
    [vm_compute; reflexivity|reflexivity|cbn; lia..].
Defined.

(** The path of a text never throws. *)
Ltac generic_returns :=
  match goal with
  | |- context [is_iso_date ?str] =>
      destruct (is_iso_date str); [discriminate|];
      destruct (Date_parse str); cbn; discriminate
  end.

(** What makes normalizeDate throw. *)
Lemma normalizeDate_throw_inv `{Host} (v : value) (e : exn) :
  normalizeDate v = Throw e ->
  (v = VDate InvalidDate /\ e = RangeError)
  \/ (exists n, v = VNumber n /\ gt n (of_Z 30000) = true
                /\ parse_date_code n = None /\ e = TypeError).
Proof.
  unfold normalizeDate. destruct (truthy v) eqn:Htr; cbv beta iota zeta delta [negb];
    [|discriminate].
  destruct v as [| |b|n|s|[|f]]; try discriminate Htr.
  - generic_returns.
  - destruct (gt n (of_Z 30000)) eqn:Hgt; [|generic_returns].
    destruct (parse_date_code n) eqn:Hdec; [discriminate|].
    intros [= <-]. right. by exists n.
  - generic_returns.
  - cbn. intros [= <-]. by left.
  - unfold iso_day, toISOString. cbn [mbind result_bind mret result_ret]. discriminate.
Qed.

(** X10: normalizeDate throws in two cases only: a RangeError on an invalid
    date object, and a TypeError on a number above 30000 that the serial
    decoder rejects.  On every other value it returns. *)
Theorem normalizeDate_throws_iff `{Host} (v : value) (e : exn) :
  normalizeDate v = Throw e
  <-> (v = VDate InvalidDate /\ e = RangeError)
      \/ (exists n, v = VNumber n /\ gt n (of_Z 30000) = true
                    /\ parse_date_code n = None /\ e = TypeError).
Proof.
  split; [apply normalizeDate_throw_inv|].
  intros [[-> ->]|(n & -> & Hgt & Hdec & ->)]; [reflexivity|].
  unfold normalizeDate. rewrite (number_gt_truthy n 30000) by (done || lia).
  cbv beta iota zeta delta [negb]. by rewrite Hgt, Hdec.
Qed.

(** ** Export, then import *)

Lemma digits_lower (s : string) : all_chars is_digit s = true -> toLowerCase s = s.
Proof.
  induction s as [|c s IH]; [done|]. cbn [all_chars toLowerCase].
  intros [Hc Hs]%andb_true_iff. by rewrite (digit_lower c Hc), IH.
Qed.

Lemma digits_exclude (c : ascii) (sub s : string) :
  is_digit c = false -> all_chars is_digit s = true -> includes (String c sub) s = false.
Proof.
  intros Hc. induction s as [|d s IH]; [done|]. cbn [all_chars includes String.prefix].
  intros [Hd Hs]%andb_true_iff. destruct (ascii_dec c d) as [->|_]; [congruence|by apply IH].
Qed.

Section RoundTrip.
Context `{Host}.

Lemma skip_row_data_row (c : Z) (s : Session) :
  (1 <= c)%Z -> skip_row (data_row c s) = false.
Proof.
  intros Hc. unfold skip_row. cbn [data_row length Nat.ltb Nat.leb orb].
  change (cell (data_row c s) 0) with (VNumber (of_Z c)).
  assert (truthy (VNumber (of_Z c)) = true) as Htr.
  { apply (number_gt_truthy _ 0); [done|]. unfold gt, lt, of_Z.
    apply negb_true_iff. destruct (Qle_bool (inject_Z c) (inject_Z 0)) eqn:E; [|done].
    apply Qle_bool_iff in E. unfold Qle in E. cbn in E. lia. }
  unfold or_else. rewrite Htr. cbn [String_].
  rewrite number_to_string_of_Z by lia.
  destruct (string_of_Z_digits c ltac:(lia)) as [Hd _].
  rewrite (digits_lower _ Hd). cbv zeta.
  by rewrite !digits_exclude.
Qed.

Lemma or_else_text (x d : string) :
  String_ (or_else (VString x) (VString d)) = if nonempty x then x else d.
Proof. unfold or_else, nonempty. cbn [truthy]. by destruct (negb (x =? "")%string). Qed.


Lemma text_or_empty (x : string) :
  (if truthy (VString x) then String_ (VString x) else "") = x.
Proof. cbn [truthy String_]. by destruct (String.eqb_spec x "") as [->|]. Qed.


(** The importer reads the row of an exportable session back. *)
Lemma import_row_data_row (squad : string) (all : list Session) (tracker : string)
    (c : Z) (s : Session) :
  (1 <= c)%Z -> exportable s ->
  import_row squad (all, tracker) (data_row c s)
  = Ok (all ++ [reimported squad (length all) s], date s).
Proof.
  intros Hc (Hdate & Hne & Hfrom & Hto).
  rewrite (import_row_eq squad all tracker (data_row c s) (date s))
    by exact (canonical_text_normalized _ Hdate).
  rewrite (skip_row_data_row c s Hc). cbv zeta.
  change (cell (data_row c s) 2) with (VString (from s)).
  rewrite (railway_text_normalized _ Hfrom).
  assert (date s <> "") as Hd by (intros E; by rewrite E in Hdate).
  rewrite !(proj2 (nonempty_true (date s)) Hd), (proj2 (nonempty_true (from s)) Hne).
  cbn [negb andb].
  do 3 f_equal. unfold new_session, reimported.
  change (cell (data_row c s) 2) with (VString (from s)).
  change (cell (data_row c s) 3) with (VString (to s)).
  change (cell (data_row c s) 4) with (VString (course_id s)).
  change (cell (data_row c s) 5) with (VString (lu_id s)).
  change (cell (data_row c s) 6) with (VString (mentor_id s)).
  rewrite !or_else_text, (railway_text_normalized _ Hfrom), (railway_text_normalized _ Hto).
  by rewrite text_or_empty.
Qed.

Lemma import_rows_dataRows (squad : string) (l : list Session) :
  Forall exportable l ->
  forall (all : list Session) (tracker currentDate : string) (n : Z),
    (0 <= n)%Z ->
    import_rows squad (all, tracker) (dataRows currentDate n l)
    = Ok (all ++ imap (fun k => reimported squad (length all + k)) l,
          default tracker (date <$> last l)).
Proof.
  induction 1 as [|s l Hs Hl IH]; intros all tracker currentDate n Hn.
  - cbn. by rewrite app_nil_r.
  - cbn [dataRows].
    destruct (decide (date s <> currentDate)) as [Hd|Hd].
    + cbn [import_rows]. rewrite import_row_data_row by (done || lia).
      cbn [mbind result_bind]. rewrite IH by lia.
      f_equal. f_equal.
      * rewrite imap_cons, <- app_assoc. cbn [app]. rewrite Nat.add_0_r. do 2 f_equal.
        apply imap_ext. intros i x _. cbn. f_equal. rewrite length_app. cbn. lia.
      * destruct l as [|s' l']; [done|].
        change (last (s :: s' :: l')) with (last (s' :: l')). apply tracked_after_push.
    + cbn [import_rows]. rewrite import_row_data_row by (done || lia).
      cbn [mbind result_bind]. rewrite IH by lia.
      f_equal. f_equal.
      * rewrite imap_cons, <- app_assoc. cbn [app]. rewrite Nat.add_0_r. do 2 f_equal.
        apply imap_ext. intros i x _. cbn. f_equal. rewrite length_app. cbn. lia.
      * destruct l as [|s' l']; [done|].
        change (last (s :: s' :: l')) with (last (s' :: l')). apply tracked_after_push.
Qed.

(** X11: round trip.  When the sessions of the squad are in the canonical
    forms and the squad id gives a label, the importer applied to the rows of
    an export resolves with the exported sessions, in the order of the file:
    each with the next identifier drawn and the label of the first cell as
    its squad, and with the date, the from, the to and the learning unit it
    had; the course and the mentor come back too, an empty one as its place
    holder. *)
Theorem export_import_round_trip (ss : list Session) (squadId : squad_id) (now : Date) :
  (forall s, s ∈ ss -> squad_matches squadId s -> exportable s) ->
  extractSquadFromA1 (value_of_squad squadId) <> "" ->
  parseExcelFile [aoa (export_file ss squadId now)]
  = Ok (imap (reimported (extractSquadFromA1 (value_of_squad squadId)))
             (sortedSessions ss squadId)).
Proof.
  intros Hexp Hsquad. unfold parseExcelFile, export_file. cbn [aoa import_sheets].
  unfold import_sheet. change (cell [value_of_squad squadId] 0) with (value_of_squad squadId).
  rewrite (proj2 (nonempty_true _) Hsquad). cbn [import_rows].
  assert (import_row (extractSquadFromA1 (value_of_squad squadId)) ([], "") columnHeaders
          = Ok ([], "")) as -> by (vm_compute; reflexivity).
  cbn [mbind result_bind]. unfold export_rows.
  rewrite import_rows_dataRows; [reflexivity| |lia].
  apply Forall_forall. intros s Hs. unfold sortedSessions in Hs.
  apply sort_with_elem, list_elem_of_filter in Hs as [Hm Hs]. by apply Hexp.
Qed.

End RoundTrip.

Lemma export_import_round_trip_witness :
  parseExcelFile (H := sample_host)
    [aoa (export_file (H := sample_host) [advanced_1030; intro_0830] (SquadStr "4")
            (ValidDate tuesday_1330))]
  = Ok [intro_0830; advanced_1030].
Proof.
  refine (eq_trans (export_import_round_trip (H := sample_host)
                      [advanced_1030; intro_0830] (SquadStr "4")
                      (ValidDate tuesday_1330) _ _) _).
  - intros s Hs _.
    repeat (apply elem_of_cons in Hs as [-> |Hs]);
      [repeat split; (reflexivity || discriminate)..|by apply elem_of_nil in Hs].
  - vm_compute. discriminate.
  - vm_compute. reflexivity.
Defined.

(** ** The sessions of an import *)

Section ImportShape.
Context `{Host}.

Lemma normalizeDate_returns (v : value) :
  safe_date_cell v -> exists r, normalizeDate v = Ok r.
Proof.
  intros [Hdate Hnum]. destruct (normalizeDate v) as [r|e] eqn:E; [by exists r|].
  apply normalizeDate_throw_inv in E as [[-> _]|(n & -> & Hgt & Hdec & _)]; [done|].
  by destruct (Hnum n eq_refl Hgt).
Qed.

(** What an iteration does to the sessions pushed so far. *)
Lemma import_row_cases squad all tracker row all' tracker' :
  import_row squad (all, tracker) row = Ok (all', tracker') ->
  (all' = all /\ tracker' = tracker)
  \/ (all' = all ++ [new_session squad (length all) tracker' row]).
Proof.
  unfold import_row. destruct (skip_row row); [intros [= <- <-]; by left|].
  destruct (normalizeDate (cell row 1)) as [normalized|e]; [|discriminate].
  cbn [mbind result_bind].
  destruct (nonempty (normalizeTime (cell row 2)) && _); intros [= <- <-]; [by right|by left].
Qed.

Lemma import_rows_new squad rows : forall all tracker all' tracker',
  import_rows squad (all, tracker) rows = Ok (all', tracker') ->
  exists new, all' = all ++ new
    /\ Forall (fun s => squad_number s = SquadStr squad) new
    /\ id <$> new = random_id <$> seq (length all) (length new).
Proof.
  induction rows as [|row rows IH]; intros all tracker all' tracker'.
  - intros [= <- <-]. exists []. by rewrite app_nil_r.
  - cbn [import_rows].
    destruct (import_row squad (all, tracker) row) as [[all1 t1]|e] eqn:Hrow; [|discriminate].
    cbn [mbind result_bind]. intros Hrest.
    apply IH in Hrest as (new & -> & Hsq & Hid).
    apply import_row_cases in Hrow as [[-> ->]| ->]; [by exists new|].
    eexists (_ :: new). rewrite <- app_assoc. split; [reflexivity|].
    split; [by constructor|].
    rewrite length_app in Hid. cbn [length] in *. cbn [fmap list_fmap seq].
    f_equal. fold (fmap (M := list) id new). rewrite Hid. f_equal. f_equal. lia.
Qed.

Lemma import_sheet_new all rawData all' :
  import_sheet all rawData = Ok all' ->
  exists new, all' = all ++ new
    /\ Forall (fun s => exists q, q ∈ sheet_squads [rawData] /\ squad_number s = SquadStr q) new
    /\ id <$> new = random_id <$> seq (length all) (length new).
Proof.
  unfold import_sheet. destruct rawData as [|row0 rows].
  { intros [= <-]. exists []. by rewrite app_nil_r. }
  destruct (nonempty (extractSquadFromA1 (cell row0 0))) eqn:Hsq.
  - destruct (import_rows _ (all, "") rows) as [[all1 t1]|e] eqn:Hrows; [|discriminate].
    cbn [mbind result_bind fst]. intros [= <-].
    apply import_rows_new in Hrows as (new & -> & Hnew & Hid).
    exists new. split; [done|]. split; [|done].
    eapply Forall_impl; [exact Hnew|]. intros s Hs. eexists. split; [|exact Hs].
    unfold sheet_squads. cbn [fmap list_fmap]. apply list_elem_of_filter.
    split; [by apply nonempty_true|]. by left.
  - intros [= <-]. exists []. by rewrite app_nil_r.
Qed.

Lemma sheet_squads_cons rawData workbook :
  sheet_squads (rawData :: workbook) = sheet_squads [rawData] ++ sheet_squads workbook.
Proof. unfold sheet_squads. by rewrite fmap_cons, <- filter_app. Qed.

Lemma import_sheets_new sheets : forall all all',
  import_sheets all sheets = Ok all' ->
  exists new, all' = all ++ new
    /\ Forall (fun s => exists q, q ∈ sheet_squads sheets /\ squad_number s = SquadStr q) new
    /\ id <$> new = random_id <$> seq (length all) (length new).
Proof.
  induction sheets as [|rawData sheets IH]; intros all all'.
  { intros [= <-]. exists []. by rewrite app_nil_r. }
  cbn [import_sheets]. destruct (import_sheet all rawData) as [all1|e] eqn:Hsheet; [|discriminate].
  cbn [mbind result_bind]. intros Hrest.
  apply import_sheet_new in Hsheet as (new1 & -> & Hsq1 & Hid1).
  apply IH in Hrest as (new2 & -> & Hsq2 & Hid2).
  exists (new1 ++ new2). rewrite <- app_assoc. split; [done|]. split.
  - rewrite sheet_squads_cons. apply Forall_app. split.
    + eapply Forall_impl; [exact Hsq1|]. intros s (q & Hq & Hs). exists q.
      split; [|done]. apply elem_of_app. by left.
    + eapply Forall_impl; [exact Hsq2|]. intros s (q & Hq & Hs). exists q.
      split; [|done]. apply elem_of_app. by right.
  - rewrite fmap_app, Hid1, Hid2, !length_app, seq_app, fmap_app. done.
Qed.

(** X12: the sessions of an import: the identifiers are the draws of the random
    source in order, and each session carries the squad label of a sheet of
    the workbook, which is not empty. *)
Theorem parseExcelFile_sessions (workbook : list (list (list value))) (data : list Session) :
  parseExcelFile workbook = Ok data ->
  id <$> data = random_id <$> seq 0 (length data)
  /\ ((forall i j, random_id i = random_id j -> i = j) -> NoDup (id <$> data))
  /\ (forall s, s ∈ data ->
        exists q, q ∈ sheet_squads workbook /\ q <> "" /\ squad_number s = SquadStr q).
Proof.
  intros Himp. apply import_sheets_new in Himp as (new & -> & Hsq & Hid).
  cbn [app length] in *. split; [done|]. split.
  - intros Hinj. rewrite Hid. apply NoDup_fmap_2; [|apply NoDup_seq].
    intros i j. apply Hinj.
  - intros s Hs. destruct (proj1 (Forall_forall _ _) Hsq s Hs) as (q & Hq & Hsquad).
    exists q. split; [done|]. split; [|done].
    unfold sheet_squads in Hq. by apply list_elem_of_filter in Hq as [Hne _].
Qed.

Lemma normalizeDate_returns_iff (v : value) :
  (exists r, normalizeDate v = Ok r) <-> safe_date_cell v.
Proof.
  split; [|apply normalizeDate_returns]. intros [r Hr]. split.
  - intros ->. discriminate Hr.
  - intros n -> Hgt Hdec. unfold normalizeDate in Hr.
    rewrite (number_gt_truthy n 30000) in Hr by (done || lia).
    cbv beta iota zeta delta [negb] in Hr. by rewrite Hgt, Hdec in Hr.
Qed.

(** The row loop returns exactly when the date cell of every row it reads is
    safe. *)
Lemma import_rows_returns_iff squad rows : forall st,
  (exists st', import_rows squad st rows = Ok st')
  <-> Forall (fun row => safe_date_cell (cell row 1))
             (filter (fun row => skip_row row = false) rows).
Proof.
  induction rows as [|row rows IH]; intros [all tracker]; cbn [import_rows].
  { split; [constructor|by eexists]. }
  rewrite filter_cons. unfold import_row. destruct (skip_row row) eqn:Hskip.
  - cbn [mbind result_bind]. rewrite decide_False by done. apply IH.
  - rewrite decide_True by done. rewrite Forall_cons, <- normalizeDate_returns_iff.
    destruct (normalizeDate (cell row 1)) as [r|e]; cbn [mbind result_bind].
    + destruct (nonempty _ && nonempty _); cbn [mbind result_bind];
        rewrite IH; split; [intros ?; split; [by eexists|done]|by intros [_ ?]
                           |intros ?; split; [by eexists|done]|by intros [_ ?]].
    + split; [by intros [? ?]|by intros [[? ?] _]].
Qed.

Lemma import_sheets_returns_iff sheets : forall all,
  (exists all', import_sheets all sheets = Ok all')
  <-> Forall (fun rawData => Forall (fun row => safe_date_cell (cell row 1))
                                    (rows_read rawData)) sheets.
Proof.
  induction sheets as [|rawData sheets IH]; intros all.
  { split; [constructor|by eexists]. }
  cbn [import_sheets]. rewrite Forall_cons. unfold import_sheet, rows_read.
  destruct rawData as [|row0 rows].
  { cbn [mbind result_bind]. rewrite IH. split; [by split|by intros [_ ?]]. }
  destruct (nonempty (extractSquadFromA1 (cell row0 0))).
  - rewrite <- (import_rows_returns_iff (extractSquadFromA1 (cell row0 0)) rows (all, "")).
    destruct (import_rows _ (all, "") rows) as [st'|e]; cbn [mbind result_bind].
    + rewrite IH. split; [intros ?; split; [by eexists|done]|by intros [_ ?]].
    + split; [by intros [? ?]|by intros [[? ?] _]].
  - cbn [mbind result_bind]. rewrite IH. split; [by split|by intros [_ ?]].
Qed.

(** X13: the import resolves exactly when the date cell of every row it reads is
    safe; otherwise it rejects. *)
Theorem parseExcelFile_resolves_iff (workbook : list (list (list value))) :
  (exists data, parseExcelFile workbook = Ok data)
  <-> (forall rawData row, rawData ∈ workbook -> row ∈ rows_read rawData ->
                           safe_date_cell (cell row 1)).
Proof.
  unfold parseExcelFile. rewrite import_sheets_returns_iff, Forall_forall.
  split.
  - intros Hall rawData row Hsheet Hrow.
    exact (proj1 (Forall_forall _ _) (Hall rawData Hsheet) row Hrow).
  - intros Hall rawData Hsheet. apply Forall_forall. eauto.
Qed.

Lemma renumbered_app k l1 l2 :
  renumbered k (l1 ++ l2) = renumbered k l1 ++ renumbered (k + length l1) l2.
Proof.
  unfold renumbered. rewrite imap_app. f_equal. apply imap_ext. intros j s _.
  cbn. by rewrite Nat.add_assoc.
Qed.

Lemma renumbered_length k l : length (renumbered k l) = length l.
Proof. apply length_imap. Qed.

Lemma renumbered_new k squad j sessionDate row :
  renumbered k [new_session squad j sessionDate row] = [new_session squad k sessionDate row].
Proof. unfold renumbered. cbn [imap]. by rewrite Nat.add_0_r. Qed.

(** An iteration on a longer list of sessions pushed before does the same,
    with the identifier drawn later. *)
Lemma import_row_shift squad pre all tracker row :
  import_row squad (pre ++ renumbered (length pre) all, tracker) row
  = match import_row squad (all, tracker) row with
    | Ok (all', tracker') => Ok (pre ++ renumbered (length pre) all', tracker')
    | Throw e => Throw e
    end.
Proof.
  unfold import_row. destruct (skip_row row); [reflexivity|].
  destruct (normalizeDate (cell row 1)) as [normalized|e]; [|reflexivity].
  cbn [mbind result_bind]. destruct (nonempty _ && nonempty _); [|reflexivity].
  by rewrite renumbered_app, app_assoc, length_app, renumbered_length, renumbered_new.
Qed.

Lemma import_rows_shift squad pre rows : forall all tracker,
  import_rows squad (pre ++ renumbered (length pre) all, tracker) rows
  = match import_rows squad (all, tracker) rows with
    | Ok (all', tracker') => Ok (pre ++ renumbered (length pre) all', tracker')
    | Throw e => Throw e
    end.
Proof.
  induction rows as [|row rows IH]; intros all tracker; [reflexivity|].
  cbn [import_rows]. rewrite import_row_shift.
  destruct (import_row squad (all, tracker) row) as [[all1 t1]|e]; [|reflexivity].
  cbn [mbind result_bind]. apply IH.
Qed.

Lemma import_sheet_shift pre all rawData :
  import_sheet (pre ++ renumbered (length pre) all) rawData
  = match import_sheet all rawData with
    | Ok all' => Ok (pre ++ renumbered (length pre) all')
    | Throw e => Throw e
    end.
Proof.
  unfold import_sheet. destruct rawData as [|row0 rows]; [reflexivity|].
  destruct (nonempty _); [|reflexivity]. rewrite import_rows_shift.
  by destruct (import_rows _ (all, "") rows) as [[all1 t1]|e].
Qed.

Lemma import_sheets_shift pre sheets : forall all,
  import_sheets (pre ++ renumbered (length pre) all) sheets
  = match import_sheets all sheets with
    | Ok all' => Ok (pre ++ renumbered (length pre) all')
    | Throw e => Throw e
    end.
Proof.
  induction sheets as [|rawData sheets IH]; intros all; [reflexivity|].
  cbn [import_sheets]. rewrite import_sheet_shift.
  destruct (import_sheet all rawData) as [all1|e]; [|reflexivity].
  cbn [mbind result_bind]. apply IH.
Qed.

Lemma import_sheets_app sheets1 sheets2 : forall all,
  import_sheets all (sheets1 ++ sheets2)
  = match import_sheets all sheets1 with
    | Ok all' => import_sheets all' sheets2
    | Throw e => Throw e
    end.
Proof.
  induction sheets1 as [|rawData sheets1 IH]; intros all; [reflexivity|].
  cbn [app import_sheets]. destruct (import_sheet all rawData) as [all1|e]; [|reflexivity].
  cbn [mbind result_bind]. apply IH.
Qed.

(** X14: the sheets of a workbook are imported one after the other and
    independently: the import of two workbooks put together is the import
    of the first followed by the import of the second, whose sessions get
    the identifiers drawn after those of the first; and it rejects as the
    first of the two that rejects does. *)
Theorem parseExcelFile_app (workbook1 workbook2 : list (list (list value))) :
  parseExcelFile (workbook1 ++ workbook2)
  = match parseExcelFile workbook1 with
    | Ok data1 =>
        match parseExcelFile workbook2 with
        | Ok data2 => Ok (data1 ++ renumbered (length data1) data2)
        | Throw e => Throw e
        end
    | Throw e => Throw e
    end.
Proof.
  unfold parseExcelFile. rewrite import_sheets_app.
  destruct (import_sheets [] workbook1) as [data1|e]; [|reflexivity].
  pose proof (import_sheets_shift data1 workbook2 []) as Hshift.
  unfold renumbered at 1 in Hshift. cbn [imap] in Hshift. by rewrite app_nil_r in Hshift.
Qed.

End ImportShape.

(** ** extractSquadFromA1 *)

Lemma take_digits_digits (s : string) : all_chars is_digit (take_digits s) = true.
Proof.
  induction s as [|c s IH]; [done|]. cbn [take_digits].
  destruct (is_digit c) eqn:Hc; [|done]. cbn [all_chars]. by rewrite Hc, IH.
Qed.

Lemma take_digits_fixed (s : string) : all_chars is_digit s = true -> take_digits s = s.
Proof.
  induction s as [|c s IH]; [done|]. cbn [all_chars take_digits].
  intros [Hc Hs]%andb_true_iff. by rewrite Hc, IH.
Qed.

Lemma match_digits_Some (s m : string) :
  match_digits s = Some m -> m <> "" /\ all_chars is_digit m = true.
Proof.
  revert m. induction s as [|c s IH]; intros m; [done|]. cbn [match_digits].
  destruct (is_digit c) eqn:Hc; [|apply IH]. intros [= <-]. split.
  - cbn [take_digits]. by rewrite Hc.
  - apply (take_digits_digits (String c s)).
Qed.

Lemma match_digits_None (s : string) :
  match_digits s = None <-> all_chars (fun c => negb (is_digit c)) s = true.
Proof.
  induction s as [|c s IH]; [done|]. cbn [match_digits all_chars].
  destruct (is_digit c); [done|]. exact IH.
Qed.

Lemma match_digits_fixed (s : string) :
  s <> "" -> all_chars is_digit s = true -> match_digits s = Some s.
Proof.
  destruct s as [|c s]; [done|]. intros _ Hs. cbn [match_digits].
  pose proof Hs as Hs'. cbn [all_chars] in Hs'. apply andb_true_iff in Hs' as [-> _].
  by rewrite take_digits_fixed.
Qed.

Section Squad.
Context `{Host}.

(** What extractSquadFromA1 gives on a text. *)
Lemma extractSquadFromA1_text (s : string) :
  extractSquadFromA1 (VString s)
  = match match_digits (trim s) with Some m0 => m0 | None => trim s end.
Proof. destruct s as [|c s]; [reflexivity|]. reflexivity. Qed.

(** X15: the squad label of a sheet is a run of digits, or a text without any
    digit and without white space around it; reading the label again gives
    the label. *)
Theorem extractSquadFromA1_label (v : value) :
  extractSquadFromA1 (VString (extractSquadFromA1 v)) = extractSquadFromA1 v
  /\ (all_chars is_digit (extractSquadFromA1 v) = true
      \/ (all_chars (fun c => negb (is_digit c)) (extractSquadFromA1 v) = true
          /\ trim (extractSquadFromA1 v) = extractSquadFromA1 v)).
Proof.
  assert (forall str,
    let r := match match_digits (trim str) with Some m0 => m0 | None => trim str end in
    extractSquadFromA1 (VString r) = r
    /\ (all_chars is_digit r = true
        \/ (all_chars (fun c => negb (is_digit c)) r = true /\ trim r = r))) as Hgen.
  { intros str. cbv zeta. rewrite extractSquadFromA1_text.
    destruct (match_digits (trim str)) as [m0|] eqn:E.
    - apply match_digits_Some in E as [Hne Hd].
      rewrite (trim_digits m0 Hd), (match_digits_fixed m0 Hne Hd). split; [done|by left].
    - rewrite trim_trim, E. split; [done|]. right. split; [|done].
      by apply match_digits_None. }
  destruct v as [| |b|n|s|d]; try (split; [reflexivity|by left]);
    try apply (Hgen (String_ _)).
  destruct s as [|c s]; [split; [reflexivity|by left]|].
  apply (Hgen (String c s)).
Qed.

(** A squad number is read as its decimal digits. *)
Lemma extractSquadFromA1_number (z : Z) :
  (0 <= z)%Z -> extractSquadFromA1 (VNumber (of_Z z)) = string_of_Z z.
Proof.
  intros Hz. unfold extractSquadFromA1. cbn [String_].
  rewrite number_to_string_of_Z by done.
  destruct (string_of_Z_digits z Hz) as [Hd Hne].
  by rewrite (trim_digits _ Hd), (match_digits_fixed _ Hne Hd).
Qed.

End Squad.

(** ** The sessions the editor holds *)

Lemma filter_all {A : Type} (P : A -> Prop) `{!forall x, Decision (P x)} (l : list A) :
  Forall P l -> filter P l = l.
Proof.
  induction 1 as [|x l Hx Hl IH]; [done|]. by rewrite filter_cons, decide_True, IH.
Qed.

(** Removing the sessions with the identifier of [s], which stands in [l]
    alone with it, removes one identifier. *)
Lemma ids_remove (s : Session) (l : list Session) :
  NoDup (id <$> l) -> s ∈ l ->
  id <$> l ≡ₚ id s :: (id <$> filter (fun x => id x <> id s) l).
Proof.
  induction l as [|x l IH]; intros Hnd Hin; [by apply elem_of_nil in Hin|].
  rewrite fmap_cons in Hnd. apply NoDup_cons in Hnd as [Hx Hnd].
  rewrite filter_cons. apply elem_of_cons in Hin as [<-|Hin].
  - rewrite decide_False by (intros Hne; by apply Hne).
    rewrite fmap_cons. f_equiv.
    assert (filter (fun x => id x <> id s) l = l) as ->; [|done].
    apply filter_all. apply Forall_forall. intros y Hy Heq. apply Hx.
    rewrite <- Heq. by apply list_elem_of_fmap_2.
  - assert (id x <> id s) as Hne.
    { intros Heq. apply Hx. rewrite Heq. by apply list_elem_of_fmap_2. }
    rewrite decide_True by done. rewrite !fmap_cons, (IH Hnd Hin). apply Permutation_swap.
Qed.

(** Filtering out an identifier that does not occur changes nothing. *)
Lemma filter_absent (j : string) (l : list Session) :
  j ∉ id <$> l -> filter (fun x => id x <> j) l = l.
Proof.
  intros Hj. apply filter_all. apply Forall_forall. intros y Hy Heq. apply Hj.
  rewrite <- Heq. by apply list_elem_of_fmap_2.
Qed.

Lemma held_ids_app (st : AppState) :
  held_ids st = (id <$> sessions st) ++ (id <$> parkingLot st).
Proof. unfold held_ids. by rewrite fmap_app. Qed.

(** A gesture keeps the identifiers held, but for the one it discards. *)
Lemma perform_held_ids (st : AppState) (g : gesture) :
  NoDup (held_ids st) -> enabled st g ->
  match g with
  | Discard s => held_ids st ≡ₚ id s :: held_ids (perform st g)
  | _ => held_ids (perform st g) ≡ₚ held_ids st
  end.
Proof.
  rewrite !held_ids_app. intros Hnd Hen.
  apply NoDup_app in Hnd as (Hs & Hdisj & Hp).
  destruct g as [s [|] now targetDate targetSlot|s [|]|s|q]; cbn [perform enabled] in *.
  - unfold onDropToTimetable. cbn [sessions parkingLot].
    change (id s) with (id (updatedSession st s targetDate targetSlot)).
    by rewrite ids_replace.
  - destruct Hen as (Hin & _). cbn [shown] in Hin.
    unfold onDropToTimetable. cbn [sessions parkingLot].
    rewrite fmap_app. cbn [fmap list_fmap updatedSession id].
    rewrite (ids_remove s (parkingLot st) Hp Hin).
    rewrite <- app_assoc. cbn [app]. done.
  - cbn [shown] in Hen. unfold onDropToParking. cbn [sessions parkingLot].
    rewrite fmap_app. cbn [fmap list_fmap].
    rewrite (ids_remove s (sessions st) Hs Hen).
    by rewrite app_assoc, <- Permutation_cons_append.
  - done.
  - unfold discard. cbn [sessions parkingLot].
    rewrite (ids_remove s (parkingLot st) Hp Hen).
    by rewrite <- Permutation_middle.
  - done.
Qed.

Lemma perform_ids_distinct (st : AppState) (g : gesture) :
  NoDup (held_ids st) -> enabled st g -> NoDup (held_ids (perform st g)).
Proof.
  intros Hnd Hen. pose proof (perform_held_ids st g Hnd Hen) as Hperm.
  destruct g; try (by rewrite Hperm).
  rewrite Hperm in Hnd. by apply NoDup_cons in Hnd as [_ ?].
Qed.

Lemma loaded_held_ids (data : list Session) : held_ids (loaded data) = id <$> data.
Proof. unfold held_ids, loaded. cbn [sessions parkingLot]. by rewrite app_nil_r. Qed.

Lemma reachable_held_ids (init st : AppState) :
  NoDup (held_ids init) -> reachable init st ->
  NoDup (held_ids st) /\ held_ids st ⊆+ held_ids init.
Proof.
  intros Hinit. induction 1 as [|st g Hreach [IHnd IHsub] Hen]; [done|].
  split; [by apply perform_ids_distinct|].
  pose proof (perform_held_ids st g IHnd Hen) as Hperm.
  destruct g; try (by rewrite Hperm).
  etransitivity; [|exact IHsub]. rewrite Hperm. by apply submseteq_cons.
Qed.

(** X16: the editor neither loses nor duplicates a session: in every state
    reached from an import whose identifiers are distinct, the identifiers
    held are distinct and are identifiers of the import; a gesture keeps the
    identifiers held, but for a discard, which removes the one discarded. *)
Theorem editor_keeps_ids (data : list Session) (st : AppState) (g : gesture) :
  NoDup (id <$> data) -> reachable (loaded data) st -> enabled st g ->
  NoDup (held_ids st)
  /\ held_ids st ⊆+ id <$> data
  /\ match g with
     | Discard s => held_ids st ≡ₚ id s :: held_ids (perform st g)
     | _ => held_ids (perform st g) ≡ₚ held_ids st
     end
  /\ length (sessions (perform st g)) + length (parkingLot (perform st g))
     = length (sessions st) + length (parkingLot st)
       - match g with Discard _ => 1 | _ => 0 end.
Proof.
  intros Hdata Hreach Hen.
  rewrite <- loaded_held_ids in Hdata.
  destruct (reachable_held_ids _ _ Hdata Hreach) as [Hnd Hsub].
  rewrite loaded_held_ids in Hsub.
  pose proof (perform_held_ids st g Hnd Hen) as Hperm.
  split; [done|]. split; [done|]. split; [done|].
  assert (forall st0, length (held_ids st0)
                      = length (sessions st0) + length (parkingLot st0)) as Hlen.
  { intros st0. unfold held_ids. by rewrite length_fmap, length_app. }
  rewrite <- !Hlen.
  destruct g; try (rewrite Hperm; lia).
  rewrite Hperm. cbn [length]. lia.
Qed.

(** X17: a gesture leaves every session it does not drag where it is and as it
    is. *)
Theorem gesture_frame (st : AppState) (g : gesture) (x : Session) :
  ~ touches g (id x) ->
  (x ∈ sessions (perform st g) <-> x ∈ sessions st)
  /\ (x ∈ parkingLot (perform st g) <-> x ∈ parkingLot st).
Proof.
  intros Hx.
  destruct g as [s [|] now targetDate targetSlot|s [|]|s|q];
    cbn [perform touches] in *.
  - unfold onDropToTimetable. cbn [sessions parkingLot]. split; [|done].
    rewrite list_elem_of_fmap. split.
    + intros (y0 & -> & Hy). destruct (decide (id y0 = id s)); [|done].
      by destruct Hx.
    + intros Hin. exists x. by rewrite decide_False.
  - unfold onDropToTimetable. cbn [sessions parkingLot]. split.
    + rewrite elem_of_app, list_elem_of_singleton. split; [|by left].
      intros [Hin| ->]; [done|]. by destruct Hx.
    + rewrite list_elem_of_filter. split; [by intros [_ ?]|done].
  - unfold onDropToParking. cbn [sessions parkingLot]. split.
    + rewrite list_elem_of_filter. split; [by intros [_ ?]|done].
    + rewrite elem_of_app, list_elem_of_singleton. split; [|by left].
      intros [Hin| ->]; [done|]. by destruct Hx.
  - done.
  - unfold discard. cbn [sessions parkingLot]. split; [done|].
    rewrite list_elem_of_filter. split; [by intros [_ ?]|done].
  - done.
Qed.

(** A gesture gives the sessions it holds the payload of sessions held
    before. *)
Lemma perform_payload (st : AppState) (g : gesture) (x : Session) :
  enabled st g ->
  x ∈ sessions (perform st g) ++ parkingLot (perform st g) ->
  exists y0, y0 ∈ sessions st ++ parkingLot st /\ same_payload y0 x.
Proof.
  intros Hen Hx.
  assert (forall y0, y0 ∈ sessions st ++ parkingLot st ->
            exists y1, y1 ∈ sessions st ++ parkingLot st /\ same_payload y1 y0) as Hsame.
  { intros y0 Hy. exists y0. by split. }
  destruct g as [s [|] now targetDate targetSlot|s [|]|s|q];
    cbn [perform enabled] in *.
  - destruct Hen as (Hin & _). cbn [shown] in Hin.
    unfold onDropToTimetable in Hx. cbn [sessions parkingLot] in Hx.
    apply elem_of_app in Hx as [Hx|Hx].
    + apply list_elem_of_fmap in Hx as (y0 & -> & Hy).
      destruct (decide (id y0 = id s)) as [Heq|Hne].
      * exists s. split; [apply elem_of_app; by left|]. by split.
      * exists y0. split; [apply elem_of_app; by left|]. by split.
    + apply Hsame, elem_of_app; by right.
  - destruct Hen as (Hin & _). cbn [shown] in Hin.
    unfold onDropToTimetable in Hx. cbn [sessions parkingLot] in Hx.
    rewrite !elem_of_app, list_elem_of_singleton, list_elem_of_filter in Hx.
    destruct Hx as [[Hx| ->]|[_ Hx]].
    + apply Hsame, elem_of_app; by left.
    + exists s. split; [apply elem_of_app; by right|]. by split.
    + apply Hsame, elem_of_app; by right.
  - cbn [shown] in Hen. unfold onDropToParking in Hx. cbn [sessions parkingLot] in Hx.
    rewrite !elem_of_app, list_elem_of_singleton, list_elem_of_filter in Hx.
    destruct Hx as [[_ Hx]|[Hx| ->]].
    + apply Hsame, elem_of_app; by left.
    + apply Hsame, elem_of_app; by right.
    + apply Hsame, elem_of_app; by left.
  - by apply Hsame.
  - unfold discard in Hx. cbn [sessions parkingLot] in Hx.
    rewrite !elem_of_app, list_elem_of_filter in Hx. destruct Hx as [Hx|[_ Hx]].
    + apply Hsame, elem_of_app; by left.
    + apply Hsame, elem_of_app; by right.
  - by apply Hsame.
Qed.

(** X18: the editor moves sessions and never rewrites them: in every state
    reached from an import, each session held has the identifier, the course,
    the learning unit and the mentor of a session of the import. *)
Theorem editor_keeps_payload (data : list Session) (st : AppState) (x : Session) :
  reachable (loaded data) st ->
  x ∈ sessions st ++ parkingLot st ->
  exists y0, y0 ∈ data /\ same_payload y0 x.
Proof.
  intros Hreach. revert x. induction Hreach as [|st g Hreach IH Hen]; intros x Hx.
  - unfold loaded in Hx. cbn [sessions parkingLot] in Hx. rewrite app_nil_r in Hx.
    exists x. by split.
  - destruct (perform_payload st g x Hen Hx) as (y1 & Hy1 & Hp1).
    destruct (IH y1 Hy1) as (y0 & Hy0 & Hp0). exists y0. split; [done|].
    destruct Hp0 as (? & ? & ? & ?), Hp1 as (? & ? & ? & ?).
    repeat split; congruence.
Qed.

(** ** The grid *)

Lemma dedupe_spec (l : list string) : forall seen,
  NoDup (dedupe seen l) /\ forall x, x ∈ dedupe seen l <-> x ∈ l /\ x ∉ seen.
Proof.
  induction l as [|y0 l IH]; intros seen; cbn [dedupe].
  { split; [constructor|]. intros x. rewrite elem_of_nil. tauto. }
  destruct (decide (y0 ∈ seen)) as [Hin|Hout].
  - destruct (IH seen) as [Hnd Hel]. split; [done|]. intros x.
    rewrite Hel, elem_of_cons. split; [tauto|]. intros [[-> |Hx] Hs]; [done|tauto].
  - destruct (IH (y0 :: seen)) as [Hnd Hel]. split.
    + constructor; [|done]. rewrite Hel, elem_of_cons. tauto.
    + intros x. rewrite !elem_of_cons, Hel, elem_of_cons.
      destruct (decide (x = y0)) as [->|Hne]; tauto.
Qed.

Lemma find_app_None {A : Type} (P : A -> bool) (l1 l2 : list A) :
  List.find P l1 = None -> List.find P (l1 ++ l2) = List.find P l2.
Proof.
  induction l1 as [|x l1 IH]; [done|]. cbn [List.find app].
  destruct (P x); [discriminate|exact IH].
Qed.

Lemma find_app_Some {A : Type} (P : A -> bool) (l1 l2 : list A) (x : A) :
  List.find P l1 = Some x -> List.find P (l1 ++ l2) = Some x.
Proof.
  induction l1 as [|y0 l1 IH]; [done|]. cbn [List.find app].
  destruct (P y0); [done|exact IH].
Qed.

(** The first match of [find] in terms of membership. *)
Lemma find_first {A : Type} (P : A -> bool) (l : list A) (x : A) :
  x ∈ l -> P x = true ->
  exists x', List.find P l = Some x' /\ x' ∈ l /\ P x' = true
             /\ ((forall y0, y0 ∈ l -> P y0 = true -> y0 = x) -> x' = x).
Proof.
  induction l as [|y0 l IH]; intros Hin Hx; [by apply elem_of_nil in Hin|].
  cbn [List.find]. destruct (P y0) eqn:Hy.
  - exists y0. split; [done|]. split; [by left|]. split; [done|].
    intros Huniq. apply Huniq; [by left|done].
  - apply elem_of_cons in Hin as [->|Hin]; [congruence|].
    destruct (IH Hin Hx) as (x' & Hfind & Hin' & Hp & Huniq).
    exists x'. split; [done|]. split; [by right|]. split; [done|].
    intros Hall. apply Huniq. intros y1 Hy1. apply Hall. by right.
Qed.

(** The from values of the derived slots. *)
Lemma dynamicTimeSlots_from_elem (ss : list Session) (f : string) :
  filter timed ss <> [] ->
  f ∈ Slot.from <$> dynamicTimeSlots ss <-> exists s, s ∈ ss /\ timed s /\ from s = f.
Proof.
  intros Hne. unfold dynamicTimeSlots. rewrite slotMap_of_timed.
  destruct (length (slot_entries (filter timed ss)) =? 0)%nat eqn:Hlen.
  { apply Nat.eqb_eq in Hlen. destruct (slot_entries (filter timed ss)) eqn:E; [|done].
    by apply slot_entries_nil in E. }
  rewrite slot_from_fmap, sort_with_elem, (proj2 (slot_entries_keys _)).
  split.
  - intros (s & [Ht Hs]%list_elem_of_filter & <-). by exists s.
  - intros (s & Hs & Ht & <-). exists s. split; [|done]. by apply list_elem_of_filter.
Qed.

Lemma dynamicTimeSlots_to_nonempty (ss : list Session) (sl : SlotDefinition) :
  sl ∈ dynamicTimeSlots ss -> Slot.to sl <> "".
Proof.
  unfold dynamicTimeSlots. rewrite slotMap_of_timed.
  destruct (length (slot_entries (filter timed ss)) =? 0)%nat.
  - unfold defaultSlots. intros Hsl.
    repeat (apply elem_of_cons in Hsl as [-> |Hsl]; [discriminate|]).
    by apply elem_of_nil in Hsl.
  - intros (f & -> & Hf%sort_with_elem)%list_elem_of_fmap. cbn [Slot.to].
    destruct (map_get_is_key f _ Hf) as [t Ht]. rewrite Ht.
    apply slot_entries_last in Ht as (pre & s & post & Heq & <- & <- & Hpost).
    assert (timed s) as [_ Hto].
    { apply (list_elem_of_filter timed ss). rewrite Heq.
      apply elem_of_app. right. by left. }
    by rewrite (proj2 (nonempty_true _) Hto).
Qed.

Lemma current_squad_elem (st : AppState) (s : Session) :
  s ∈ currentSquadSessions st <-> same_squad (selectedSquad st) s /\ s ∈ sessions st.
Proof. unfold currentSquadSessions. apply list_elem_of_filter. Qed.

Lemma in_cell_iff (s : Session) (dateStr : string) (slot : SlotDefinition) :
  String.eqb (date s) dateStr && String.eqb (from s) (Slot.from slot) = true
  <-> date s = dateStr /\ from s = Slot.from slot.
Proof. by rewrite andb_true_iff, !String.eqb_eq. Qed.

(** X19: every session of the selected squad that has a from and a to has its
    cell in the grid: its date is a row, its from is a column, and the cell
    shows the first session of the squad with that date and that from, which
    is the session itself when no other shares them. *)
Theorem grid_shows_timed_sessions (now : DateFields) (st : AppState) (s : Session) :
  s ∈ currentSquadSessions st -> timed s ->
  date s ∈ visibleDates now st
  /\ exists slot, slot ∈ dynamicTimeSlots (sessions st) /\ Slot.from slot = from s
       /\ exists s', cell_session st (date s) slot = Some s'
            /\ s' ∈ currentSquadSessions st /\ date s' = date s /\ from s' = from s
            /\ ((forall x, x ∈ currentSquadSessions st ->
                           date x = date s -> from x = from s -> x = s) -> s' = s).
Proof.
  intros Hs Ht. split.
  - unfold visibleDates.
    assert (date s ∈ sort_with compare_strings (dedupe [] (date <$> currentSquadSessions st)))
      as Hin.
    { apply sort_with_elem, dedupe_spec. split; [by apply list_elem_of_fmap_2|].
      apply not_elem_of_nil. }
    destruct (length _ =? 0)%nat eqn:Hlen; [|done].
    apply Nat.eqb_eq in Hlen. destruct (sort_with _ _); [by apply elem_of_nil in Hin|done].
  - pose proof (proj1 (current_squad_elem st s) Hs) as [Hsq Hin].
    assert (filter timed (sessions st) <> []) as Hne.
    { intros E. assert (s ∈ filter timed (sessions st)) as Hf by (by apply list_elem_of_filter).
      rewrite E in Hf. by apply elem_of_nil in Hf. }
    assert (from s ∈ Slot.from <$> dynamicTimeSlots (sessions st)) as Hcol.
    { apply dynamicTimeSlots_from_elem; [done|]. by exists s. }
    apply list_elem_of_fmap in Hcol as (slot & Hfrom & Hslot).
    exists slot. split; [done|]. split; [done|].
    destruct (find_first
                (fun x => String.eqb (date x) (date s) && String.eqb (from x) (Slot.from slot))
                (currentSquadSessions st) s Hs) as (s' & Hfind & Hin' & Hp & Huniq).
    { by apply in_cell_iff. }
    exists s'. split; [exact Hfind|]. split; [done|].
    apply in_cell_iff in Hp as [Hd Hf]. split; [done|]. split; [congruence|].
    intros Hall. apply Huniq. intros x Hx [Hxd Hxf]%in_cell_iff. apply Hall; congruence.
Qed.

Lemma updated_same_squad (st : AppState) (s : Session) targetDate targetSlot :
  same_squad (selectedSquad st) (updatedSession st s targetDate targetSlot).
Proof. reflexivity. Qed.

Lemma find_replace (P : Session -> bool) (Q : Session -> Prop) `{!forall x, Decision (Q x)}
    (u s : Session) (l : list Session) :
  List.find P (filter Q l) = None -> P u = true -> Q u -> s ∈ l ->
  List.find P (filter Q ((fun x => if decide (id x = id s) then u else x) <$> l)) = Some u.
Proof.
  intros Hnone Hp Hq. induction l as [|x l IH]; intros Hin; [by apply elem_of_nil in Hin|].
  rewrite fmap_cons, filter_cons. rewrite filter_cons in Hnone.
  destruct (decide (id x = id s)) as [Heq|Hne].
  - rewrite decide_True by done. cbn [List.find]. by rewrite Hp.
  - apply elem_of_cons in Hin as [->|Hin]; [done|].
    destruct (decide (Q x)) as [Hx|Hx].
    + cbn [List.find] in *. destruct (P x); [discriminate|]. by apply IH.
    + by apply IH.
Qed.

(** X20: a drop on an empty cell of the grid shows the dropped session there. *)
Theorem drop_on_empty_cell (st : AppState) (s : Session) (src : source)
    (targetDate : string) (targetSlot : SlotDefinition) :
  shown st s src ->
  cell_session st targetDate targetSlot = None ->
  cell_session (onDropToTimetable st s src targetDate targetSlot) targetDate targetSlot
  = Some (updatedSession st s targetDate targetSlot).
Proof.
  intros Hshown Hempty. unfold cell_session, currentSquadSessions in *.
  assert ((fun x => String.eqb (date x) targetDate && String.eqb (from x) (Slot.from targetSlot))
            (updatedSession st s targetDate targetSlot) = true) as Hu.
  { cbn [updatedSession date from]. by rewrite !String.eqb_refl. }
  destruct src; cbn [shown] in Hshown; unfold onDropToTimetable; cbn [sessions selectedSquad].
  - apply find_replace; [done|exact Hu|apply updated_same_squad|done].
  - rewrite filter_app, filter_cons, decide_True by apply updated_same_squad.
    rewrite filter_nil, find_app_None by done. cbn [List.find]. by rewrite Hu.
Qed.

(** X21: a drop from the staging list on a cell that shows a session leaves
    the cell showing that session: the dropped session joins the sessions of
    the squad with the date and the from of the cell, behind the one shown. *)
Theorem drop_on_occupied_cell (st : AppState) (s occupant : Session)
    (targetDate : string) (targetSlot : SlotDefinition) :
  cell_session st targetDate targetSlot = Some occupant ->
  let st' := onDropToTimetable st s parking targetDate targetSlot in
  cell_session st' targetDate targetSlot = Some occupant
  /\ updatedSession st s targetDate targetSlot ∈ currentSquadSessions st'
  /\ date (updatedSession st s targetDate targetSlot) = date occupant
  /\ from (updatedSession st s targetDate targetSlot) = from occupant.
Proof.
  intros Hocc. cbv zeta. split; [|split].
  - unfold cell_session, currentSquadSessions in *. unfold onDropToTimetable.
    cbn [sessions selectedSquad]. rewrite filter_app. by apply find_app_Some.
  - apply current_squad_elem. split; [exact (updated_same_squad st s _ _)|].
    unfold onDropToTimetable. cbn [sessions]. apply elem_of_app. right. by left.
  - unfold cell_session in Hocc. apply List.find_some in Hocc as [_ [Hd Hf]%in_cell_iff].
    cbn [updatedSession date from]. by split.
Qed.

(** The sessions after a drop on the grid are the sessions before and the
    updated session. *)
Lemma drop_sessions (st : AppState) (s : Session) (src : source)
    (targetDate : string) (targetSlot : SlotDefinition) (x : Session) :
  x ∈ sessions (onDropToTimetable st s src targetDate targetSlot) ->
  x = updatedSession st s targetDate targetSlot \/ x ∈ sessions st.
Proof.
  destruct src; unfold onDropToTimetable; cbn [sessions].
  - intros (y0 & -> & Hy)%list_elem_of_fmap. destruct (decide (id y0 = id s)); auto.
  - rewrite elem_of_app, list_elem_of_singleton. tauto.
Qed.

Lemma drop_updated_elem (st : AppState) (s : Session) (src : source)
    (targetDate : string) (targetSlot : SlotDefinition) :
  shown st s src ->
  updatedSession st s targetDate targetSlot
  ∈ sessions (onDropToTimetable st s src targetDate targetSlot).
Proof.
  destruct src; unfold onDropToTimetable; cbn [sessions shown]; intros Hin.
  - by apply (replace_elem _ s).
  - apply elem_of_app. right. by left.
Qed.

(** X22: a drop on a cell of the grid never adds a column: the from values of the
    slots after the drop are from values of the slots before, and the column
    of the cell is one of them. *)
Theorem drop_adds_no_column (st : AppState) (s : Session) (src : source)
    (now : DateFields) (targetDate : string) (targetSlot : SlotDefinition) :
  enabled st (Place s src now targetDate targetSlot) ->
  let st' := perform st (Place s src now targetDate targetSlot) in
  Slot.from targetSlot ∈ Slot.from <$> dynamicTimeSlots (sessions st')
  /\ forall f, f ∈ Slot.from <$> dynamicTimeSlots (sessions st') ->
               f ∈ Slot.from <$> dynamicTimeSlots (sessions st).
Proof.
  intros (Hshown & _ & Hslot). cbv zeta. cbn [perform].
  set (u := updatedSession st s targetDate targetSlot).
  set (st' := onDropToTimetable st s src targetDate targetSlot).
  assert (timed u) as Hu.
  { split; cbn [u updatedSession from to].
    - by apply (dynamicTimeSlots_from_nonempty (sessions st)).
    - by apply (dynamicTimeSlots_to_nonempty (sessions st)). }
  assert (u ∈ sessions st') as Hin by (by apply drop_updated_elem).
  assert (filter timed (sessions st') <> []) as Hne.
  { intros E. assert (u ∈ filter timed (sessions st')) as Hf by (by apply list_elem_of_filter).
    rewrite E in Hf. by apply elem_of_nil in Hf. }
  split.
  - apply dynamicTimeSlots_from_elem; [done|]. by exists u.
  - intros f (x & Hx & Ht & <-)%dynamicTimeSlots_from_elem; [|done].
    apply drop_sessions in Hx as [->|Hx].
    + cbn [u updatedSession from]. by apply list_elem_of_fmap_2.
    + apply dynamicTimeSlots_from_elem; [|by exists x].
      intros E. assert (x ∈ filter timed (sessions st)) as Hf by (by apply list_elem_of_filter).
      rewrite E in Hf. by apply elem_of_nil in Hf.
Qed.

(** Ascending order of texts by code units, with and without equality. *)
Lemma compare_strings_le (x y0 : string) :
  if gt (compare_strings x y0) (of_Z 0)
  then String.compare y0 x <> Gt else String.compare x y0 <> Gt.
Proof.
  unfold compare_strings. destruct (String.compare x y0) eqn:E.
  - change (gt (of_Z 0) (of_Z 0)) with false. cbv iota. done.
  - change (gt (of_Z (-1)) (of_Z 0)) with false. cbv iota. done.
  - change (gt (of_Z 1) (of_Z 0)) with true. cbv iota.
    by rewrite String.compare_antisym, E.
Qed.

Lemma compare_not_Gt_trans (a b c : string) :
  String.compare a b <> Gt -> String.compare b c <> Gt -> String.compare a c <> Gt.
Proof.
  destruct (String.compare a b) eqn:Hab; [| |done].
  { apply String.compare_eq_iff in Hab as ->. auto. }
  intros _. destruct (String.compare b c) eqn:Hbc; [| |done].
  - apply String.compare_eq_iff in Hbc as <-. by rewrite Hab.
  - by rewrite (compare_Lt_trans a b c).
Qed.

Lemma sorted_strict (l : list string) :
  StronglySorted (fun a b => String.compare a b <> Gt) l -> NoDup l ->
  StronglySorted (fun a b => String.compare a b = Lt) l.
Proof.
  induction 1 as [|x l Hs IH Hx]; intros Hnd; [constructor|].
  apply NoDup_cons in Hnd as [Hnin Hnd]. constructor; [by apply IH|].
  rewrite Forall_forall in Hx |- *. intros y0 Hy. specialize (Hx y0 Hy).
  destruct (String.compare x y0) eqn:E; [|done|done].
  apply String.compare_eq_iff in E as ->. done.
Qed.

(** X23: the rows of the grid: the dates of the sessions of the selected squad,
    each once, in ascending order of their code units; with no session of
    the squad, the one row of today (the UTC day).  The grid always has a
    row. *)
Theorem visibleDates_spec (now : DateFields) (st : AppState) :
  visibleDates now st <> []
  /\ (currentSquadSessions st = [] ->
      exists today, iso_day (ValidDate now) = Ok today /\ visibleDates now st = [today])
  /\ (currentSquadSessions st <> [] ->
      (forall d, d ∈ visibleDates now st
                 <-> exists s, s ∈ currentSquadSessions st /\ date s = d)
      /\ StronglySorted (fun a b => String.compare a b = Lt) (visibleDates now st)).
Proof.
  unfold visibleDates.
  set (dates := dedupe [] (date <$> currentSquadSessions st)).
  destruct (dedupe_spec (date <$> currentSquadSessions st) []) as [Hnd Hel]. fold dates in Hnd, Hel.
  assert (forall d, d ∈ sort_with compare_strings dates
                    <-> exists s, s ∈ currentSquadSessions st /\ date s = d) as Hmem.
  { intros d. rewrite sort_with_elem, Hel, list_elem_of_fmap. split.
    - intros [(s & -> & Hs) _]. by exists s.
    - intros (s & Hs & <-). split; [by exists s|apply not_elem_of_nil]. }
  destruct (currentSquadSessions st) as [|s0 css] eqn:Hcss.
  - assert (dates = []) as -> by reflexivity. cbn [sort_with foldr length Nat.eqb].
    split; [done|]. split; [|done]. intros _. by eexists.
  - assert (date s0 ∈ sort_with compare_strings dates) as Hin.
    { apply Hmem. exists s0. split; [by left|done]. }
    destruct (length _ =? 0)%nat eqn:Hlen.
    { apply Nat.eqb_eq in Hlen. destruct (sort_with _ _); [by apply elem_of_nil in Hin|done]. }
    split; [intros E; rewrite E in Hin; by apply elem_of_nil in Hin|].
    split; [done|]. intros _. split; [exact Hmem|].
    apply sorted_strict; [|by rewrite sort_with_perm].
    apply (sort_with_sorted compare_strings _ (fun _ => True)).
    + intros a b c _ _ _. apply compare_not_Gt_trans.
    + intros a b _ _. apply compare_strings_le.
    + by apply Forall_forall.
Qed.

(** ** The file of an export *)

Section ExportOrder.
Context `{Host}.

Lemma sortedSessions_sorted (ss : list Session) (squadId : squad_id) :
  (forall s, s ∈ ss -> squad_matches squadId s -> reads_int (from s)) ->
  (forall a b, a ∈ ss -> b ∈ ss -> squad_matches squadId a -> squad_matches squadId b ->
               collates_as_code_units (date a) (date b)) ->
  StronglySorted session_le (sortedSessions ss squadId).
Proof.
  intros Hread Hloc.
  apply (sort_with_sorted compare_sessions session_le
           (fun s => s ∈ ss /\ squad_matches squadId s)).
  - intros a b c _ _ _. apply session_le_trans.
  - intros a b [Ha Hma] [Hb Hmb]. apply compare_sessions_decides; auto.
  - apply Forall_forall. intros s [Hm Hs]%list_elem_of_filter. done.
Qed.

Lemma compare_self (a : string) : String.compare a a = Eq.
Proof.
  destruct (String.compare a a) eqn:E; [done| |];
    pose proof (String.compare_antisym a a) as Hanti; rewrite E in Hanti; discriminate.
Qed.

Lemma session_le_antisym (a b : Session) :
  session_le a b -> session_le b a -> same_key a b.
Proof.
  intros [Hab|[Hd (x & z & Hx & Hz & Hxz)]] [Hba|[Hd' (z' & x' & Hz' & Hx' & Hzx)]].
  - rewrite String.compare_antisym, Hab in Hba. discriminate.
  - rewrite Hd', compare_self in Hab. discriminate.
  - rewrite Hd, compare_self in Hba. discriminate.
  - split; [done|]. rewrite Hx, Hz. f_equal.
    rewrite Hx in Hx'. rewrite Hz in Hz'. apply of_Z_inj in Hx', Hz'. lia.
Qed.

(** X24: the file of an export does not depend on the order in which the
    collection holds the sessions, when no two sessions of the squad have
    the same date and the same time: the sort decides the order of the rows.
    (The from values read as integers and the host collates the dates as
    code units, as for railway times and YYYY-MM-DD dates.) *)
Theorem export_order_independent (ss ss' : list Session) (squadId : squad_id) (now : Date) :
  ss ≡ₚ ss' ->
  (forall s, s ∈ ss -> squad_matches squadId s -> reads_int (from s)) ->
  (forall a b, a ∈ ss -> b ∈ ss -> squad_matches squadId a -> squad_matches squadId b ->
               collates_as_code_units (date a) (date b)) ->
  (forall a b, a ∈ ss -> b ∈ ss -> squad_matches squadId a -> squad_matches squadId b ->
               same_key a b -> a = b) ->
  export_file ss squadId now = export_file ss' squadId now.
Proof.
  intros Hperm Hread Hloc Hkey. unfold export_file, export_rows.
  assert (sortedSessions ss squadId = sortedSessions ss' squadId) as ->; [|done].
  apply (StronglySorted_unique_strong session_le).
  - intros a b Ha Hb Hab Hba.
    unfold sortedSessions in Ha, Hb.
    apply sort_with_elem, list_elem_of_filter in Ha as [Hma Ha].
    apply sort_with_elem, list_elem_of_filter in Hb as [Hmb Hb].
    rewrite <- Hperm in Hb. apply Hkey; auto using session_le_antisym.
  - by apply sortedSessions_sorted.
  - apply sortedSessions_sorted.
    + intros s Hs. rewrite <- Hperm in Hs. auto.
    + intros a b Ha Hb. rewrite <- Hperm in Ha, Hb. auto.
  - unfold sortedSessions. by rewrite !sort_with_perm, Hperm.
Qed.

End ExportOrder.

Lemma toLowerCase_app (s1 s2 : string) :
  toLowerCase (s1 +:+ s2) = toLowerCase s1 +:+ toLowerCase s2.
Proof.
  induction s1 as [|c s1 IH]; [done|]. rewrite append_cons. cbn [toLowerCase].
  by rewrite IH, append_cons.
Qed.

Lemma month_text (z : Z) :
  (0 <= z <= 11)%Z ->
  padStart0 2 (number_to_string (add (of_Z z) (of_Z 1))) = pad_Z 2 (z + 1).
Proof.
  intros Hz.
  assert (forallb (fun i => String.eqb
                     (padStart0 2 (number_to_string (add (of_Z (Z.of_nat i)) (of_Z 1))))
                     (pad_Z 2 (Z.of_nat i + 1)))
                  (seq 0 12) = true) as Hall by (vm_compute; reflexivity).
  pose proof (forallb_below _ _ Hall (Z.to_nat z) ltac:(lia)) as Hcell.
  cbv beta in Hcell. rewrite Z2Nat.id in Hcell by lia. by apply String.eqb_eq in Hcell.
Qed.

(** X25: the name of the exported file: the squad in lower case, the local date
    of the clock as YYYY-MM-DD and its local time as a railway time. *)
Theorem export_fileName_shape (squadId : squad_id) (now : DateFields) :
  (1000 <= localFullYear now <= 9999)%Z -> (0 <= localMonth now <= 11)%Z ->
  (1 <= localDate now <= 31)%Z ->
  (0 <= localHours now < 24)%Z -> (0 <= localMinutes now < 60)%Z ->
  let day := pad_Z 4 (localFullYear now) +:+ "-" +:+ pad_Z 2 (localMonth now + 1)
             +:+ "-" +:+ pad_Z 2 (localDate now) in
  let time := railway (localHours now) (localMinutes now) in
  export_fileName squadId (ValidDate now)
  = toLowerCase (String_squad squadId) +:+ "_updated_on_" +:+ day +:+ "_" +:+ time
    +:+ ".xlsx"
  /\ is_iso_date day = true /\ is_railway_time time = true /\ time <> "".
Proof.
  intros Hy Hm Hd Hh Hmi. cbv zeta.
  destruct (year_digits (localFullYear now) ltac:(lia)) as [Hly Hdy].
  destruct (month_day_digits (localMonth now + 1) ltac:(lia)) as [Hlm Hdm].
  destruct (month_day_digits (localDate now) ltac:(lia)) as [Hld Hdd].
  destruct (month_day_digits (localHours now) ltac:(lia)) as [_ Hdh].
  destruct (month_day_digits (localMinutes now) ltac:(lia)) as [_ Hdmi].
  destruct (railway_in_range _ _ Hh Hmi) as (Hrail & Hne & _).
  split; [|split; [exact (proj1 (iso_date_of_digits _ _ _ Hly Hlm Hld Hdy Hdm Hdd))|done]].
  unfold export_fileName. cbn [getFullYear getMonth getDate getHours getMinutes].
  rewrite serial_year_text, month_text, !serial_field_text by lia.
  rewrite !toLowerCase_app. unfold railway, two_digits.
  rewrite !(digits_lower _ Hdy), !(digits_lower _ Hdm), !(digits_lower _ Hdd),
    !(digits_lower _ Hdh), !(digits_lower _ Hdmi).
  change (toLowerCase "_updated_on_") with "_updated_on_".
  change (toLowerCase "-") with "-". change (toLowerCase "_") with "_".
  change (toLowerCase ".xlsx") with ".xlsx".
  by rewrite !append_assoc.
Qed.

(** ** Canonical forms in the editor *)

(** A slot is a default slot or carries the from and the to of a session
    that has both. *)
Lemma dynamicTimeSlots_slot (ss : list Session) (sl : SlotDefinition) :
  sl ∈ dynamicTimeSlots ss ->
  sl ∈ defaultSlots
  \/ exists s, s ∈ ss /\ timed s /\ from s = Slot.from sl /\ to s = Slot.to sl.
Proof.
  unfold dynamicTimeSlots. rewrite slotMap_of_timed.
  destruct (length (slot_entries (filter timed ss)) =? 0)%nat; [by left|].
  intros (f & -> & Hf%sort_with_elem)%list_elem_of_fmap. right. cbn [Slot.from Slot.to].
  destruct (map_get_is_key f _ Hf) as [t Ht]. rewrite Ht.
  apply slot_entries_last in Ht as (pre & s & post & Heq & <- & <- & Hpost).
  assert (s ∈ filter timed ss) as [Ht Hs]%list_elem_of_filter.
  { rewrite Heq. apply elem_of_app. right. by left. }
  exists s. split; [done|]. split; [done|]. split; [done|].
  destruct Ht as [_ Hto]. by rewrite (proj2 (nonempty_true _) Hto).
Qed.

Lemma visibleDates_canonical (now : DateFields) (st : AppState) (d : string) :
  Forall exportable (sessions st) ->
  (0 <= utcFullYear now <= 9999)%Z -> (1 <= utcMonth now <= 12)%Z ->
  (1 <= utcDate now <= 31)%Z ->
  d ∈ visibleDates now st -> is_iso_date d = true.
Proof.
  intros Hall Hy Hm Hd. unfold visibleDates.
  destruct (length _ =? 0)%nat.
  - destruct (iso_day_fields now Hy Hm Hd) as [-> Hiso].
    by intros ->%list_elem_of_singleton.
  - intros (s & -> & [_ Hs]%list_elem_of_filter)%sort_with_elem%dedupe_elem%list_elem_of_fmap.
    rewrite Forall_forall in Hall. by destruct (Hall s Hs).
Qed.

Lemma slot_exportable (ss : list Session) (sl : SlotDefinition) :
  Forall exportable ss -> sl ∈ dynamicTimeSlots ss ->
  Slot.from sl <> "" /\ is_railway_time (Slot.from sl) = true
  /\ is_railway_time (Slot.to sl) = true.
Proof.
  intros Hall [Hdef|(s & Hs & _ & <- & <-)]%dynamicTimeSlots_slot.
  - unfold defaultSlots in Hdef.
    repeat (apply elem_of_cons in Hdef as [-> |Hdef]; [by repeat split|]).
    by apply elem_of_nil in Hdef.
  - rewrite Forall_forall in Hall. destruct (Hall s Hs) as (_ & ? & ? & ?). done.
Qed.

(** X26: a gesture keeps the sessions in the forms an export writes and an import
    reads back: when the date, the from and the to of every session held are
    canonical, they are so after the gesture.  For a drop on a row of today
    the clock has to show a year from 0 to 9999. *)
Theorem gesture_keeps_exportable (st : AppState) (g : gesture) :
  Forall exportable (sessions st) -> Forall exportable (parkingLot st) ->
  enabled st g -> clock_in_range g ->
  Forall exportable (sessions (perform st g))
  /\ Forall exportable (parkingLot (perform st g)).
Proof.
  intros Hs Hp Hen Hclock.
  destruct g as [s src now targetDate targetSlot|s [|]|s|q];
    cbn [perform enabled clock_in_range] in *.
  - destruct Hen as (Hshown & Hdate & Hslot). destruct Hclock as (Hy & Hm & Hd).
    assert (exportable (updatedSession st s targetDate targetSlot)) as Hu.
    { destruct (slot_exportable _ _ Hs Hslot) as (Hne & Hfrom & Hto).
      split; [|done]. cbn [updatedSession date].
      by apply (visibleDates_canonical now st). }
    destruct src; unfold onDropToTimetable; cbn [sessions parkingLot].
    + split; [|done]. apply Forall_fmap. eapply Forall_impl; [exact Hs|].
      intros x Hx. cbn. by destruct (decide (id x = id s)).
    + split; [apply Forall_app; split; [done|by constructor]|].
      by apply Forall_filter_keep.
  - cbn [shown] in Hen. unfold onDropToParking. cbn [sessions parkingLot].
    split; [by apply Forall_filter_keep|].
    apply Forall_app. split; [done|]. constructor; [|constructor].
    rewrite Forall_forall in Hs. by apply Hs.
  - done.
  - unfold discard. cbn [sessions parkingLot]. split; [done|by apply Forall_filter_keep].
  - done.
Qed.

(** ** The squads of the arrows *)

Lemma same_value_zero_key (a b : number) :
  same_value_zero a b = true <-> number_key a = number_key b.
Proof.
  destruct a as [|x], b as [|y0]; cbn; try (split; (done || discriminate)).
  rewrite Qeq_bool_iff. split.
  - intros Heq. f_equal. by apply Qred_complete.
  - intros [= Heq]. by rewrite <- (Qred_correct x), <- (Qred_correct y0), Heq.
Qed.

Lemma strict_eq_key (a b : number) :
  strict_eq a b = true <-> number_key a = number_key b /\ isNaN a = false.
Proof.
  destruct a as [|x], b as [|y0]; cbn; try (split; [discriminate|intros [? ?]; discriminate]).
  change (Qeq_bool x y0) with (same_value_zero (Num x) (Num y0)).
  rewrite same_value_zero_key. cbn. tauto.
Qed.

Lemma seen_key (x : number) (seen : list number) :
  existsb (same_value_zero x) seen = true <-> number_key x ∈ number_key <$> seen.
Proof.
  rewrite existsb_exists, list_elem_of_fmap. split.
  - intros (y0 & Hy%list_elem_of_In & Heq%same_value_zero_key). by exists y0.
  - intros (y0 & Heq & Hy%list_elem_of_In). exists y0. split; [done|].
    by apply same_value_zero_key.
Qed.

Lemma dedupe_numbers_spec (l : list number) : forall seen,
  NoDup (number_key <$> dedupe_numbers seen l)
  /\ (forall x, x ∈ dedupe_numbers seen l ->
                x ∈ l /\ number_key x ∉ number_key <$> seen)
  /\ (forall x, x ∈ l -> number_key x ∉ number_key <$> seen ->
                number_key x ∈ number_key <$> dedupe_numbers seen l).
Proof.
  induction l as [|y0 l IH]; intros seen; cbn [dedupe_numbers].
  { split; [constructor|]. split; intros x Hx; by apply elem_of_nil in Hx. }
  destruct (existsb (same_value_zero y0) seen) eqn:Hseen.
  - apply seen_key in Hseen. destruct (IH seen) as (Hnd & Hsub & Hsup).
    split; [done|]. split.
    + intros x Hx. destruct (Hsub x Hx). split; [by right|done].
    + intros x [->|Hx]%elem_of_cons Hout; [done|auto].
  - assert (number_key y0 ∉ number_key <$> seen) as Hout.
    { intros Hin%seen_key. congruence. }
    destruct (IH (y0 :: seen)) as (Hnd & Hsub & Hsup). split; [|split].
    + rewrite fmap_cons. constructor; [|done].
      intros (x & Heq & Hx)%list_elem_of_fmap. destruct (Hsub x Hx) as [_ Hx'].
      apply Hx'. rewrite fmap_cons, Heq. by left.
    + intros x [->|Hx]%elem_of_cons; [split; [by left|done]|].
      destruct (Hsub x Hx) as [Hin Hx']. split; [by right|].
      intros Hs. apply Hx'. rewrite fmap_cons. by right.
    + intros x Hx Hnot. rewrite fmap_cons.
      destruct (same_value_zero x y0) eqn:E.
      * apply same_value_zero_key in E as ->. by left.
      * assert (number_key x <> number_key y0) as Hne.
        { intros Heq%same_value_zero_key. congruence. }
        apply elem_of_cons in Hx as [->|Hx]; [done|]. right. apply Hsup; [done|].
        rewrite fmap_cons. intros [?|?]%elem_of_cons; done.
Qed.

Section Squads.
Context `{Engine}.

Lemma baseSquads_first (found : list number) :
  dedupe_numbers [] (baseSquads ++ found)
  = baseSquads ++ dedupe_numbers (rev baseSquads) found.
Proof. reflexivity. Qed.

Lemma number_le_trans (a b c : number) : number_le a b -> number_le b c -> number_le a c.
Proof.
  intros (x & y0 & -> & -> & Hxy) (y1 & z & [= <-] & -> & Hyz).
  exists x, z. split; [done|]. split; [done|]. lra.
Qed.

Lemma sub_decides (a b : number) :
  isNaN a = false -> isNaN b = false ->
  if gt (sub a b) (of_Z 0) then number_le b a else number_le a b.
Proof.
  destruct a as [|x], b as [|y0]; try discriminate. intros _ _.
  unfold gt, lt, sub, of_Z.
  destruct (Qle_bool (Qred (x - y0)) (inject_Z 0)) eqn:E; cbn [negb].
  - apply Qle_bool_iff in E. rewrite Qred_correct in E.
    exists x, y0. split; [done|]. split; [done|]. change (inject_Z 0) with 0%Q in E. lra.
  - exists y0, x. split; [done|]. split; [done|].
    destruct (Qlt_le_dec y0 x) as [Hlt|Hle]; [lra|].
    assert (Qle_bool (Qred (x - y0)) (inject_Z 0) = true); [|congruence].
    apply Qle_bool_iff. rewrite Qred_correct. change (inject_Z 0) with 0%Q. lra.
Qed.

Lemma sorted_numbers_strict (l : list number) :
  StronglySorted number_le l -> NoDup (number_key <$> l) ->
  StronglySorted (fun a b => lt a b = true) l.
Proof.
  induction 1 as [|a l Hs IH Ha]; intros Hnd; [constructor|].
  rewrite fmap_cons in Hnd. apply NoDup_cons in Hnd as [Hnin Hnd].
  constructor; [by apply IH|].
  rewrite Forall_forall in Ha |- *. intros b Hb.
  destruct (Ha b Hb) as (x & y0 & -> & -> & Hle). unfold lt. apply negb_true_iff.
  apply not_true_is_false. intros Hge%Qle_bool_iff.
  apply Hnin. apply list_elem_of_fmap. exists (Num y0). split; [|done].
  cbn. f_equal. apply Qred_complete. lra.
Qed.

(** The numbers that the squad list is made of, before the sort. *)
Lemma squads_perm (st : AppState) :
  squads st ≡ₚ
    baseSquads ++ dedupe_numbers (rev baseSquads)
      (filter (fun n => isNaN n = false)
         (dedupe_numbers [] ((fun s => Number_squad (squad_number s)) <$> sessions st))).
Proof. unfold squads. by rewrite sort_with_perm, baseSquads_first. Qed.

Lemma squads_keys (st : AppState) : NoDup (number_key <$> squads st).
Proof.
  unfold squads. rewrite sort_with_perm. apply dedupe_numbers_spec.
Qed.

Lemma squads_not_NaN (st : AppState) (n : number) : n ∈ squads st -> isNaN n = false.
Proof.
  unfold squads. rewrite sort_with_elem. intros Hn.
  apply dedupe_numbers_spec in Hn as [Hn _].
  apply elem_of_app in Hn as [Hn|Hn].
  - unfold baseSquads in Hn. apply list_elem_of_fmap in Hn as (k & -> & _). done.
  - by apply list_elem_of_filter in Hn as [? _].
Qed.

(** X27: the squads of the arrows: the numbers 1 to 6 and the numbers that the
    squad labels of the sessions read as, each once, in ascending order;
    never NaN. *)
Theorem squads_spec (st : AppState) :
  (forall k, (1 <= k <= 6)%Z -> of_Z k ∈ squads st)
  /\ (forall s, s ∈ sessions st -> isNaN (Number_squad (squad_number s)) = false ->
        exists n, n ∈ squads st /\ strict_eq n (Number_squad (squad_number s)) = true)
  /\ (forall n, n ∈ squads st ->
        isNaN n = false
        /\ (n ∈ baseSquads
            \/ exists s, s ∈ sessions st /\ Number_squad (squad_number s) = n))
  /\ StronglySorted (fun a b => lt a b = true) (squads st).
Proof.
  split; [|split; [|split]].
  - intros k Hk. rewrite squads_perm. apply elem_of_app. left.
    unfold baseSquads. apply list_elem_of_fmap. exists k. split; [done|].
    assert (k = 1 \/ k = 2 \/ k = 3 \/ k = 4 \/ k = 5 \/ k = 6)%Z as Hcases by lia.
    destruct Hcases as [->|[->|[->|[->|[->| ->]]]]];
      repeat ((by left) || right).
  - intros s Hs Hnum.
    assert (Number_squad (squad_number s)
            ∈ (fun s => Number_squad (squad_number s)) <$> sessions st) as Hn.
    { apply list_elem_of_fmap. by exists s. }
    destruct (dedupe_numbers_spec ((fun s => Number_squad (squad_number s)) <$> sessions st) [])
      as (_ & _ & Hsup).
    apply Hsup in Hn; [|apply not_elem_of_nil].
    apply list_elem_of_fmap in Hn as (m & Hkey & Hm).
    assert (isNaN m = false) as Hm_num.
    { destruct m, (Number_squad (squad_number s)); cbn in *; congruence. }
    set (found := filter (fun n => isNaN n = false)
                    (dedupe_numbers []
                       ((fun s => Number_squad (squad_number s)) <$> sessions st))).
    assert (m ∈ baseSquads ++ found) as Hin.
    { apply elem_of_app. right. by apply list_elem_of_filter. }
    destruct (dedupe_numbers_spec (baseSquads ++ found) []) as (_ & _ & Hsup').
    destruct (proj1 (list_elem_of_fmap _ _ _) (Hsup' m Hin ltac:(apply not_elem_of_nil)))
      as (m' & Hkey' & Hm').
    exists m'. split.
    + unfold squads. by rewrite sort_with_elem.
    + apply strict_eq_key. split; [congruence|].
      destruct m', m; cbn in *; congruence.
  - intros n Hn. split; [by apply (squads_not_NaN st)|].
    unfold squads in Hn. rewrite sort_with_elem in Hn.
    apply dedupe_numbers_spec in Hn as [Hn _].
    apply elem_of_app in Hn as [Hn|Hn]; [by left|right].
    apply list_elem_of_filter in Hn as [_ Hn].
    apply dedupe_numbers_spec in Hn as [Hn _].
    apply list_elem_of_fmap in Hn as (s & -> & Hs). by exists s.
  - apply sorted_numbers_strict; [|apply squads_keys].
    apply (sort_with_sorted sub number_le (fun n => isNaN n = false)).
    + intros a b c _ _ _. apply number_le_trans.
    + apply sub_decides.
    + apply Forall_forall. intros n Hn. apply (squads_not_NaN st).
      unfold squads. by apply sort_with_elem.
Qed.

Lemma indexOf_from_found (l : list number) (x : number) : forall i r,
  indexOf_from i l x = r -> r <> (-1)%Z -> (0 <= i)%Z ->
  (i <= r < i + Z.of_nat (length l))%Z
  /\ exists m, l !! Z.to_nat (r - i) = Some m /\ strict_eq m x = true.
Proof.
  induction l as [|y0 l IH]; intros i r; cbn [indexOf_from]; [congruence|].
  destruct (strict_eq y0 x) eqn:E.
  - intros <- _ Hi. cbn [length]. split; [lia|]. exists y0.
    by rewrite Z.sub_diag.
  - intros Hr Hne Hi. destruct (IH (i + 1)%Z r Hr Hne ltac:(lia)) as (Hrange & m & Hm & Heq).
    cbn [length]. split; [lia|]. exists m. split; [|done].
    replace (Z.to_nat (r - i)) with (S (Z.to_nat (r - (i + 1)))) by lia. done.
Qed.

Lemma indexOf_from_absent (l : list number) (x : number) : forall i,
  Forall (fun m => strict_eq m x = false) l -> indexOf_from i l x = (-1)%Z.
Proof.
  induction l as [|y0 l IH]; intros i Hall; [done|].
  apply Forall_cons in Hall as [Hy Hl]. cbn [indexOf_from]. rewrite Hy. by apply IH.
Qed.

Lemma indexOf_from_at (l : list number) (x : number) : forall i j m,
  NoDup (number_key <$> l) -> l !! j = Some m -> strict_eq m x = true ->
  indexOf_from i l x = (i + Z.of_nat j)%Z.
Proof.
  induction l as [|y0 l IH]; intros i j m Hnd Hj Hm; [done|].
  rewrite fmap_cons in Hnd. apply NoDup_cons in Hnd as [Hnin Hnd].
  cbn [indexOf_from]. destruct j as [|j].
  - injection Hj as ->. rewrite Hm. lia.
  - cbn [lookup list_lookup] in Hj. destruct (strict_eq y0 x) eqn:E.
    + exfalso. apply Hnin. apply strict_eq_key in E as [Hy _], Hm as [Hm _].
      rewrite Hy, <- Hm. apply list_elem_of_fmap_2. by apply list_elem_of_lookup_2 in Hj.
    + rewrite (IH (i + 1)%Z j m Hnd Hj Hm). lia.
Qed.

Lemma squads_length (st : AppState) : (6 <= length (squads st))%nat.
Proof. rewrite squads_perm, length_app. cbn. lia. Qed.

(** The squad an arrow selects, from the index it computes. *)
Lemma navigateSquad_at (st : AppState) (direction next : Z) :
  let len := Z.of_nat (length (squads st)) in
  let moved := (indexOf (squads st) (Number_squad (selectedSquad st)) + direction)%Z in
  next = (if (moved <? 0)%Z then len - 1
          else if (moved >=? len)%Z then 0 else moved)%Z ->
  (0 <= next < len)%Z
  /\ exists n, squads st !! Z.to_nat next = Some n
       /\ navigateSquad st direction = Some (setSelectedSquad st (SquadNum n)).
Proof.
  cbv zeta. intros Hnext. pose proof (squads_length st) as Hlen.
  set (moved := (indexOf (squads st) (Number_squad (selectedSquad st)) + direction)%Z) in *.
  assert (0 <= next < Z.of_nat (length (squads st)))%Z as Hrange.
  { subst next. destruct (Z.ltb_spec moved 0); [lia|].
    destruct (Z.geb_spec moved (Z.of_nat (length (squads st)))); lia. }
  split; [done|].
  destruct (lookup_lt_is_Some_2 (squads st) (Z.to_nat next) ltac:(lia)) as [n Hn].
  exists n. split; [done|]. unfold navigateSquad. fold moved.
  assert ((if ((if (moved <? 0)%Z then Z.of_nat (length (squads st)) - 1 else moved)
               >=? Z.of_nat (length (squads st)))%Z
           then 0%Z
           else if (moved <? 0)%Z then (Z.of_nat (length (squads st)) - 1)%Z else moved)
          = next) as ->.
  { subst next. destruct (Z.ltb_spec moved 0).
    - destruct (Z.geb_spec (Z.of_nat (length (squads st)) - 1)
                           (Z.of_nat (length (squads st)))); [lia|done].
    - done. }
  destruct (Z.ltb_spec next 0); [lia|]. by rewrite Hn.
Qed.

(** X28: an arrow always selects a squad of the list: a number, never NaN and
    never undefined; the sessions stay as they are. *)
Theorem navigateSquad_selects_listed (st : AppState) (direction : Z) :
  exists n, navigateSquad st direction = Some (setSelectedSquad st (SquadNum n))
            /\ n ∈ squads st /\ isNaN n = false.
Proof.
  destruct (navigateSquad_at st direction _ eq_refl) as (_ & n & Hn & Hnav).
  exists n. split; [done|]. apply list_elem_of_lookup_2 in Hn.
  split; [done|]. by apply (squads_not_NaN st).
Qed.

(** X29: from a squad that is not in the list (its label does not read as a
    number, say) the right arrow selects the first squad of the list and the
    left arrow the last one, and no arrow selects the squad left. *)
Theorem navigateSquad_from_unlisted (st : AppState) :
  Forall (fun m => strict_eq m (Number_squad (selectedSquad st)) = false) (squads st) ->
  exists smallest largest,
    head (squads st) = Some smallest /\ last (squads st) = Some largest
    /\ navigateSquad st 1 = Some (setSelectedSquad st (SquadNum smallest))
    /\ navigateSquad st (-1) = Some (setSelectedSquad st (SquadNum largest))
    /\ forall direction st', navigateSquad st direction = Some st' ->
         Number_squad (selectedSquad st') <> Number_squad (selectedSquad st).
Proof.
  intros Hout. pose proof (indexOf_from_absent _ _ 0%Z Hout) as Hidx.
  fold (indexOf (squads st) (Number_squad (selectedSquad st))) in Hidx.
  pose proof (squads_length st) as Hlen.
  destruct (navigateSquad_at st 1 0%Z) as (_ & a & Ha & Hnav1).
  { rewrite Hidx. change (-1 + 1 <? 0)%Z with false. cbv iota.
    destruct (Z.geb_spec (-1 + 1) (Z.of_nat (length (squads st)))); [lia|done]. }
  destruct (navigateSquad_at st (-1) (Z.of_nat (length (squads st)) - 1)%Z)
    as (_ & b & Hb & Hnav2).
  { rewrite Hidx. by change (-1 + -1 <? 0)%Z with true. }
  exists a, b. split; [by rewrite head_lookup|]. split.
  { rewrite last_lookup, <- Hb. f_equal. lia. }
  split; [done|]. split; [done|].
  intros direction st' Hnav.
  destruct (navigateSquad_at st direction _ eq_refl) as (_ & n & Hin & Hn).
  apply list_elem_of_lookup_2 in Hin.
  rewrite Hn in Hnav. injection Hnav as <-. cbn [setSelectedSquad selectedSquad Number_squad].
  intros Heq. rewrite Forall_forall in Hout. specialize (Hout n Hin).
  rewrite <- Heq in Hout.
  assert (strict_eq n n = true); [|congruence].
  apply strict_eq_key. split; [done|]. by apply (squads_not_NaN st).
Qed.

(** X30: an arrow and then the opposite arrow come back to the squad selected,
    when it is in the list; the sessions and the staging list are not
    touched. *)
Theorem navigateSquad_forth_and_back (st : AppState) (direction : Z) :
  direction = 1%Z \/ direction = (-1)%Z ->
  indexOf (squads st) (Number_squad (selectedSquad st)) <> (-1)%Z ->
  exists st1 st2 m,
    navigateSquad st direction = Some st1
    /\ navigateSquad st1 (- direction) = Some st2
    /\ selectedSquad st2 = SquadNum m
    /\ strict_eq m (Number_squad (selectedSquad st)) = true
    /\ sessions st2 = sessions st /\ parkingLot st2 = parkingLot st.
Proof.
  intros Hdir Hlisted.
  destruct (indexOf_from_found (squads st) (Number_squad (selectedSquad st)) 0%Z _
              eq_refl Hlisted ltac:(lia)) as (Hrange & m & Hm & Heq).
  fold (indexOf (squads st) (Number_squad (selectedSquad st))) in Hrange, Hm.
  set (idx := indexOf (squads st) (Number_squad (selectedSquad st))) in *.
  rewrite Z.sub_0_r in Hm.
  destruct (navigateSquad_at st direction _ eq_refl) as (Hnext & n & Hn & Hnav1).
  fold idx in Hnext, Hn.
  set (next := (if (idx + direction <? 0)%Z then Z.of_nat (length (squads st)) - 1
                else if (idx + direction >=? Z.of_nat (length (squads st)))%Z then 0
                     else idx + direction)%Z) in *.
  set (st1 := setSelectedSquad st (SquadNum n)) in *.
  assert (indexOf (squads st1) (Number_squad (selectedSquad st1)) = next) as Hidx1.
  { change (squads st1) with (squads st). change (Number_squad (selectedSquad st1)) with n.
    unfold indexOf. rewrite (indexOf_from_at (squads st) n 0%Z (Z.to_nat next) n).
    - lia.
    - apply squads_keys.
    - done.
    - apply strict_eq_key. split; [done|]. apply (squads_not_NaN st).
      by apply list_elem_of_lookup_2 in Hn. }
  destruct (navigateSquad_at st1 (- direction) idx) as (_ & m' & Hm' & Hnav2).
  { rewrite Hidx1. change (squads st1) with (squads st). subst next.
    destruct Hdir as [-> | ->].
    - destruct (Z.ltb_spec (idx + 1) 0); [lia|].
      destruct (Z.geb_spec (idx + 1) (Z.of_nat (length (squads st)))).
      + change (0 + - (1) <? 0)%Z with true. cbv iota. lia.
      + destruct (Z.ltb_spec (idx + 1 + - (1)) 0); [lia|].
        destruct (Z.geb_spec (idx + 1 + - (1)) (Z.of_nat (length (squads st)))); lia.
    - destruct (Z.ltb_spec (idx + -1) 0).
      + destruct (Z.ltb_spec (Z.of_nat (length (squads st)) - 1 + - -1) 0); [lia|].
        destruct (Z.geb_spec (Z.of_nat (length (squads st)) - 1 + - -1)
                             (Z.of_nat (length (squads st)))); lia.
      + destruct (Z.geb_spec (idx + -1) (Z.of_nat (length (squads st)))); [lia|].
        destruct (Z.ltb_spec (idx + -1 + - -1) 0); [lia|].
        destruct (Z.geb_spec (idx + -1 + - -1) (Z.of_nat (length (squads st)))); lia. }
  change (squads st1) with (squads st) in Hm'. rewrite Hm in Hm'. injection Hm' as <-.
  exists st1, (setSelectedSquad st1 (SquadNum m)), m.
  repeat split; done.
Qed.

End Squads.

(** ** Witnesses *)

Lemma two_placed_exportable : Forall exportable (sessions two_placed).
Proof. repeat constructor; discriminate. Qed.

Lemma two_placed_enabled :
  enabled two_placed (Place intro_0830 timetable tuesday_1330 "2024-01-01" slot_1030).
Proof.
  split; [by left|]. split.
  - assert (visibleDates tuesday_1330 two_placed = ["2024-01-01"]) as ->
      by (vm_compute; reflexivity).
    by left.
  - assert (dynamicTimeSlots (sessions two_placed) = [slot_0830; slot_1030]) as ->
      by (vm_compute; reflexivity).
    right. by left.
Qed.

Lemma parseExcelFile_sessions_witness :
  id <$> [intro_0830; advanced_1030]
  = @random_id sample_host <$> seq 0 (length [intro_0830; advanced_1030]).
Proof.
  exact (proj1 (parseExcelFile_sessions (H := sample_host) [sheet_two_rows] _
                  parseExcelFile_two_rows)).
Defined.

Lemma export_order_independent_witness :
  export_file (H := sample_host) [advanced_1030; intro_0830] (SquadStr "4")
    (ValidDate tuesday_1330)
  = export_file (H := sample_host) [intro_0830; advanced_1030] (SquadStr "4")
      (ValidDate tuesday_1330).
Proof.
  apply (export_order_independent (H := sample_host)).
  - apply perm_swap.
  - intros s Hs _.
    repeat (apply elem_of_cons in Hs as [-> |Hs]);
      [by exists 1030%Z|by exists 830%Z|by apply elem_of_nil in Hs].
  - intros a b _ _ _ _. apply sample_host_collates.
  - intros a b Ha Hb _ _ [_ Hf].
    repeat (apply elem_of_cons in Ha as [-> |Ha]);
      repeat (apply elem_of_cons in Hb as [-> |Hb]);
      try (by apply elem_of_nil in Ha); try (by apply elem_of_nil in Hb);
      try reflexivity; vm_compute in Hf; discriminate Hf.
Defined.

Lemma export_fileName_shape_witness :
  export_fileName (SquadStr "Squad 4") (ValidDate tuesday_1330)
  = "squad 4_updated_on_2024-01-02_1330.xlsx".
Proof.
  refine (eq_trans (proj1 (export_fileName_shape (SquadStr "Squad 4") tuesday_1330
                             _ _ _ _ _)) _);
    [cbn; lia..|vm_compute; reflexivity].
Defined.

Lemma grid_shows_timed_sessions_witness :
  date intro_0830 ∈ visibleDates tuesday_1330 two_placed.
Proof.
  refine (proj1 (grid_shows_timed_sessions tuesday_1330 two_placed intro_0830 _ _)).
  - assert (currentSquadSessions two_placed = [intro_0830; advanced_1030]) as ->
      by (vm_compute; reflexivity).
    by left.
  - split; discriminate.
Defined.

Lemma drop_on_empty_cell_witness :
  cell_session (onDropToTimetable two_placed intro_0830 timetable "2024-01-02" slot_0830)
    "2024-01-02" slot_0830
  = Some (updatedSession two_placed intro_0830 "2024-01-02" slot_0830).
Proof.
  refine (drop_on_empty_cell two_placed intro_0830 timetable "2024-01-02" slot_0830 _ _);
    [by left|vm_compute; reflexivity].
Defined.

Lemma drop_on_occupied_cell_witness :
  cell_session (onDropToTimetable one_staged advanced_1030 parking "2024-01-01" slot_0830)
    "2024-01-01" slot_0830
  = Some intro_0830.
Proof.
  refine (proj1 (drop_on_occupied_cell one_staged advanced_1030 intro_0830
                   "2024-01-01" slot_0830 _)).
  vm_compute. reflexivity.
Defined.

Lemma drop_adds_no_column_witness :
  Slot.from slot_1030
  ∈ Slot.from <$> dynamicTimeSlots
      (sessions (perform two_placed
                   (Place intro_0830 timetable tuesday_1330 "2024-01-01" slot_1030))).
Proof.
  exact (proj1 (drop_adds_no_column two_placed intro_0830 timetable tuesday_1330
                  "2024-01-01" slot_1030 two_placed_enabled)).
Defined.

Lemma editor_keeps_ids_witness : NoDup (held_ids two_placed).
Proof.
  refine (proj1 (editor_keeps_ids [intro_0830; advanced_1030] two_placed
                   (Stage intro_0830 timetable) _ _ _)).
  - apply NoDup_cons. split; [|apply NoDup_singleton].
    intros Hin%list_elem_of_singleton. discriminate Hin.
  - apply reach_init.
  - by left.
Defined.

Lemma editor_keeps_payload_witness :
  exists y0, y0 ∈ [intro_0830; advanced_1030] /\ same_payload y0 intro_0830.
Proof.
  refine (editor_keeps_payload [intro_0830; advanced_1030] two_placed intro_0830 _ _).
  - apply reach_init.
  - by left.
Defined.

Lemma gesture_frame_witness :
  advanced_1030 ∈ sessions (perform two_placed (Stage intro_0830 timetable))
  <-> advanced_1030 ∈ sessions two_placed.
Proof.
  refine (proj1 (gesture_frame two_placed (Stage intro_0830 timetable) advanced_1030 _)).
  cbn. discriminate.
Defined.

Lemma gesture_keeps_exportable_witness :
  Forall exportable
    (sessions (perform two_placed
                 (Place intro_0830 timetable tuesday_1330 "2024-01-01" slot_1030))).
Proof.
  refine (proj1 (gesture_keeps_exportable two_placed
                   (Place intro_0830 timetable tuesday_1330 "2024-01-01" slot_1030)
                   two_placed_exportable _ two_placed_enabled _)).
  - constructor.
  - cbn. lia.
Defined.

Lemma navigateSquad_from_unlisted_witness :
  exists smallest largest,
    head (squads (H := sample_engine) (setSelectedSquad two_placed (SquadStr "Alpha")))
    = Some smallest
    /\ last (squads (H := sample_engine) (setSelectedSquad two_placed (SquadStr "Alpha")))
       = Some largest
    /\ navigateSquad (H := sample_engine) (setSelectedSquad two_placed (SquadStr "Alpha")) 1
       = Some (setSelectedSquad (setSelectedSquad two_placed (SquadStr "Alpha"))
                 (SquadNum smallest))
    /\ navigateSquad (H := sample_engine) (setSelectedSquad two_placed (SquadStr "Alpha")) (-1)
       = Some (setSelectedSquad (setSelectedSquad two_placed (SquadStr "Alpha"))
                 (SquadNum largest))
    /\ forall direction st',
         navigateSquad (H := sample_engine)
           (setSelectedSquad two_placed (SquadStr "Alpha")) direction = Some st' ->
         Number_squad (H := sample_engine) (selectedSquad st')
         <> Number_squad (H := sample_engine)
              (selectedSquad (setSelectedSquad two_placed (SquadStr "Alpha"))).
Proof.
  refine (navigateSquad_from_unlisted (H := sample_engine)
            (setSelectedSquad two_placed (SquadStr "Alpha")) _).
  apply Forall_forall. intros m _. change (strict_eq m NaN = false). by destruct m.
Defined.

Lemma navigateSquad_forth_and_back_witness :
  exists st1 st2 m,
    navigateSquad (H := sample_engine) two_placed 1 = Some st1
    /\ navigateSquad (H := sample_engine) st1 (- (1)) = Some st2
    /\ selectedSquad st2 = SquadNum m
    /\ strict_eq m (Number_squad (H := sample_engine) (selectedSquad two_placed)) = true
    /\ sessions st2 = sessions two_placed /\ parkingLot st2 = parkingLot two_placed.
Proof.
  refine (navigateSquad_forth_and_back (H := sample_engine) two_placed 1 _ _);
    [by left|vm_compute; discriminate].
Defined.
